(** * FMCW radar acquisition driver: framing and decoding (software/src/device.c)

    A shallow embedding of the bit/flag codec, the frame parser run by the
    stream callback, the single-entry sweep slot and the start/read entry
    points of [device.c], followed by the properties established about
    them.

    Conventions of the embedding.
    - C [int] and [uint64_t] values are integers in [Z]; where an operation
      can leave the type's range the wrap-around is written out
      ([wrap_int], [wrap_u64]).  The parser's counters are only incremented
      under a [<] test against another [int], so they never wrap and are
      left as plain [Z].
    - The file-scope [static] variables form the record [state]; every C
      function that touches them takes and returns a [state].
    - [sweep] points to [_sweep_len] ints obtained from [malloc].  It is
      modelled as the memory seen through that pointer: a finite map from
      the index used in [sweep[i]] to the value last stored there.  A cell
      absent from the map has never been stored to.  Only the indices
      [0 .. _sweep_len-1] belong to the allocation.
    - The loops over the chunk carry a fuel argument and return [None]
      when it runs out; [callback_step] shows that they never do. *)

From Stdlib Require Import ZArith Lia List Bool.
From stdpp Require Import base option list gmap.
Import ListNotations.

Local Open Scope Z_scope.

(** ** Machine integers *)

Definition BYTE_BITS : Z := 8.
Definition START_FLAG : Z := 0xFF.
Definition STOP_FLAG : Z := 0x8F.
Definition TRUE : Z := 1.
Definition FALSE : Z := 0.

(** Two's-complement reduction to a 32-bit [int] (also the result of the
    cast [(sample_t)] applied to a [uint64_t]). *)
Definition wrap_int (x : Z) : Z := (x + 2 ^ 31) mod 2 ^ 32 - 2 ^ 31.

(** Reduction to [uint64_t]; converting a negative [int] sign-extends. *)
Definition wrap_u64 (x : Z) : Z := x mod 2 ^ 64.

(** [~x] on a [uint64_t]. *)
Definition not_u64 (x : Z) : Z := Z.lxor x (2 ^ 64 - 1).

(** [0x1 << n] computed in [int]. Shift counts outside [0..30] are not
    defined by the C standard; the model takes the mathematical shift
    reduced to 32 bits, which for [n = 31] is [INT_MIN]. *)
Definition int_shl1 (n : Z) : Z := wrap_int (Z.shiftl 1 n).

(** ** Bit/flag codec *)

(** [while (val > pow2val) pow2val *= 2;] *)
Fixpoint pow2ceil_loop (fuel : nat) (val pow2val : Z) : Z :=
  match fuel with
  | O => pow2val
  | S fuel' =>
      if val >? pow2val
      then pow2ceil_loop fuel' val (pow2val * 2)
      else pow2val
  end.

(** [pow2ceil]: the loop leaves after at most 30 doublings for every
    [val <= 2^30]; beyond that [pow2val *= 2] overflows [int] in the
    source.  Both callers pass at most [2^28 + 1]. *)
Definition pow2ceil (val : Z) : Z := pow2ceil_loop 31 val 1.

(** [num_flags], with the file-scope [_fft] passed explicitly.  [/] on C
    ints truncates toward zero. *)
Definition num_flags (fft : bool) (sample_bits : Z) : Z :=
  let sample_bits := if fft then wrap_int (sample_bits * 2) else sample_bits in
  let bytes := Z.quot sample_bits BYTE_BITS + 1 in
  pow2ceil bytes.

(** [sample_bytes], with [_fft] passed explicitly. *)
Definition sample_bytes (fft : bool) (sample_bits : Z) : Z :=
  let sample_bits := if fft then wrap_int (sample_bits * 2) else sample_bits in
  let bytes := Z.quot sample_bits BYTE_BITS in
  let bytes := if negb (Z.rem sample_bits BYTE_BITS =? 0) then bytes + 1 else bytes in
  pow2ceil bytes.

(** [-(u & mask) + (u & ~mask)] in [uint64_t] arithmetic, cast to
    [sample_t]. *)
Definition signed_of (mask u : Z) : Z :=
  wrap_int (wrap_u64 (wrap_u64 (- Z.land u mask) + Z.land u (not_u64 mask))).

(** [round(sqrt(x))] for a non-negative integer [x], as the nearest
    integer to the real square root.  The source computes it in [double].
    For [x <= 2^31], which covers the sum of two squares of halves of at
    most 16 bits, the squares and their sum are exact and the real root is
    too far from every half-integer for the rounding of [sqrt] to reach
    one, so the two agree.  For larger [x] they can differ: at
    [x = 64000000^2 + 8000^2] the real root lies just below
    [64000000.5], the [double] root is [64000000.5] and [round] gives
    [64000001], where the nearest integer is [64000000].  The FFT branch
    of [sample_val] therefore stands for the source for [_sample_bits] in
    [1..16] only, and the properties about decoded FFT values are stated
    for that range. *)
Definition round_sqrt (x : Z) : Z :=
  let r := Z.sqrt x in
  if x - r * r >? r then r + 1 else r.

(** [sample_val], with [_sample_bits] and [_fft] passed explicitly.  The
    real branch follows the source for [_sample_bits] in [1..32], the FFT
    branch for [_sample_bits] in [1..16] (see [round_sqrt]). *)
Definition sample_val (sample_bits : Z) (fft : bool) (uval : Z) : Z :=
  let mask := wrap_u64 (int_shl1 (sample_bits - 1)) in
  if negb fft then signed_of mask uval
  else
    let lumask := wrap_u64 (wrap_int (int_shl1 sample_bits - 1)) in
    let luval := Z.land uval lumask in
    let lval := signed_of mask luval in
    let uumask := wrap_u64 (Z.shiftl lumask sample_bits) in
    let uuval := Z.shiftr (Z.land uval uumask) sample_bits in
    let upval := signed_of mask uuval in
    wrap_int (round_sqrt (lval * lval + upval * upval)).

(** ** Program state *)

(** The file-scope variables of [device.c] that the acquisition path
    reads or writes.  [_fft], [_sweep_valid] and [_cancel] are C ints used
    as truth values.  [_log_file] is the [FILE *] as an address ([0] is
    [NULL]); [log_written] is the sequence of bytes handed to [fwrite] on
    it.  [producer_started] records that [pthread_create] was called. *)
Record state := mkState {
  _sample_bits : Z;
  _sample_bytes : Z;
  _nflags : Z;
  _fft : bool;
  _sweep_len : Z;
  _start_flags : Z;
  _stop_flags : Z;
  _sweep_idx : Z;
  _sweep_valid : bool;
  _log_file : N;
  log_written : list Z;
  sweep : gmap Z Z;
  _last_sample : Z;
  _byte_idx : Z;
  _uval : Z;
  _cancel : bool;
  producer_started : bool
}.

(** Static storage is zero-initialised. *)
Definition initial_state : state :=
  {| _sample_bits := 0; _sample_bytes := 0; _nflags := 0; _fft := false;
     _sweep_len := 0; _start_flags := 0; _stop_flags := 0; _sweep_idx := 0;
     _sweep_valid := false; _log_file := 0%N; log_written := [];
     sweep := ∅; _last_sample := 0; _byte_idx := 0; _uval := 0;
     _cancel := false; producer_started := false |}.

Definition set_start_flags (v : Z) (s : state) : state :=
  mkState (_sample_bits s) (_sample_bytes s) (_nflags s) (_fft s) (_sweep_len s)
    v (_stop_flags s) (_sweep_idx s) (_sweep_valid s) (_log_file s)
    (log_written s) (sweep s) (_last_sample s) (_byte_idx s) (_uval s)
    (_cancel s) (producer_started s).

Definition set_stop_flags (v : Z) (s : state) : state :=
  mkState (_sample_bits s) (_sample_bytes s) (_nflags s) (_fft s) (_sweep_len s)
    (_start_flags s) v (_sweep_idx s) (_sweep_valid s) (_log_file s)
    (log_written s) (sweep s) (_last_sample s) (_byte_idx s) (_uval s)
    (_cancel s) (producer_started s).

Definition set_sweep_idx (v : Z) (s : state) : state :=
  mkState (_sample_bits s) (_sample_bytes s) (_nflags s) (_fft s) (_sweep_len s)
    (_start_flags s) (_stop_flags s) v (_sweep_valid s) (_log_file s)
    (log_written s) (sweep s) (_last_sample s) (_byte_idx s) (_uval s)
    (_cancel s) (producer_started s).

Definition set_sweep_valid (v : bool) (s : state) : state :=
  mkState (_sample_bits s) (_sample_bytes s) (_nflags s) (_fft s) (_sweep_len s)
    (_start_flags s) (_stop_flags s) (_sweep_idx s) v (_log_file s)
    (log_written s) (sweep s) (_last_sample s) (_byte_idx s) (_uval s)
    (_cancel s) (producer_started s).

Definition set_log_written (v : list Z) (s : state) : state :=
  mkState (_sample_bits s) (_sample_bytes s) (_nflags s) (_fft s) (_sweep_len s)
    (_start_flags s) (_stop_flags s) (_sweep_idx s) (_sweep_valid s) (_log_file s)
    v (sweep s) (_last_sample s) (_byte_idx s) (_uval s)
    (_cancel s) (producer_started s).

Definition set_sweep (v : gmap Z Z) (s : state) : state :=
  mkState (_sample_bits s) (_sample_bytes s) (_nflags s) (_fft s) (_sweep_len s)
    (_start_flags s) (_stop_flags s) (_sweep_idx s) (_sweep_valid s) (_log_file s)
    (log_written s) v (_last_sample s) (_byte_idx s) (_uval s)
    (_cancel s) (producer_started s).

Definition set_last_sample (v : Z) (s : state) : state :=
  mkState (_sample_bits s) (_sample_bytes s) (_nflags s) (_fft s) (_sweep_len s)
    (_start_flags s) (_stop_flags s) (_sweep_idx s) (_sweep_valid s) (_log_file s)
    (log_written s) (sweep s) v (_byte_idx s) (_uval s)
    (_cancel s) (producer_started s).

Definition set_byte_idx (v : Z) (s : state) : state :=
  mkState (_sample_bits s) (_sample_bytes s) (_nflags s) (_fft s) (_sweep_len s)
    (_start_flags s) (_stop_flags s) (_sweep_idx s) (_sweep_valid s) (_log_file s)
    (log_written s) (sweep s) (_last_sample s) v (_uval s)
    (_cancel s) (producer_started s).

Definition set_uval (v : Z) (s : state) : state :=
  mkState (_sample_bits s) (_sample_bytes s) (_nflags s) (_fft s) (_sweep_len s)
    (_start_flags s) (_stop_flags s) (_sweep_idx s) (_sweep_valid s) (_log_file s)
    (log_written s) (sweep s) (_last_sample s) (_byte_idx s) v
    (_cancel s) (producer_started s).

Definition set_cancel (v : bool) (s : state) : state :=
  mkState (_sample_bits s) (_sample_bytes s) (_nflags s) (_fft s) (_sweep_len s)
    (_start_flags s) (_stop_flags s) (_sweep_idx s) (_sweep_valid s) (_log_file s)
    (log_written s) (sweep s) (_last_sample s) (_byte_idx s) (_uval s)
    v (producer_started s).

(** [sweep[i] = v]: a store through the pointer, whatever [i] is. *)
Definition store_sweep (i v : Z) (s : state) : state :=
  set_sweep (<[i := v]> (sweep s)) s.

(** [buffer[read_idx]] *)
Definition byte_at (buffer : list Z) (read_idx : Z) : Z :=
  default 0 (buffer !! Z.to_nat read_idx).

(** How a loop body hands control back: [Next] falls out of the loop with
    the current read index, [Return] leaves the enclosing function with a
    value. *)
Inductive flow :=
  | Next (s : state) (read_idx : Z)
  | Return (s : state) (ret : Z).

(** ** Frame parser *)

Definition inc_check_idx (read_idx length : Z) : Z :=
  let read_idx := read_idx + 1 in
  if read_idx =? length then FALSE else read_idx.

(** The [cleanup:] tail of [read_stop_seq]. *)
Definition read_stop_seq_cleanup (s : state) (read_idx : Z) : state * Z :=
  (set_stop_flags 0 (set_start_flags 0 (set_sweep_idx 0 s)), read_idx).

(** The two statements after the loop of [read_stop_seq], falling into
    [cleanup:]. *)
Definition read_stop_seq_commit (s : state) (read_idx : Z) : state * Z :=
  let s := set_sweep_valid true s in
  let s := store_sweep (_sweep_idx s) (_last_sample s) s in
  read_stop_seq_cleanup s read_idx.

Fixpoint read_stop_seq_loop (fuel : nat) (buffer : list Z) (length read_idx : Z)
    (s : state) : option (state * Z) :=
  match fuel with
  | O => None
  | S fuel' =>
      if _stop_flags s <? _nflags s then
        if byte_at buffer read_idx =? STOP_FLAG then
          let s := set_stop_flags (_stop_flags s + 1) s in
          if _stop_flags s <? _nflags s then
            let read_idx := inc_check_idx read_idx length in
            if read_idx =? 0 then Some (s, FALSE)
            else read_stop_seq_loop fuel' buffer length read_idx s
          else read_stop_seq_loop fuel' buffer length read_idx s
        else
          let read_idx := inc_check_idx read_idx length in
          Some (read_stop_seq_cleanup s read_idx)
      else Some (read_stop_seq_commit s read_idx)
  end.

Definition read_stop_seq (buffer : list Z) (length read_idx : Z) (s : state)
    : option (state * Z) :=
  read_stop_seq_loop (S (S (List.length buffer))) buffer length read_idx s.

(** The inner [while (_byte_idx < _sample_bytes)] of [read_sample_seq]. *)
Fixpoint read_sample_bytes_loop (fuel : nat) (buffer : list Z) (length read_idx : Z)
    (s : state) : option flow :=
  match fuel with
  | O => None
  | S fuel' =>
      if _byte_idx s <? _sample_bytes s then
        let sh := BYTE_BITS * (_sample_bytes s - 1 - _byte_idx s) in
        let s := set_byte_idx (_byte_idx s + 1) s in
        let s := set_uval (Z.lor (_uval s) (wrap_u64 (Z.shiftl (byte_at buffer read_idx) sh))) s in
        let read_idx := inc_check_idx read_idx length in
        if read_idx =? 0 then Some (Return s FALSE)
        else read_sample_bytes_loop fuel' buffer length read_idx s
      else Some (Next s read_idx)
  end.

(** The rest of the outer loop body: decode the assembled word and place
    it. *)
Definition read_sample_seq_place (s : state) : state :=
  let s := set_byte_idx 0 s in
  let v := sample_val (_sample_bits s) (_fft s) (_uval s) in
  let s := if _sweep_idx s <? _sweep_len s - 1
           then store_sweep (_sweep_idx s) v s
           else set_last_sample v s in
  let s := set_sweep_idx (_sweep_idx s + 1) s in
  set_uval 0 s.

Fixpoint read_sample_seq_loop (fuel : nat) (buffer : list Z) (length read_idx : Z)
    (s : state) : option (state * Z) :=
  match fuel with
  | O => None
  | S fuel' =>
      if _sweep_idx s <? _sweep_len s then
        match read_sample_bytes_loop (S (List.length buffer)) buffer length read_idx s with
        | None => None
        | Some (Return s ret) => Some (s, ret)
        | Some (Next s read_idx) =>
            read_sample_seq_loop fuel' buffer length read_idx (read_sample_seq_place s)
        end
      else Some (s, read_idx)
  end.

Definition read_sample_seq (buffer : list Z) (length read_idx : Z) (s : state)
    : option (state * Z) :=
  read_sample_seq_loop (S (Z.to_nat (_sweep_len s - _sweep_idx s))) buffer length read_idx s.

Fixpoint read_start_seq_loop (fuel : nat) (buffer : list Z) (length read_idx : Z)
    (s : state) : option (state * Z) :=
  match fuel with
  | O => None
  | S fuel' =>
      if _start_flags s <? _nflags s then
        let s := if byte_at buffer read_idx =? START_FLAG
                 then set_start_flags (_start_flags s + 1) s
                 else set_start_flags 0 s in
        let read_idx := inc_check_idx read_idx length in
        if read_idx =? 0 then Some (s, FALSE)
        else read_start_seq_loop fuel' buffer length read_idx s
      else Some (s, read_idx)
  end.

Definition read_start_seq (buffer : list Z) (length read_idx : Z) (s : state)
    : option (state * Z) :=
  read_start_seq_loop (S (List.length buffer)) buffer length read_idx s.

(** The three branches of the [while (1)] body in [callback], named after
    the function each one starts with.  The branch is chosen by the tests
    [if (_stop_flags)] and [if (_sweep_idx)], in that order. *)
Inductive phase := AwaitStart | ReadSamples | AwaitStop.

Definition callback_phase (s : state) : phase :=
  if negb (_stop_flags s =? 0) then AwaitStop
  else if negb (_sweep_idx s =? 0) then ReadSamples
  else AwaitStart.

(** The body of the [while (1)] in [callback]: every path through it ends
    in [goto log], so it runs once per call.  The result is the state and
    the [read_idx] with which the [log:] label is reached. *)
Definition callback_parse (buffer : list Z) (length : Z) (s : state)
    : option (state * Z) :=
  let read_idx := 0 in
  match callback_phase s with
  | AwaitStop => read_stop_seq buffer length read_idx s
  | ReadSamples =>
      '(s, read_idx) ← read_sample_seq buffer length read_idx s;
      if read_idx =? 0 then Some (s, read_idx)
      else read_stop_seq buffer length read_idx s
  | AwaitStart =>
      '(s, read_idx) ← read_start_seq buffer length read_idx s;
      if read_idx =? 0 then Some (s, read_idx)
      else
        '(s, read_idx) ← read_sample_seq buffer length read_idx s;
        if read_idx =? 0 then Some (s, read_idx)
        else read_stop_seq buffer length read_idx s
  end.

(** The [log:] block: [fwrite] of the first [n] bytes of the buffer. *)
Definition callback_log (buffer : list Z) (length read_idx : Z) (s : state) : state :=
  if negb (_log_file s =? 0)%N then
    if read_idx =? 0
    then set_log_written (log_written s ++ take (Z.to_nat length) buffer) s
    else set_log_written (log_written s ++ take (Z.to_nat read_idx) buffer) s
  else s.

(** [callback]; [length] is the length of the chunk the stream layer
    delivers.  The result is the new state and the returned int. *)
Definition callback (buffer : list Z) (s : state) : option (state * Z) :=
  let length := Z.of_nat (List.length buffer) in
  if _cancel s then Some (s, 1)
  else if (length =? 0) || _sweep_valid s then Some (s, 0)
  else
    '(s, read_idx) ← callback_parse buffer length s;
    Some (callback_log buffer length read_idx s, 0).

(** ** Entry points *)

(** [fmcw_start_acquisition].  [log_path] is [None] for a [NULL] path and
    [Some fp] for a path on which [fopen] returns the pointer [fp] ([0],
    that is [NULL], when the file cannot be opened).  The test
    [(_log_file = fopen (...)) < 0] compares that pointer with the null
    pointer.  [fft] is the truth value of the int argument. *)
Definition fmcw_start_acquisition (log_path : option N) (sample_bits sweep_len : Z)
    (fft : bool) (s : state) : state * Z :=
  let s := mkState sample_bits (sample_bytes fft sample_bits) (num_flags fft sample_bits)
             fft sweep_len (_start_flags s) (_stop_flags s) (_sweep_idx s)
             (_sweep_valid s) (_log_file s) (log_written s) (sweep s)
             (_last_sample s) (_byte_idx s) (_uval s) (_cancel s)
             (producer_started s) in
  let opened (fp : N) (s : state) :=
    mkState (_sample_bits s) (_sample_bytes s) (_nflags s) (_fft s) (_sweep_len s)
      (_start_flags s) (_stop_flags s) (_sweep_idx s) (_sweep_valid s) fp
      [] (sweep s) (_last_sample s) (_byte_idx s) (_uval s)
      (_cancel s) (producer_started s) in
  let run (s : state) :=
    (mkState (_sample_bits s) (_sample_bytes s) (_nflags s) (_fft s) (_sweep_len s)
       (_start_flags s) (_stop_flags s) (_sweep_idx s) (_sweep_valid s) (_log_file s)
       (log_written s) ∅ (_last_sample s) (_byte_idx s) (_uval s)
       (_cancel s) true, TRUE) in
  match log_path with
  | Some fp =>
      let s := opened fp s in
      if (_log_file s <? 0)%N then (s, FALSE) else run s
  | None => run s
  end.

(** The copy loop of [fmcw_read_sweep]: [arr[i] = sweep[i]].  The
    caller's array is modelled like [sweep]; copying a cell that was never
    stored to leaves the target without a defined value. *)
Fixpoint read_sweep_loop (fuel : nat) (i : Z) (s : state) (arr : gmap Z Z)
    : option (gmap Z Z) :=
  match fuel with
  | O => None
  | S fuel' =>
      if i <? _sweep_len s
      then read_sweep_loop fuel' (i + 1) s (partial_alter (λ _, sweep s !! i) i arr)
      else Some arr
  end.

(** [fmcw_read_sweep]: the new state, the caller's array and the returned
    int. *)
Definition fmcw_read_sweep (arr : gmap Z Z) (s : state)
    : option (state * gmap Z Z * Z) :=
  if _sweep_valid s then
    arr ← read_sweep_loop (S (Z.to_nat (_sweep_len s))) 0 s arr;
    Some (set_sweep_valid false s, arr, TRUE)
  else Some (s, arr, FALSE).

(** Feeding a sequence of chunks, one [callback] each. *)
Fixpoint feed (chunks : list (list Z)) (s : state) : option state :=
  match chunks with
  | [] => Some s
  | c :: rest => '(s, _) ← callback c s; feed rest s
  end.

(** A fresh acquisition: [fmcw_start_acquisition] on the zero-initialised
    statics. *)
Definition start (log_path : option N) (sample_bits sweep_len : Z) (fft : bool) : state :=
  (fmcw_start_acquisition log_path sample_bits sweep_len fft initial_state).1.

(** The framing part of the state: the counters, the accumulator and the
    held-back sample. *)
Definition framing (s : state) : Z * Z * Z * Z * Z * Z :=
  (_start_flags s, _stop_flags s, _sweep_idx s, _byte_idx s, _uval s, _last_sample s).

(** ** The specification's vocabulary *)

(** The unsigned word whose low [sb] bits are the two's-complement
    encoding of [v] and whose higher bits are zero. *)
Definition twos_complement (sb v : Z) : Z := v mod 2 ^ sb.

(** Effective payload width [W]. *)
Definition payload_width (fft : bool) (sample_bits : Z) : Z :=
  sample_bits * (if fft then 2 else 1).

(** The comparison of flag length and sample width, as a test. *)
Definition widths_ok (fft : bool) (sample_bits : Z) : bool :=
  (sample_bytes fft sample_bits <=? num_flags fft sample_bits)
  && ((payload_width fft sample_bits mod 8 =? 0)
      || (num_flags fft sample_bits =? sample_bytes fft sample_bits)).

(** The payload widths at which a sample fills its bytes and the byte
    count is a power of two. *)
Definition strict_width (w : Z) : bool :=
  (w =? 8) || (w =? 16) || (w =? 32) || (w =? 64).

(** The exact relation of flag length and sample width, as a test: twice
    the sample width at the widths above, the sample width elsewhere. *)
Definition widths_exact (fft : bool) (sample_bits : Z) : bool :=
  if strict_width (payload_width fft sample_bits)
  then (num_flags fft sample_bits =? 2 * sample_bytes fft sample_bits)
       && (sample_bytes fft sample_bits <? num_flags fft sample_bits)
  else num_flags fft sample_bits =? sample_bytes fft sample_bits.

(** The phase the specification reads off the triple of counters. *)
Definition spec_phase (s : state) : phase :=
  if 0 <? _stop_flags s then AwaitStop
  else if (0 <? _sweep_idx s) || (0 <? _byte_idx s) then ReadSamples
  else AwaitStart.

(** The wire format of one frame: [nflags] start flags, every sample as
    [sample_bytes] bytes with the most significant first, [nflags] stop
    flags. *)
Fixpoint be_bytes (n : nat) (w : Z) : list Z :=
  match n with
  | O => []
  | S n' => Z.land (Z.shiftr w (BYTE_BITS * Z.of_nat n')) 0xFF :: be_bytes n' w
  end.

Definition frame (s : state) (words : list Z) : list Z :=
  replicate (Z.to_nat (_nflags s)) START_FLAG
  ++ concat (map (be_bytes (Z.to_nat (_sample_bytes s))) words)
  ++ replicate (Z.to_nat (_nflags s)) STOP_FLAG.

(** ** Invariants of the parser *)

(** The configuration part of the state, which no callback changes. *)
Definition config_of (s : state) : Z * Z * Z * bool * Z * N * bool * bool :=
  (_sample_bits s, _sample_bytes s, _nflags s, _fft s, _sweep_len s,
   _log_file s, _cancel s, producer_started s).

(** The counters of a state the parser can be in: the sweep index is in
    range, and a started stop run means all samples have been read. *)
Definition parser_inv (s : state) : Prop :=
  0 <= _sweep_idx s <= _sweep_len s
  /\ 0 <= _stop_flags s
  /\ (_stop_flags s <> 0 -> _sweep_idx s = _sweep_len s).

(** The cells of [sweep] outside [lo .. hi-1] are the same in [s'] as in [s]. *)
Definition stores_within (lo hi : Z) (s s' : state) : Prop :=
  forall i, ~ (lo <= i < hi) -> sweep s' !! i = sweep s !! i.

(** What [read_sample_seq] may change. *)
Definition samples_rel (s s' : state) : Prop :=
  config_of s' = config_of s
  /\ _start_flags s' = _start_flags s
  /\ _stop_flags s' = _stop_flags s
  /\ _sweep_valid s' = _sweep_valid s
  /\ log_written s' = log_written s
  /\ _sweep_idx s <= _sweep_idx s'
  /\ stores_within (_sweep_idx s) (_sweep_len s - 1) s s'.

(** What one call of [callback] may change, the log apart. *)
Definition step_rel (s s' : state) : Prop :=
  config_of s' = config_of s
  /\ parser_inv s'
  /\ (forall i, ~ (0 <= i < _sweep_len s - 1) -> i <> _sweep_len s ->
                sweep s' !! i = sweep s !! i)
  /\ ((_sweep_valid s' = _sweep_valid s
       /\ sweep s' !! _sweep_len s = sweep s !! _sweep_len s)
      \/ (_sweep_valid s' = true
          /\ sweep s' !! _sweep_len s = Some (_last_sample s'))).

(** What holds of every state the parser can reach: the counters are in
    range, only the cells [0 .. _sweep_len-2] and [_sweep_len] of [sweep]
    have ever been stored to, and a waiting sweep has its last sample in
    cell [_sweep_len]. *)
Definition reach_inv (s : state) : Prop :=
  parser_inv s
  /\ (forall i, is_Some (sweep s !! i) -> 0 <= i < _sweep_len s - 1 \/ i = _sweep_len s)
  /\ (_sweep_valid s = true -> sweep s !! _sweep_len s = Some (_last_sample s)).

(** ** Scenarios *)

(** Two frames for 8-bit real samples and sweeps of two samples
    ([sample_bytes = 1], [nflags = 2]), carrying [5, 122] and [9, 16]. *)
Definition nominal_chunk : list Z := [0xFF; 0xFF; 0x05; 0x7A; 0x8F; 0x8F].
Definition second_chunk : list Z := [0xFF; 0xFF; 0x09; 0x10; 0x8F; 0x8F].

(** A frame for 12-bit real samples ([sample_bytes = 2], [nflags = 2])
    carrying [0x123, 0x456], cut inside its first sample. *)
Definition wide_head : list Z := [0xFF; 0xFF; 0x01].
Definition wide_tail : list Z := [0x23; 0x04; 0x56; 0x8F; 0x8F].

(** ** The outbound write queue *)

(** The loop of [fmcw_add_write] that fills [buf].  The indices run upwards
    from zero, so the array is built by appending.  [val] is a [uint32_t];
    a shift by 32 or more is not defined in C and does not occur for
    [nbytes <= 4], and the array [buf[nbytes]] needs [nbytes >= 1]. *)
Fixpoint add_write_loop (fuel : nat) (i val nbytes : Z) (buf : list Z)
    : option (list Z) :=
  match fuel with
  | O => None
  | S fuel' =>
      if i <? nbytes
      then add_write_loop fuel' (i + 1) val nbytes
             (buf ++ [Z.land (Z.shiftr val (BYTE_BITS * i)) 0xFF])
      else Some buf
  end.

(** [fmcw_add_write].  [vector_push] belongs to [vector.h]: it is taken
    as a parameter that maps the queue, the bytes and their number to the
    new queue and the number it reports as pushed. *)
Definition fmcw_add_write (vector_push : list Z -> list Z -> Z -> list Z * Z)
    (val nbytes : Z) (write_data : list Z) : option (list Z * Z) :=
  buf ← add_write_loop (S (Z.to_nat nbytes)) 0 val nbytes [];
  let '(write_data, pushed) := vector_push write_data buf nbytes in
  Some (write_data, if negb (pushed =? nbytes) then FALSE else TRUE).

(** The number a sequence of bytes denotes, least significant first. *)
Fixpoint le_value (bytes : list Z) : Z :=
  match bytes with
  | [] => 0
  | b :: rest => b + 256 * le_value rest
  end.

(** The byte [fmcw_add_write] puts at index [i]. *)
Definition write_byte (val i : Z) : Z := Z.land (Z.shiftr val (BYTE_BITS * i)) 0xFF.

(** ** Closing *)

(** [fmcw_close], as the state it leaves once [pthread_join] has returned:
    the producer has seen [_cancel] and stopped, the flag is cleared again,
    the log is closed and the sweep buffer freed.  The device handle, the
    mutex and the write queue are outside [state]. *)
Definition fmcw_close (s : state) : state :=
  mkState (_sample_bits s) (_sample_bytes s) (_nflags s) (_fft s) (_sweep_len s)
    (_start_flags s) (_stop_flags s) (_sweep_idx s) (_sweep_valid s) 0%N
    (log_written s) ∅ (_last_sample s) (_byte_idx s) (_uval s)
    false false.

(** ** Vocabulary of the general properties *)

(** The bytes [xs] stand in [buffer] from index [r] on. *)
Definition occurs_at (buffer : list Z) (r : Z) (xs : list Z) : Prop :=
  forall (j : nat) (x : Z), xs !! j = Some x -> buffer !! (Z.to_nat r + j)%nat = Some x.

(** One sample: the assembled word is decoded and placed. *)
Definition place_word (s : state) (w : Z) : state :=
  read_sample_seq_place (set_uval w (set_byte_idx (_sample_bytes s) s)).

(** The parser between two frames: not cancelled, no sweep waiting, all
    counters and the accumulator at zero. *)
Definition at_rest (s : state) : Prop :=
  _cancel s = false /\ _sweep_valid s = false
  /\ _start_flags s = 0 /\ _stop_flags s = 0 /\ _sweep_idx s = 0
  /\ _byte_idx s = 0 /\ _uval s = 0.

(** The state in which a whole frame leaves the parser, before the log is
    written: start run, samples placed, commit. *)
Definition after_frame (s : state) (ws : list Z) : state :=
  (read_stop_seq_commit (fold_left place_word ws (set_start_flags (_nflags s) s)) 0).1.

(** What a consumer finds once the frame that carries the words [ws] has
    been published from the state [s]: the slot is valid, the counters are
    back at zero, cells [0 .. sweep_len-2] hold the decoded words, the
    last decoded word is in [_last_sample] and in cell [sweep_len], and no
    other cell has changed. *)
Definition published (s : state) (ws : list Z) (s' : state) : Prop :=
  _sweep_valid s' = true
  /\ config_of s' = config_of s
  /\ (_start_flags s', _stop_flags s', _sweep_idx s', _byte_idx s', _uval s')
     = (0, 0, 0, 0, 0)
  /\ (forall (i : nat) (w : Z),
        ws !! i = Some w -> Z.of_nat i < _sweep_len s - 1 ->
        sweep s' !! Z.of_nat i = Some (sample_val (_sample_bits s) (_fft s) w))
  /\ (forall w, last ws = Some w ->
        _last_sample s' = sample_val (_sample_bits s) (_fft s) w
        /\ sweep s' !! _sweep_len s = Some (sample_val (_sample_bits s) (_fft s) w))
  /\ (forall i, ~ (0 <= i < _sweep_len s - 1) -> i <> _sweep_len s ->
        sweep s' !! i = sweep s !! i).

(** The widths at which [sample_val] stands for the computation of the
    source: every width of a real sample, and FFT samples of at most 16
    bits a half, where the [double] arithmetic of the magnitude is exact
    (see [round_sqrt]). *)
Definition decoder_exact (fft : bool) (sample_bits : Z) : Prop :=
  1 <= sample_bits <= (if fft then 16 else 32).

(** The sign mask of [sample_val]. *)
Definition sign_mask (sample_bits : Z) : Z := wrap_u64 (int_shl1 (sample_bits - 1)).

(** The bounds on the derived widths, as a test. *)
Definition codec_ok (fft : bool) (sample_bits : Z) : bool :=
  (1 <=? sample_bytes fft sample_bits) && (sample_bytes fft sample_bits <=? 8)
  && (payload_width fft sample_bits <=? 8 * sample_bytes fft sample_bits)
  && (8 * sample_bytes fft sample_bits <? 2 * payload_width fft sample_bits + 8)
  && (1 <=? num_flags fft sample_bits) && (num_flags fft sample_bits <=? 16)
  && (payload_width fft sample_bits <? 8 * num_flags fft sample_bits).

(** The derived widths are those of the recorded sample width. *)
Definition configured (s : state) : Prop :=
  _sample_bytes s = sample_bytes (_fft s) (_sample_bits s)
  /\ _nflags s = num_flags (_fft s) (_sample_bits s).

(** One consumer poll after every chunk; the sweeps read, in order. *)
Fixpoint acquire (chunks : list (list Z)) (s : state)
    : option (state * list (gmap Z Z)) :=
  match chunks with
  | [] => Some (s, [])
  | c :: rest =>
      '(s, _) ← callback c s;
      '(s, arr, ret) ← fmcw_read_sweep ∅ s;
      '(s, sweeps) ← acquire rest s;
      Some (s, if ret =? TRUE then arr :: sweeps else sweeps)
  end.

(** The frame that carries the signed values [vs]. *)
Definition frame_of_values (s : state) (vs : list Z) : list Z :=
  frame s (map (twos_complement (_sample_bits s)) vs).

(** [arr] holds the values [vs] but for the last one. *)
Definition holds_but_last (vs : list Z) (arr : gmap Z Z) : Prop :=
  forall (i : nat) (v : Z),
    vs !! i = Some v -> Z.of_nat i < Z.of_nat (List.length vs) - 1 ->
    arr !! Z.of_nat i = Some v.

(** [v] is a signed value of [sample_bits] bits. *)
Definition in_range (sample_bits : Z) (v : Z) : Prop :=
  - 2 ^ (sample_bits - 1) <= v < 2 ^ (sample_bits - 1).

(** States from which no sweep is published any more: no stop flag seen,
    and either the start run is complete with no sample placed, or every
    sample is placed, or only the last one is missing and its bytes are
    all read. *)
Definition dead (s : state) : Prop :=
  _sweep_valid s = false /\ _stop_flags s = 0
  /\ ((_sweep_idx s = 0 /\ _nflags s <= _start_flags s)
      \/ (_sweep_idx s <> 0 /\ _sweep_len s <= _sweep_idx s)
      \/ (0 < _sweep_idx s /\ _sweep_idx s + 1 = _sweep_len s
          /\ _sample_bytes s <= _byte_idx s)).

(** The word assembled from the first [B - k] of the [B] bytes of [w]. *)
Definition partial_word (w : Z) (k : nat) : Z :=
  Z.shiftl (Z.shiftr w (8 * Z.of_nat k)) (8 * Z.of_nat k).

(** The start-flag counter over the bytes [xs], as the loop of
    [read_start_seq] keeps it from the count [k]: one more on a start flag,
    back to zero on any other byte, and the scan ends once the count has
    reached [n].  The result is the count and the bytes not looked at. *)
Fixpoint start_scan (n k : Z) (xs : list Z) {struct xs} : Z * list Z :=
  match xs with
  | [] => (k, [])
  | b :: xs' =>
      if n <=? k then (k, xs)
      else start_scan n (if b =? START_FLAG then k + 1 else 0) xs'
  end.

(** The read index at which [rest] starts in a chunk of [length] bytes;
    zero, the end-of-buffer mark, when nothing is left. *)
Definition index_of_rest (length : Z) (rest : list Z) : Z :=
  match rest with
  | [] => 0
  | _ :: _ => length - Z.of_nat (List.length rest)
  end.

(** The word that carries the pair [(lo, hi)] in FFT mode: [lo] in the low
    [sb] bits, [hi] in the next [sb] bits. *)
Definition pack_pair (sb lo hi : Z) : Z :=
  twos_complement sb lo + 2 ^ sb * twos_complement sb hi.

(** ** Scenarios for the general properties *)

(** A 12-bit real acquisition of three samples per sweep, before the first
    chunk ([sample_bytes = 2], [nflags = 2]), and the same with a log file
    open. *)
Definition wide_start : state := start None 12 3 false.
Definition wide_logged : state := start (Some 1%N) 12 3 false.

(** [vector_push] on a queue that takes every byte. *)
Definition push_all (write_data buf : list Z) (nbytes : Z) : list Z * Z :=
  (write_data ++ buf, nbytes).

(** * Properties *)

(** [conjs] splits a conjunction into its parts and nothing else; [run]
    closes an equation between closed terms by evaluation. *)
Ltac conjs := repeat match goal with |- _ /\ _ => split end.
Ltac run := vm_compute; reflexivity.

(** ** Codec: [pow2ceil] *)

Lemma pow2ceil_loop_least (fuel : nat) :
  forall val k,
    0 <= k -> val <= 2 ^ (k + Z.of_nat fuel) ->
    exists j,
      k <= j /\ pow2ceil_loop fuel val (2 ^ k) = 2 ^ j
      /\ val <= 2 ^ j /\ (k < j -> 2 ^ (j - 1) < val).
Proof.
  induction fuel as [|fuel IH]; intros val k Hk Hval; cbn [pow2ceil_loop].
  - exists k. rewrite Z.add_0_r in Hval. repeat split; lia.
  - destruct (Z.gtb_spec val (2 ^ k)) as [Hgt|Hle].
    + replace (2 ^ k * 2) with (2 ^ (k + 1)) by (rewrite Z.pow_add_r; lia).
      destruct (IH val (k + 1)) as (j & Hj & Hrun & Hge & Hleast); [lia | |].
      * replace (k + 1 + Z.of_nat fuel) with (k + Z.of_nat (S fuel)) by lia. exact Hval.
      * exists j. repeat split; try lia; try assumption.
        intros _. destruct (Z.eq_dec j (k + 1)) as [->|Hne].
        -- replace (k + 1 - 1) with k by lia. lia.
        -- apply Hleast. lia.
    + exists k. repeat split; lia.
Qed.

(** X1: [pow2ceil] returns the least power of two that is at least its
    argument; the doubling stops at [2^30] at the latest, inside [int]. *)
Lemma pow2ceil_least (val : Z) :
  val <= 2 ^ 30 ->
  exists j, 0 <= j <= 30 /\ pow2ceil val = 2 ^ j
            /\ val <= 2 ^ j /\ (0 < j -> 2 ^ (j - 1) < val).
Proof.
  intros Hval. unfold pow2ceil.
  destruct (pow2ceil_loop_least 31 val 0) as (j & Hj & Hrun & Hge & Hleast); [lia | cbn; lia |].
  exists j. change (2 ^ 0) with 1 in Hrun. repeat split; try assumption; try lia.
  destruct (Z.le_gt_cases j 30) as [|Hbig]; [assumption|].
  assert (2 ^ 30 <= 2 ^ (j - 1)) by (apply Z.pow_le_mono_r; lia).
  specialize (Hleast ltac:(lia)). lia.
Qed.

(** ** Codec: flag length against sample width *)

Lemma sample_bits_cases (sb : Z) :
  1 <= sb <= 32 -> In sb (map Z.of_nat (seq 1 32)).
Proof.
  intros H. apply in_map_iff. exists (Z.to_nat sb).
  split; [lia | apply in_seq; lia].
Qed.

Lemma widths_ok_all (fft : bool) :
  forallb (widths_ok fft) (map Z.of_nat (seq 1 32)) = true.
Proof. destruct fft; vm_compute; reflexivity. Qed.

(** C8 (as stated, refuted): for [sample_bits = 7] in real mode the flag
    run is one byte long, exactly as long as a sample, not longer. *)
Lemma num_flags_not_above_sample_bytes :
  1 <= 7 <= 32 /\ num_flags false 7 = 1 /\ sample_bytes false 7 = 1
  /\ ~ (num_flags false 7 > sample_bytes false 7).
Proof. conjs; try lia; try run. vm_compute. congruence. Qed.

Lemma widths_exact_all (fft : bool) :
  forallb (widths_exact fft) (map Z.of_nat (seq 1 32)) = true.
Proof. destruct fft; vm_compute; reflexivity. Qed.

Lemma strict_width_In (w : Z) : strict_width w = true <-> In w [8; 16; 32; 64].
Proof.
  unfold strict_width. rewrite !orb_true_iff, !Z.eqb_eq. cbn [In].
  intuition congruence.
Qed.

(** C8 (amended): for every [sample_bits] in [1..32] and both modes the
    flag run is at least as long as the padded sample,
    [num_flags >= sample_bytes].  It is longer, and then exactly twice as
    long, when the payload width [W] is 8, 16, 32 or 64; at every other
    width, in particular whenever [W] is not a multiple of 8, the two are
    equal. *)
Theorem num_flags_ge_sample_bytes (fft : bool) (sb : Z) :
  1 <= sb <= 32 ->
  num_flags fft sb >= sample_bytes fft sb
  /\ (payload_width fft sb mod 8 <> 0 -> num_flags fft sb = sample_bytes fft sb)
  /\ (In (payload_width fft sb) [8; 16; 32; 64] ->
      num_flags fft sb = 2 * sample_bytes fft sb
      /\ num_flags fft sb > sample_bytes fft sb)
  /\ (~ In (payload_width fft sb) [8; 16; 32; 64] ->
      num_flags fft sb = sample_bytes fft sb).
Proof.
  intros Hsb.
  pose proof (proj1 (forallb_forall _ _) (widths_exact_all fft) sb
                (sample_bits_cases sb Hsb)) as Hok.
  unfold widths_exact in Hok.
  destruct (strict_width (payload_width fft sb)) eqn:Hstrict.
  - apply andb_true_iff in Hok as [Heq Hlt].
    apply Z.eqb_eq in Heq. apply Z.ltb_lt in Hlt.
    apply strict_width_In in Hstrict.
    conjs; try lia.
    + intros Hmod. exfalso. apply Hmod.
      cbn [In] in Hstrict.
      destruct Hstrict as [<-|[<-|[<-|[<-|[]]]]]; reflexivity.
    + intros Hnot. contradiction.
  - apply Z.eqb_eq in Hok.
    assert (Hnot : ~ In (payload_width fft sb) [8; 16; 32; 64]).
    { intros Hin. apply strict_width_In in Hin. congruence. }
    conjs; try lia. intros Hin. contradiction.
Qed.

Lemma num_flags_ge_sample_bytes_witness :
  (num_flags true 8 = 2 * sample_bytes true 8 /\ num_flags true 8 > sample_bytes true 8)
  /\ num_flags false 12 = sample_bytes false 12
  /\ num_flags false 24 = sample_bytes false 24.
Proof.
  destruct (num_flags_ge_sample_bytes true 8 ltac:(lia)) as (_ & _ & H16 & _).
  destruct (num_flags_ge_sample_bytes false 12 ltac:(lia)) as (_ & H12 & _ & _).
  destruct (num_flags_ge_sample_bytes false 24 ltac:(lia)) as (_ & _ & _ & H24).
  split; [apply H16; vm_compute; auto|].
  split; [apply H12; vm_compute; discriminate|].
  apply H24. vm_compute. intros [H|[H|[H|[H|[]]]]]; discriminate.
Defined.

(** ** Codec: real-mode decoding *)

Lemma land_pow2 (u k : Z) :
  0 <= k -> Z.land u (2 ^ k) = if Z.testbit u k then 2 ^ k else 0.
Proof.
  intros Hk. apply Z.bits_inj'. intros n Hn.
  rewrite Z.land_spec, Z.pow2_bits_eqb by lia.
  destruct (Z.eqb_spec k n) as [->|Hne].
  - destruct (Z.testbit u n) eqn:E; simpl.
    + now rewrite Z.pow2_bits_true.
    + now rewrite Z.bits_0.
  - rewrite andb_false_r.
    destruct (Z.testbit u k); [now rewrite Z.pow2_bits_false | now rewrite Z.bits_0].
Qed.

Lemma testbit_top (u k : Z) :
  0 <= k -> 0 <= u < 2 ^ (k + 1) -> Z.testbit u k = negb (u <? 2 ^ k).
Proof.
  intros Hk Hu. replace (k + 1) with (Z.succ k) in Hu by lia. rewrite Z.pow_succ_r in Hu by lia.
  assert (Hp : 0 < 2 ^ k) by (apply Z.pow_pos_nonneg; lia).
  rewrite Z.testbit_eqb by lia.
  destruct (Z.ltb_spec u (2 ^ k)); simpl.
  - rewrite Z.div_small by lia. reflexivity.
  - assert (u / 2 ^ k = 1) as ->; [|reflexivity].
    symmetry. apply (Z.div_unique u (2 ^ k) 1 (u - 2 ^ k)); lia.
Qed.

Lemma bits_above (u n k : Z) : 0 <= u < 2 ^ n -> n <= k -> Z.testbit u k = false.
Proof.
  intros Hu Hk. destruct (Z.eq_dec u 0) as [->|Hne]; [apply Z.bits_0|].
  apply Z.bits_above_log2; [lia|].
  assert (0 <= n) by (destruct (Z.le_gt_cases 0 n); [lia|]; rewrite Z.pow_neg_r in Hu; lia).
  assert (Z.log2 u < n) by (apply Z.log2_lt_pow2; lia). lia.
Qed.

Lemma land_not_u64 (u m : Z) :
  0 <= u < 2 ^ 64 -> Z.land u (not_u64 m) = u - Z.land u m.
Proof.
  intros Hu. rewrite Z.sub_nocarry_ldiff.
  - apply Z.bits_inj'. intros n Hn. unfold not_u64.
    change (2 ^ 64 - 1) with (Z.ones 64).
    rewrite Z.land_spec, Z.lxor_spec, Z.ldiff_spec, Z.land_spec, Z.testbit_ones_nonneg by lia.
    destruct (Z.ltb_spec n 64).
    + destruct (Z.testbit u n), (Z.testbit m n); reflexivity.
    + rewrite (bits_above u 64 n) by lia. reflexivity.
  - apply Z.bits_inj'. intros n Hn.
    rewrite Z.ldiff_spec, Z.land_spec, Z.bits_0.
    destruct (Z.testbit u n), (Z.testbit m n); reflexivity.
Qed.

Lemma wrap_int_small (x : Z) : - 2 ^ 31 <= x < 2 ^ 31 -> wrap_int x = x.
Proof. intros H. unfold wrap_int. rewrite Z.mod_small; lia. Qed.

Lemma wrap_int_u64 (x : Z) : wrap_int (wrap_u64 x) = wrap_int x.
Proof.
  unfold wrap_int, wrap_u64. f_equal.
  rewrite <- (Z.add_mod_idemp_l (x mod 2 ^ 64)) by lia.
  rewrite Z.mod_mod_divide by (exists (2 ^ 32); reflexivity).
  rewrite Z.add_mod_idemp_l by lia. reflexivity.
Qed.

Lemma wrap_u64_add_l (a b : Z) : wrap_u64 (wrap_u64 a + b) = wrap_u64 (a + b).
Proof. unfold wrap_u64. apply Z.add_mod_idemp_l. lia. Qed.

Lemma sign_mask_land (sb u : Z) :
  1 <= sb <= 32 -> 0 <= u < 2 ^ sb ->
  Z.land u (wrap_u64 (int_shl1 (sb - 1))) = if u <? 2 ^ (sb - 1) then 0 else 2 ^ (sb - 1).
Proof.
  intros Hsb Hu.
  assert (Hland : Z.land u (2 ^ (sb - 1)) = if u <? 2 ^ (sb - 1) then 0 else 2 ^ (sb - 1)).
  { rewrite land_pow2, testbit_top by (rewrite ?Z.sub_add; lia).
    destruct (u <? 2 ^ (sb - 1)); reflexivity. }
  destruct (Z.eq_dec sb 32) as [->|Hne].
  - change (wrap_u64 (int_shl1 (32 - 1))) with (2 ^ 64 - 2 ^ 31).
    rewrite <- Hland.
    rewrite <- (Z.mod_small u (2 ^ 32)) at 1 2 by lia.
    rewrite <- (Z.land_ones u 32), <- !Z.land_assoc by lia.
    reflexivity.
  - unfold int_shl1, wrap_u64. rewrite Z.shiftl_1_l.
    assert (0 < 2 ^ (sb - 1) < 2 ^ 31).
    { split; [apply Z.pow_pos_nonneg; lia | apply Z.pow_lt_mono_r; lia]. }
    rewrite wrap_int_small, Z.mod_small by lia. exact Hland.
Qed.

(** C9: real-mode [sample_val] inverts the two's-complement encoding: for
    every width [sb] in [1..32] and every [v] in [-2^(sb-1) .. 2^(sb-1)-1],
    decoding the zero-padded word that carries [v] in its low [sb] bits
    gives back [v]. *)
Theorem sample_val_real_roundtrip (sb v : Z) :
  1 <= sb <= 32 ->
  - 2 ^ (sb - 1) <= v < 2 ^ (sb - 1) ->
  sample_val sb false (twos_complement sb v) = v.
Proof.
  intros Hsb Hv. unfold sample_val, twos_complement, signed_of. simpl negb. cbv iota.
  assert (Hpow : 2 ^ sb = 2 * 2 ^ (sb - 1)).
  { rewrite <- Z.pow_succ_r by lia. f_equal. lia. }
  assert (Hp : 0 < 2 ^ (sb - 1) <= 2 ^ 31).
  { split; [apply Z.pow_pos_nonneg; lia | apply Z.pow_le_mono_r; lia]. }
  assert (Hle : 2 ^ sb <= 2 ^ 32) by (apply Z.pow_le_mono_r; lia).
  set (u := v mod 2 ^ sb).
  assert (Hu : 0 <= u < 2 ^ sb) by (apply Z.mod_pos_bound; lia).
  rewrite land_not_u64 by lia.
  rewrite sign_mask_land by assumption.
  rewrite wrap_u64_add_l.
  rewrite wrap_int_u64.
  destruct (Z.ltb_spec u (2 ^ (sb - 1))) as [Hlt|Hge].
  - assert (u = v) as ->.
    { subst u. destruct (Z.lt_ge_cases v 0).
      - assert (v mod 2 ^ sb = v + 2 ^ sb).
        { symmetry. apply (Z.mod_unique v (2 ^ sb) (-1)); lia. } lia.
      - apply Z.mod_small. lia. }
    replace (- 0 + (v - 0)) with v by lia.
    apply wrap_int_small. lia.
  - assert (u = v + 2 ^ sb) as ->.
    { subst u. destruct (Z.lt_ge_cases v 0).
      - symmetry. apply (Z.mod_unique v (2 ^ sb) (-1)); lia.
      - rewrite Z.mod_small in Hge; lia. }
    replace (- 2 ^ (sb - 1) + (v + 2 ^ sb - 2 ^ (sb - 1))) with v by lia.
    apply wrap_int_small. lia.
Qed.

Lemma sample_val_real_roundtrip_witness :
  1 <= 12 <= 32 /\ - 2 ^ (12 - 1) <= -3 < 2 ^ (12 - 1)
  /\ sample_val 12 false (twos_complement 12 (-3)) = -3.
Proof.
  split; [lia|]. split; [lia|].
  apply (sample_val_real_roundtrip 12 (-3)); lia.
Defined.

(** ** The sweep slot: [fmcw_read_sweep] *)

Lemma read_sweep_loop_copies (fuel : nat) :
  forall (i : Z) (s : state) (arr : gmap Z Z),
    (Z.to_nat (_sweep_len s - i) < fuel)%nat ->
    exists arr',
      read_sweep_loop fuel i s arr = Some arr'
      /\ forall j, arr' !! j =
                   if bool_decide (i <= j < _sweep_len s) then sweep s !! j else arr !! j.
Proof.
  induction fuel as [|fuel IH]; intros i s arr Hfuel; [lia|].
  simpl. destruct (Z.ltb_spec i (_sweep_len s)) as [Hlt|Hge].
  - destruct (IH (i + 1) s (partial_alter (λ _, sweep s !! i) i arr)) as (arr' & Hrun & Hget);
      [lia|].
    exists arr'. split; [exact Hrun|].
    intros j. rewrite Hget.
    destruct (Z.eq_dec i j) as [->|Hne].
    + rewrite lookup_partial_alter_eq.
      rewrite bool_decide_eq_false_2, bool_decide_eq_true_2 by lia. reflexivity.
    + rewrite lookup_partial_alter_ne by exact Hne.
      repeat case_bool_decide; try reflexivity; lia.
  - exists arr. split; [reflexivity|].
    intros j. rewrite bool_decide_eq_false_2 by lia. reflexivity.
Qed.

(** C10: with [_sweep_valid] clear, [fmcw_read_sweep] returns FALSE and
    changes neither the caller's array nor the state (slot buffer and
    flag included); with it set, the call returns TRUE, [_sweep_valid] is
    clear afterwards, the slot buffer and every other field of the state
    are as before, every one of the [_sweep_len] slot cells has been copied
    to the same index of the array, and the rest of the array is
    untouched. *)
Theorem fmcw_read_sweep_spec (arr : gmap Z Z) (s : state) :
  (_sweep_valid s = false -> fmcw_read_sweep arr s = Some (s, arr, FALSE))
  /\ (_sweep_valid s = true ->
      exists s' arr',
        fmcw_read_sweep arr s = Some (s', arr', TRUE)
        /\ _sweep_valid s' = false
        /\ sweep s' = sweep s
        /\ config_of s' = config_of s
        /\ framing s' = framing s
        /\ log_written s' = log_written s
        /\ (forall i, 0 <= i < _sweep_len s -> arr' !! i = sweep s !! i)
        /\ (forall i, ~ (0 <= i < _sweep_len s) -> arr' !! i = arr !! i)).
Proof.
  unfold fmcw_read_sweep. split; intros Hv; rewrite Hv; [reflexivity|].
  destruct (read_sweep_loop_copies (S (Z.to_nat (_sweep_len s))) 0 s arr)
    as (arr' & Hrun & Hget).
  { rewrite Z.sub_0_r. lia. }
  exists (set_sweep_valid false s), arr'. rewrite Hrun.
  conjs; try reflexivity; intros i Hi; rewrite Hget.
  - rewrite bool_decide_eq_true_2 by lia. reflexivity.
  - rewrite bool_decide_eq_false_2 by lia. reflexivity.
Qed.

Lemma fmcw_read_sweep_spec_witness :
  (_sweep_valid (start None 8 2 false) = false
   /\ fmcw_read_sweep {[1 := 7]} (start None 8 2 false)
      = Some (start None 8 2 false, {[1 := 7]}, FALSE))
  /\ exists s1,
       feed [nominal_chunk] (start None 8 2 false) = Some s1
       /\ _sweep_valid s1 = true
       /\ exists s' arr',
            fmcw_read_sweep {[1 := 7; 5 := 9]} s1 = Some (s', arr', TRUE)
            /\ _sweep_valid s' = false
            /\ sweep s' = sweep s1
            /\ config_of s' = config_of s1
            /\ framing s' = framing s1
            /\ log_written s' = log_written s1
            /\ (forall i, 0 <= i < _sweep_len s1 -> arr' !! i = sweep s1 !! i)
            /\ (forall i, ~ (0 <= i < _sweep_len s1) -> arr' !! i = ({[1 := 7; 5 := 9]} : gmap Z Z) !! i).
Proof.
  split.
  - split; [reflexivity|].
    apply (proj1 (fmcw_read_sweep_spec {[1 := 7]} (start None 8 2 false))). reflexivity.
  - eexists. split; [vm_compute; reflexivity|].
    split; [reflexivity|].
    apply (proj2 (fmcw_read_sweep_spec {[1 := 7; 5 := 9]} _)). reflexivity.
Defined.

(** ** Start of an acquisition *)

(** C6 (as stated, refuted): a zero sweep length and a zero sample width
    are both accepted; the call returns TRUE and the producer is started. *)
Lemma start_acquisition_accepts_zero :
  (fmcw_start_acquisition None 12 0 false initial_state).2 = TRUE
  /\ producer_started (fmcw_start_acquisition None 12 0 false initial_state).1 = true
  /\ (fmcw_start_acquisition None 0 16 false initial_state).2 = TRUE
  /\ producer_started (fmcw_start_acquisition None 0 16 false initial_state).1 = true
  /\ TRUE <> FALSE.
Proof. conjs; try run. discriminate. Qed.

(** C6 (amended): [fmcw_start_acquisition] checks neither [sample_bits]
    nor [sweep_len].  Whenever no log path is given or the log file opens,
    it returns TRUE for every pair of values, zero included, records the
    configuration with the derived [sample_bytes] and [num_flags],
    allocates the sweep and starts the producer. *)
Theorem fmcw_start_acquisition_unchecked
    (log_path : option N) (sample_bits sweep_len : Z) (fft : bool) (s : state) :
  log_path <> Some 0%N ->
  let r := fmcw_start_acquisition log_path sample_bits sweep_len fft s in
  r.2 = TRUE
  /\ producer_started r.1 = true
  /\ _sample_bits r.1 = sample_bits
  /\ _sweep_len r.1 = sweep_len
  /\ _fft r.1 = fft
  /\ _sample_bytes r.1 = sample_bytes fft sample_bits
  /\ _nflags r.1 = num_flags fft sample_bits
  /\ sweep r.1 = ∅.
Proof.
  intros Hpath. unfold fmcw_start_acquisition.
  destruct log_path as [fp|]; cbn.
  - destruct (N.ltb_spec fp 0) as [Hneg|_]; [lia|].
    cbn. conjs; reflexivity.
  - conjs; reflexivity.
Qed.

Lemma fmcw_start_acquisition_unchecked_witness :
  (None : option N) <> Some 0%N
  /\ (fmcw_start_acquisition None 0 0 true initial_state).2 = TRUE.
Proof.
  split; [discriminate|].
  apply (fmcw_start_acquisition_unchecked None 0 0 true initial_state). discriminate.
Defined.

(** The test on the result of [fopen] compares a pointer with [< 0]; a
    null pointer does not pass it. *)
Remark log_open_failure_not_reported (sample_bits sweep_len : Z) (fft : bool) (s : state) :
  (fmcw_start_acquisition (Some 0%N) sample_bits sweep_len fft s).2 = TRUE.
Proof. reflexivity. Qed.

(** ** The callback while a sweep is waiting *)

Lemma callback_valid (buffer : list Z) (s : state) :
  _sweep_valid s = true ->
  callback buffer s = Some (s, if _cancel s then 1 else 0).
Proof.
  intros Hv. unfold callback. rewrite Hv, orb_true_r.
  destruct (_cancel s); reflexivity.
Qed.

(** C4 (as stated, refuted): once the nominal frame has been published
    and not yet read, a chunk that opens the next frame leaves the framing
    state where it was; the same chunk after the flag is cleared moves it
    into the first sample. *)
Lemma callback_valid_does_not_advance :
  exists s,
    feed [nominal_chunk] (start None 8 2 false) = Some s
    /\ _sweep_valid s = true
    /\ (framing ∘ fst) <$> callback [0xFF; 0xFF; 0x09] s = Some (0, 0, 0, 0, 0, 122)
    /\ (framing ∘ fst) <$> callback [0xFF; 0xFF; 0x09] (set_sweep_valid false s)
       = Some (2, 0, 0, 1, 9, 122).
Proof. eexists. split; [run|]. conjs; run. Qed.

(** C4 (amended): while [_sweep_valid] is set the callback returns before
    the parser runs: every chunk is discarded whole and the state (framing
    counters, slot buffer, flag and log) is left as it was.  So with a
    consumer that never reads, every chunk after a publication is ignored
    and the slot keeps that one sweep. *)
Theorem callback_valid_skips_chunk (s : state) :
  _sweep_valid s = true ->
  (forall buffer, callback buffer s = Some (s, if _cancel s then 1 else 0))
  /\ (forall chunks, feed chunks s = Some s).
Proof.
  intros Hv. split.
  - intros buffer. now apply callback_valid.
  - induction chunks as [|c rest IH]; [reflexivity|].
    cbn [feed]. rewrite callback_valid by exact Hv. cbn. exact IH.
Qed.

Lemma callback_valid_skips_chunk_witness :
  _sweep_valid (default initial_state (feed [nominal_chunk] (start None 8 2 false))) = true
  /\ feed [second_chunk]
       (default initial_state (feed [nominal_chunk] (start None 8 2 false)))
     = Some (default initial_state (feed [nominal_chunk] (start None 8 2 false))).
Proof.
  split; [vm_compute; reflexivity|].
  apply (callback_valid_skips_chunk
           (default initial_state (feed [nominal_chunk] (start None 8 2 false)))).
  vm_compute; reflexivity.
Defined.

(** ** The loops of the parser

    Each loop of the parser returns within its fuel, and changes only
    what its C text assigns. *)

Section Loops.

Variable buffer : list Z.
Variable length : Z.

Lemma inc_check_idx_cases (r : Z) :
  0 <= r < length ->
  (inc_check_idx r length = 0 /\ r + 1 = length)
  \/ (inc_check_idx r length = r + 1 /\ r + 1 < length).
Proof.
  intros Hr. unfold inc_check_idx, FALSE.
  destruct (Z.eqb_spec (r + 1) length); [left | right]; lia.
Qed.

Lemma read_start_seq_loop_spec (fuel : nat) :
  forall (r : Z) (s : state),
    0 <= r < length -> (Z.to_nat (length - r) <= fuel)%nat ->
    exists k r',
      read_start_seq_loop fuel buffer length r s = Some (set_start_flags k s, r')
      /\ (r' = 0 \/ r <= r' < length).
Proof.
  induction fuel as [|fuel IH]; intros r s Hr Hfuel; [lia|].
  cbn [read_start_seq_loop].
  destruct (_start_flags s <? _nflags s).
  - set (s1 := if byte_at buffer r =? START_FLAG
               then set_start_flags (_start_flags s + 1) s
               else set_start_flags 0 s).
    assert (Hs1 : exists k, s1 = set_start_flags k s).
    { subst s1. destruct (_ =? _); eauto. }
    destruct Hs1 as [k1 ->].
    destruct (inc_check_idx_cases r Hr) as [[-> _]|[-> Hlt]]; cbn [Z.eqb].
    + exists k1, FALSE. split; [reflexivity | now left].
    + destruct (Z.eqb_spec (r + 1) 0); [lia|].
      destruct (IH (r + 1) (set_start_flags k1 s)) as (k & r' & Hrun & Hr'); [lia | lia |].
      exists k, r'. split; [exact Hrun | lia].
  - exists (_start_flags s), r. split; [destruct s; reflexivity | right; lia].
Qed.


Lemma read_sample_bytes_loop_spec (fuel : nat) :
  forall (r : Z) (s : state),
    0 <= r < length -> (Z.to_nat (length - r) < fuel)%nat ->
    exists b u,
      read_sample_bytes_loop fuel buffer length r s
        = Some (Return (set_uval u (set_byte_idx b s)) 0)
      \/ exists r',
          read_sample_bytes_loop fuel buffer length r s
            = Some (Next (set_uval u (set_byte_idx b s)) r')
          /\ r <= r' < length.
Proof.
  induction fuel as [|fuel IH]; intros r s Hr Hfuel; [lia|].
  cbn [read_sample_bytes_loop].
  destruct (_byte_idx s <? _sample_bytes s).
  - set (b1 := _byte_idx s + 1).
    set (u1 := Z.lor _ _).
    destruct (inc_check_idx_cases r Hr) as [[-> _]|[-> Hlt]]; cbn [Z.eqb].
    + exists b1, u1. left. reflexivity.
    + destruct (Z.eqb_spec (r + 1) 0); [lia|].
      destruct (IH (r + 1) (set_uval u1 (set_byte_idx b1 s))) as (b & u & Hrun);
        [lia | lia |].
      exists b, u. destruct Hrun as [Hrun|(r' & Hrun & Hr')].
      * left. exact Hrun.
      * right. exists r'. split; [exact Hrun | lia].
  - exists (_byte_idx s), (_uval s). right. exists r.
    split; [destruct s; reflexivity | lia].
Qed.

Lemma read_sample_seq_place_rel (s : state) :
  0 <= _sweep_idx s < _sweep_len s ->
  samples_rel s (read_sample_seq_place s)
  /\ _sweep_idx (read_sample_seq_place s) = _sweep_idx s + 1.
Proof.
  intros Hidx. unfold read_sample_seq_place, samples_rel, stores_within, config_of.
  cbn. destruct (Z.ltb_spec (_sweep_idx s) (_sweep_len s - 1)); cbn.
  - conjs; try reflexivity; try lia.
    intros i Hi. apply lookup_insert_ne. lia.
  - conjs; try reflexivity; try lia.
Qed.

Lemma samples_rel_refl (s : state) : samples_rel s s.
Proof. unfold samples_rel, stores_within. conjs; try reflexivity; lia. Qed.

Lemma samples_rel_bytes (b u : Z) (s s' : state) :
  samples_rel (set_uval u (set_byte_idx b s)) s' -> samples_rel s s'.
Proof. exact (fun H => H). Qed.

Lemma samples_rel_trans (s1 s2 s3 : state) :
  0 <= _sweep_idx s1 ->
  samples_rel s1 s2 -> samples_rel s2 s3 -> samples_rel s1 s3.
Proof.
  unfold samples_rel, stores_within, config_of.
  intros H0 (Hc1 & Ha1 & Hb1 & Hv1 & Hl1 & Hi1 & Hs1) (Hc2 & Ha2 & Hb2 & Hv2 & Hl2 & Hi2 & Hs2).
  assert (_sweep_len s2 = _sweep_len s1) as Hlen by congruence.
  conjs; try congruence; try lia.
  intros i Hi. rewrite Hs2, Hs1 by lia. reflexivity.
Qed.

Lemma read_sample_seq_loop_spec (fuel : nat) :
  forall (r : Z) (s : state),
    0 <= r < length -> length = Z.of_nat (List.length buffer) ->
    0 <= _sweep_idx s <= _sweep_len s ->
    (Z.to_nat (_sweep_len s - _sweep_idx s) < fuel)%nat ->
    exists s' r',
      read_sample_seq_loop fuel buffer length r s = Some (s', r')
      /\ samples_rel s s'
      /\ _sweep_idx s' <= _sweep_len s
      /\ (r' = 0 \/ (r <= r' < length /\ _sweep_idx s' = _sweep_len s)).
Proof.
  induction fuel as [|fuel IH]; intros r s Hr Hlen Hidx Hfuel; [lia|].
  cbn [read_sample_seq_loop].
  destruct (Z.ltb_spec (_sweep_idx s) (_sweep_len s)) as [Hlt|Hge].
  - destruct (read_sample_bytes_loop_spec (S (List.length buffer)) r s Hr) as (b & u & Hbytes);
      [lia|].
    destruct Hbytes as [-> | (r1 & -> & Hr1)].
    + eexists _, 0. split; [reflexivity|].
      split; [apply (samples_rel_bytes b u), samples_rel_refl|].
      split; [cbn; lia | now left].
    + set (s1 := set_uval u (set_byte_idx b s)).
      destruct (read_sample_seq_place_rel s1) as [Hrel1 Hnext]; [cbn; lia|].
      destruct (IH r1 (read_sample_seq_place s1)) as (s' & r' & Hrun & Hrel & Hle & Hr');
        [lia | exact Hlen | | | ].
      * rewrite Hnext. destruct Hrel1 as (Hc & _). unfold config_of in Hc.
        assert (_sweep_len (read_sample_seq_place s1) = _sweep_len s1) by congruence.
        cbn in *. lia.
      * rewrite Hnext. destruct Hrel1 as (Hc & _). unfold config_of in Hc.
        assert (_sweep_len (read_sample_seq_place s1) = _sweep_len s1) by congruence.
        cbn in *. lia.
      * assert (Hl1 : _sweep_len (read_sample_seq_place s1) = _sweep_len s).
        { destruct Hrel1 as (Hc & _). unfold config_of in Hc.
          assert (_sweep_len (read_sample_seq_place s1) = _sweep_len s1) by congruence.
          cbn in *. lia. }
        exists s', r'. split; [exact Hrun|].
        split; [|rewrite Hl1 in *; split; [lia|lia]].
        apply (samples_rel_bytes b u). fold s1.
        apply (samples_rel_trans s1 (read_sample_seq_place s1) s'); [cbn; lia | | ]; assumption.
  - exists s, r. split; [reflexivity|].
    split; [apply samples_rel_refl|]. split; [lia|]. right. lia.
Qed.


Lemma read_stop_seq_loop_spec (fuel : nat) :
  forall (r : Z) (s : state),
    0 <= r < length -> 0 <= _stop_flags s ->
    (Z.to_nat (length - r) < fuel)%nat ->
    (exists k, 0 < k /\ read_stop_seq_loop fuel buffer length r s
                         = Some (set_stop_flags k s, 0))
    \/ (exists r', read_stop_seq_loop fuel buffer length r s
                     = Some (read_stop_seq_cleanup s r'))
    \/ (exists r', read_stop_seq_loop fuel buffer length r s
                     = Some (read_stop_seq_commit s r')).
Proof.
  induction fuel as [|fuel IH]; intros r s Hr Hstop Hfuel; [lia|].
  cbn [read_stop_seq_loop].
  destruct (_stop_flags s <? _nflags s).
  - destruct (byte_at buffer r =? STOP_FLAG).
    + set (s1 := set_stop_flags (_stop_flags s + 1) s).
      destruct (_stop_flags s1 <? _nflags s1) eqn:Hmore.
      * destruct (inc_check_idx_cases r Hr) as [[-> _]|[-> Hlt]]; cbn [Z.eqb].
        -- left. exists (_stop_flags s + 1). split; [lia | reflexivity].
        -- destruct (Z.eqb_spec (r + 1) 0); [lia|].
           destruct (IH (r + 1) s1) as [(k & Hk & Hrun)|[(r' & Hrun)|(r' & Hrun)]];
             [lia | cbn; lia | lia | | | ].
           ++ left. exists k. split; [exact Hk | exact Hrun].
           ++ right. left. exists r'. exact Hrun.
           ++ right. right. exists r'. exact Hrun.
      * destruct fuel as [|fuel]; [lia|].
        cbn [read_stop_seq_loop]. rewrite Hmore.
        right. right. exists r. reflexivity.
    + right. left. eexists. reflexivity.
  - right. right. exists r. reflexivity.
Qed.


Hypothesis length_buffer : length = Z.of_nat (List.length buffer).

Lemma stop_phase (r : Z) (s : state) :
  0 <= r < length -> 0 <= _stop_flags s ->
  0 <= _sweep_len s -> _sweep_idx s = _sweep_len s ->
  exists s' r',
    read_stop_seq buffer length r s = Some (s', r')
    /\ step_rel s s' /\ log_written s' = log_written s.
Proof.
  intros Hr Hstop Hlen Hidx. unfold read_stop_seq.
  destruct (read_stop_seq_loop_spec (S (S (List.length buffer))) r s Hr Hstop)
    as [(k & Hk & ->)|[(r' & ->)|(r' & ->)]]; [lia | | | ].
  - eexists _, _. split; [reflexivity|]. split; [|reflexivity].
    unfold step_rel, parser_inv. cbn. conjs; try reflexivity; try lia.
    left. split; reflexivity.
  - eexists _, _. split; [reflexivity|]. split; [|reflexivity].
    unfold step_rel, parser_inv. cbn. conjs; try reflexivity; try lia.
    left. split; reflexivity.
  - eexists _, _. split; [reflexivity|]. split; [|reflexivity].
    unfold step_rel, parser_inv. cbn. conjs; try reflexivity; try lia.
    + intros i _ Hi. apply lookup_insert_ne. lia.
    + right. split; [reflexivity|]. rewrite Hidx. apply lookup_insert_eq.
Qed.

Lemma step_rel_after_samples (s s1 s' : state) :
  0 <= _sweep_idx s ->
  samples_rel s s1 -> step_rel s1 s' -> log_written s' = log_written s1 ->
  step_rel s s' /\ log_written s' = log_written s.
Proof.
  unfold samples_rel, step_rel, stores_within, config_of.
  intros H0 (Hc1 & Ha1 & Hb1 & Hv1 & Hl1 & Hi1 & Hs1) (Hc2 & Hinv & Hs2 & Hpub) Hlog.
  assert (_sweep_len s1 = _sweep_len s) as Hlen by congruence.
  rewrite Hlen in *.
  conjs; try congruence.
  - intros i Hi Hne. rewrite Hs2, Hs1 by lia. reflexivity.
  - destruct Hpub as [[Hv Hcell]|[Hv Hcell]]; [left | right; now split].
    split; [congruence|]. rewrite Hcell. apply Hs1. lia.
Qed.

Lemma sample_phase (r : Z) (s : state) :
  0 <= r < length -> _stop_flags s = 0 -> 0 <= _sweep_idx s <= _sweep_len s ->
  exists s' r',
    ('(s1, r1) ← read_sample_seq buffer length r s;
     if r1 =? 0 then Some (s1, r1) else read_stop_seq buffer length r1 s1)
      = Some (s', r')
    /\ step_rel s s' /\ log_written s' = log_written s.
Proof.
  intros Hr Hstop Hidx. unfold read_sample_seq.
  destruct (read_sample_seq_loop_spec
              (S (Z.to_nat (_sweep_len s - _sweep_idx s))) r s Hr length_buffer Hidx)
    as (s1 & r1 & -> & Hrel & Hle & Hr1); [lia|].
  cbn [mbind option_bind].
  pose proof Hrel as (Hc & Ha & Hb & Hv & Hl & Hi & Hs).
  assert (_sweep_len s1 = _sweep_len s) as Hlen by (unfold config_of in Hc; congruence).
  destruct (Z.eqb_spec r1 0) as [Hz|Hnz].
  - exists s1, r1. split; [reflexivity|].
    apply (step_rel_after_samples s s1 s1); [lia | exact Hrel | | reflexivity].
    unfold step_rel, parser_inv. conjs; try reflexivity; try lia.
    left. split; reflexivity.
  - destruct Hr1 as [Hz | [Hr1 Hfull]]; [lia|].
    destruct (stop_phase r1 s1) as (s' & r' & Hrun & Hstep & Hlog); try lia.
    exists s', r'. split; [exact Hrun|].
    apply (step_rel_after_samples s s1 s'); [lia | assumption..].
Qed.

End Loops.

Lemma callback_log_frame (buffer : list Z) (length r : Z) (s : state) :
  exists n, callback_log buffer length r s = set_log_written (log_written s ++ take n buffer) s.
Proof.
  unfold callback_log. destruct (negb _).
  - destruct (r =? 0); eexists; reflexivity.
  - exists 0%nat. rewrite take_0, app_nil_r. destruct s; reflexivity.
Qed.

Lemma step_rel_refl (s : state) : parser_inv s -> step_rel s s.
Proof.
  intros Hinv. unfold step_rel. conjs; try reflexivity; try assumption.
  left. split; reflexivity.
Qed.

Theorem callback_step (buffer : list Z) (s : state) :
  parser_inv s ->
  exists s' r,
    callback buffer s = Some (s', r)
    /\ step_rel s s'
    /\ exists n, log_written s' = log_written s ++ take n buffer.
Proof.
  intros Hinv. unfold callback.
  assert (Hnop : exists n, log_written s = log_written s ++ take n buffer).
  { exists 0%nat. now rewrite take_0, app_nil_r. }
  destruct (_cancel s).
  { exists s, 1. split; [reflexivity|]. split; [now apply step_rel_refl | exact Hnop]. }
  destruct (Z.eqb_spec (Z.of_nat (List.length buffer)) 0) as [Hz|Hnz]; cbn [orb].
  { exists s, 0. split; [reflexivity|]. split; [now apply step_rel_refl | exact Hnop]. }
  destruct (_sweep_valid s).
  { exists s, 0. split; [reflexivity|]. split; [now apply step_rel_refl | exact Hnop]. }
  set (length := Z.of_nat (List.length buffer)) in *.
  assert (Hpos : 0 <= 0 < length) by lia.
  destruct Hinv as (Hidx & Hstop & Hfull).
  assert (Hparse : exists s1 r1,
             callback_parse buffer length s = Some (s1, r1)
             /\ step_rel s s1 /\ log_written s1 = log_written s).
  { unfold callback_parse, callback_phase.
    destruct (Z.eqb_spec (_stop_flags s) 0) as [Hs0|Hs0]; cbn [negb].
    - destruct (Z.eqb_spec (_sweep_idx s) 0) as [Hi0|Hi0]; cbn [negb].
      + destruct (read_start_seq_loop_spec buffer length (S (List.length buffer)) 0 s Hpos)
          as (k & r1 & Hrun & Hr1); [lia|].
        unfold read_start_seq. rewrite Hrun. cbn [mbind option_bind].
        destruct (Z.eqb_spec r1 0) as [Hr0|Hr0].
        * eexists _, r1. split; [reflexivity|]. split; [|reflexivity].
          unfold step_rel, parser_inv. cbn. conjs; try reflexivity; try lia.
          left. split; reflexivity.
        * destruct (sample_phase buffer length eq_refl r1 (set_start_flags k s))
            as (s' & r' & Hrun' & Hstep & Hlog); [lia | exact Hs0 | exact Hidx |].
          exists s', r'. split; [exact Hrun'|]. split; [exact Hstep | exact Hlog].
      + destruct (sample_phase buffer length eq_refl 0 s)
          as (s' & r' & Hrun' & Hstep & Hlog); [lia | exact Hs0 | exact Hidx |].
        exists s', r'. split; [exact Hrun'|]. split; [exact Hstep | exact Hlog].
    - destruct (stop_phase buffer length eq_refl 0 s) as (s' & r' & Hrun & Hstep & Hlog);
        [lia | lia | lia | now apply Hfull |].
      exists s', r'. split; [exact Hrun|]. split; [exact Hstep | exact Hlog]. }
  destruct Hparse as (s1 & r1 & -> & Hstep & Hlog).
  cbn [mbind option_bind].
  destruct (callback_log_frame buffer length r1 s1) as [n ->].
  eexists _, 0. split; [reflexivity|]. split.
  - destruct Hstep as (Hc & Hinv1 & Hs & Hpub). unfold step_rel. conjs; assumption.
  - exists n. cbn. rewrite Hlog. reflexivity.
Qed.

(** ** Reachable states *)

Lemma callback_reach (buffer : list Z) (s : state) :
  reach_inv s ->
  exists s' r,
    callback buffer s = Some (s', r)
    /\ reach_inv s' /\ _sweep_len s' = _sweep_len s.
Proof.
  intros (Hinv & Hcells & Hpub).
  destruct (_sweep_valid s) eqn:Hv.
  - exists s, (if _cancel s then 1 else 0).
    split; [now apply callback_valid|].
    split; [|reflexivity]. unfold reach_inv. rewrite Hv. conjs; assumption.
  - destruct (callback_step buffer s Hinv) as (s' & r & Hrun & Hstep & _).
    exists s', r. split; [exact Hrun|].
    destruct Hstep as (Hc & Hinv' & Hkeep & Hcommit).
    assert (Hlen : _sweep_len s' = _sweep_len s) by (unfold config_of in Hc; congruence).
    split; [|exact Hlen]. unfold reach_inv. rewrite Hlen. conjs.
    + exact Hinv'.
    + intros i Hi.
      destruct (decide (0 <= i < _sweep_len s - 1)) as [|Hout]; [now left|].
      destruct (decide (i = _sweep_len s)) as [|Hne]; [now right|].
      rewrite Hkeep in Hi by assumption. now apply Hcells.
    + intros Hv'. destruct Hcommit as [[Hsame _]|[_ Hcell]]; [congruence | exact Hcell].
Qed.

Lemma feed_reach (chunks : list (list Z)) :
  forall s, reach_inv s ->
    exists s', feed chunks s = Some s' /\ reach_inv s' /\ _sweep_len s' = _sweep_len s.
Proof.
  induction chunks as [|c rest IH]; intros s Hs.
  - exists s. now conjs.
  - destruct (callback_reach c s Hs) as (s1 & r & Hrun & Hs1 & Hlen1).
    destruct (IH s1 Hs1) as (s' & Hfeed & Hs' & Hlen').
    exists s'. cbn [feed]. rewrite Hrun. cbn. conjs; [exact Hfeed | exact Hs' | congruence].
Qed.

Lemma start_reach (log_path : option N) (sample_bits sweep_len : Z) (fft : bool) :
  0 <= sweep_len ->
  reach_inv (start log_path sample_bits sweep_len fft)
  /\ _sweep_len (start log_path sample_bits sweep_len fft) = sweep_len.
Proof.
  intros Hlen. unfold start, fmcw_start_acquisition.
  assert (Hempty : forall i : Z, is_Some ((∅ : gmap Z Z) !! i) -> 0 <= i < sweep_len - 1 \/ i = sweep_len).
  { intros i Hi. rewrite lookup_empty in Hi. now destruct Hi. }
  destruct log_path as [fp|]; cbn.
  - destruct (N.ltb_spec fp 0) as [Hneg|_]; [lia|].
    unfold reach_inv, parser_inv. cbn. conjs; try lia; try discriminate; try reflexivity.
    exact Hempty.
  - unfold reach_inv, parser_inv. cbn. conjs; try lia; try discriminate; try reflexivity.
    exact Hempty.
Qed.

(** X15: from any start with a non-negative sweep length and for any
    sequence of chunks, the parser returns; the only cells of [sweep] it has stored
    to are [0 .. sweep_len-2] and [sweep_len]; cell [sweep_len-1] has never
    been stored to; and a waiting sweep has its last sample in cell
    [sweep_len]. *)
Theorem stores_skip_last_cell
    (log_path : option N) (sample_bits sweep_len : Z) (fft : bool)
    (chunks : list (list Z)) :
  0 <= sweep_len ->
  exists s',
    feed chunks (start log_path sample_bits sweep_len fft) = Some s'
    /\ _sweep_len s' = sweep_len
    /\ (forall i, is_Some (sweep s' !! i) -> 0 <= i < sweep_len - 1 \/ i = sweep_len)
    /\ sweep s' !! (sweep_len - 1) = None
    /\ (_sweep_valid s' = true -> sweep s' !! sweep_len = Some (_last_sample s')).
Proof.
  intros Hlen.
  destruct (start_reach log_path sample_bits sweep_len fft Hlen) as [Hstart Hl0].
  destruct (feed_reach chunks _ Hstart) as (s' & Hfeed & (Hinv & Hcells & Hpub) & Hl).
  rewrite Hl0 in Hl. rewrite Hl in *.
  exists s'. conjs; try assumption.
  destruct (sweep s' !! (sweep_len - 1)) eqn:Hcell; [|reflexivity].
  destruct (Hcells (sweep_len - 1)) as [|]; [rewrite Hcell; eauto | lia | lia].
Qed.

(** ** States the parser does not leave *)

Lemma read_start_seq_run_complete (buffer : list Z) (length : Z) (s : state) :
  _nflags s <= _start_flags s ->
  read_start_seq buffer length 0 s = Some (s, 0).
Proof.
  intros H. unfold read_start_seq. cbn [read_start_seq_loop].
  destruct (Z.ltb_spec (_start_flags s) (_nflags s)); [lia | reflexivity].
Qed.

Lemma callback_stalled (buffer : list Z) (s : state) :
  _cancel s = false -> _log_file s = 0%N ->
  _stop_flags s = 0 -> _sweep_idx s = 0 -> _nflags s <= _start_flags s ->
  callback buffer s = Some (s, 0).
Proof.
  intros Hc Hl Hstop Hidx Hrun. unfold callback. rewrite Hc.
  destruct (_ || _); [reflexivity|].
  unfold callback_parse, callback_phase. rewrite Hstop, Hidx. cbn [Z.eqb negb].
  rewrite read_start_seq_run_complete by exact Hrun. cbn.
  unfold callback_log. rewrite Hl. reflexivity.
Qed.

Lemma feed_stalled (chunks : list (list Z)) (s : state) :
  _cancel s = false -> _log_file s = 0%N ->
  _stop_flags s = 0 -> _sweep_idx s = 0 -> _nflags s <= _start_flags s ->
  feed chunks s = Some s.
Proof.
  intros Hc Hl Hstop Hidx Hrun.
  induction chunks as [|c rest IH]; [reflexivity|].
  cbn [feed]. rewrite callback_stalled by assumption. exact IH.
Qed.

Lemma pow2ceil_loop_ge (fuel : nat) :
  forall val p, 0 <= p -> p <= pow2ceil_loop fuel val p.
Proof.
  induction fuel as [|fuel IH]; intros val p Hp; cbn [pow2ceil_loop]; [lia|].
  destruct (val >? p); [|lia].
  specialize (IH val (p * 2)). lia.
Qed.

Lemma num_flags_pos (fft : bool) (sample_bits : Z) : 1 <= num_flags fft sample_bits.
Proof. unfold num_flags, pow2ceil. apply pow2ceil_loop_ge. lia. Qed.

(** A chunk that is exactly one start run. *)
Lemma read_start_seq_loop_run (n : nat) (fuel : nat) :
  forall (r : Z) (s : state),
    _nflags s = Z.of_nat n -> _start_flags s = r -> 0 <= r < Z.of_nat n ->
    (Z.to_nat (Z.of_nat n - r) <= fuel)%nat ->
    read_start_seq_loop fuel (replicate n START_FLAG) (Z.of_nat n) r s
      = Some (set_start_flags (Z.of_nat n) s, 0).
Proof.
  induction fuel as [|fuel IH]; intros r s Hn Hs Hr Hfuel; [lia|].
  cbn [read_start_seq_loop].
  destruct (Z.ltb_spec (_start_flags s) (_nflags s)) as [_|Hge]; [|lia].
  unfold byte_at. rewrite lookup_replicate_2 by lia. cbn [default].
  rewrite Z.eqb_refl. unfold inc_check_idx.
  destruct (Z.eqb_spec (r + 1) (Z.of_nat n)) as [Heq|Hne]; cbn [FALSE Z.eqb].
  - rewrite Hs, Heq. reflexivity.
  - destruct (Z.eqb_spec (r + 1) 0); [lia|].
    rewrite IH; [reflexivity | exact Hn | cbn; lia | lia | lia].
Qed.

Lemma callback_start_run (n : nat) (s : state) :
  _cancel s = false -> _sweep_valid s = false -> _log_file s = 0%N ->
  _stop_flags s = 0 -> _sweep_idx s = 0 -> _start_flags s = 0 ->
  _nflags s = Z.of_nat n -> (1 <= n)%nat ->
  callback (replicate n START_FLAG) s = Some (set_start_flags (Z.of_nat n) s, 0).
Proof.
  intros Hc Hv Hl Hstop Hidx Hstart Hn Hpos. unfold callback.
  rewrite Hc, Hv, length_replicate.
  destruct (Z.eqb_spec (Z.of_nat n) 0); [lia|]. cbn [orb].
  unfold callback_parse, callback_phase. rewrite Hstop, Hidx. cbn [Z.eqb negb].
  unfold read_start_seq.
  rewrite read_start_seq_loop_run; rewrite ?length_replicate; try lia.
  cbn [mbind option_bind Z.eqb]. unfold callback_log. cbn. rewrite Hl. reflexivity.
Qed.

(** Whatever the configuration, once the start run has arrived as a chunk
    of its own no later chunk changes the state. *)
Lemma start_run_chunk_stalls (sample_bits sweep_len : Z) (fft : bool) (rest : list (list Z)) :
  let s0 := start None sample_bits sweep_len fft in
  feed (replicate (Z.to_nat (_nflags s0)) START_FLAG :: rest) s0
  = Some (set_start_flags (_nflags s0) s0).
Proof.
  intros s0. cbn [feed].
  pose proof (num_flags_pos fft sample_bits) as Hpos.
  assert (Hn : _nflags s0 = num_flags fft sample_bits) by reflexivity.
  rewrite (callback_start_run (Z.to_nat (_nflags s0)) s0); try reflexivity; try lia.
  replace (Z.of_nat (Z.to_nat (_nflags s0))) with (_nflags s0) by lia.
  apply feed_stalled; reflexivity.
Qed.

(** The same happens when a chunk ends with the last sample of a sweep. *)
Lemma callback_samples_complete (buffer : list Z) (s : state) :
  _cancel s = false -> _log_file s = 0%N ->
  _stop_flags s = 0 -> _sweep_idx s <> 0 -> _sweep_len s <= _sweep_idx s ->
  callback buffer s = Some (s, 0).
Proof.
  intros Hc Hl Hstop Hidx Hfull. unfold callback. rewrite Hc.
  destruct (_ || _); [reflexivity|].
  unfold callback_parse, callback_phase. rewrite Hstop. cbn [Z.eqb negb].
  destruct (Z.eqb_spec (_sweep_idx s) 0); [contradiction|]. cbn [negb].
  unfold read_sample_seq. cbn [read_sample_seq_loop].
  destruct (Z.ltb_spec (_sweep_idx s) (_sweep_len s)); [lia|].
  cbn. unfold callback_log. rewrite Hl. reflexivity.
Qed.

Lemma feed_samples_complete (chunks : list (list Z)) (s : state) :
  _cancel s = false -> _log_file s = 0%N ->
  _stop_flags s = 0 -> _sweep_idx s <> 0 -> _sweep_len s <= _sweep_idx s ->
  feed chunks s = Some s.
Proof.
  intros Hc Hl Hstop Hidx Hfull.
  induction chunks as [|c rest IH]; [reflexivity|].
  cbn [feed]. rewrite callback_samples_complete by assumption. exact IH.
Qed.

(** With no stop flag and no sample yet but part of a sample read, the
    triple of counters names the sample phase and the callback takes the
    start-flag branch. *)
Lemma phase_mismatch (s : state) :
  _stop_flags s = 0 -> _sweep_idx s = 0 -> 0 < _byte_idx s ->
  spec_phase s = ReadSamples /\ callback_phase s = AwaitStart.
Proof.
  intros Hstop Hidx Hbyte. unfold spec_phase, callback_phase.
  rewrite Hstop, Hidx. cbn.
  destruct (Z.ltb_spec 0 (_byte_idx s)); [split; reflexivity | lia].
Qed.

(** ** The parser on whole and on split frames *)

(** C1 (the code departs from it): on the nominal frame for
    [sweep_len = 2] the commit stores the held-back sample at index 2,
    one past the last element of the buffer, and index 1 is never
    stored to. *)
Theorem commit_stores_past_buffer :
  exists s',
    callback nominal_chunk (start None 8 2 false) = Some (s', 0)
    /\ _sweep_valid s' = true
    /\ _sweep_len s' = 2
    /\ sweep s' = <[0 := 5]> (<[2 := 122]> ∅)
    /\ sweep s' !! (_sweep_len s') = Some 122
    /\ sweep s' !! (_sweep_len s' - 1) = None.
Proof. eexists. split; [run|]. conjs; run. Qed.

(** C2 (as stated, refuted): with [sample_bits = 7] the flag run is one
    byte, so the chunk is not one frame: the first FF is the start run, FF
    and 05 are the two samples, 7A fails the stop test and nothing is
    published. *)
Lemma nominal_chunk_seven_bits :
  _nflags (start None 7 2 false) = 1
  /\ exists s',
       callback nominal_chunk (start None 7 2 false) = Some (s', 0)
       /\ _sweep_valid s' = false
       /\ sweep s' = {[0 := 127]}.
Proof. split; [reflexivity|]. eexists. split; [run|]. conjs; run. Qed.

(** C2 (amended): with [sample_bits = 8], [sweep_len = 2] and real mode
    ([sample_bytes = 1], [nflags = 2]) the single chunk FF FF 05 7A 8F 8F
    publishes one sweep: slot position 0 holds 5, the last sample 122 is
    held back in [_last_sample] while the stop run is incomplete, and
    [_sweep_valid] becomes true when the stop run completes. *)
Theorem nominal_chunk_publishes :
  _sample_bytes (start None 8 2 false) = 1
  /\ _nflags (start None 8 2 false) = 2
  /\ (exists s1,
        callback (take 5 nominal_chunk) (start None 8 2 false) = Some (s1, 0)
        /\ _sweep_valid s1 = false
        /\ sweep s1 !! 0 = Some 5
        /\ _last_sample s1 = 122)
  /\ (exists s',
        callback nominal_chunk (start None 8 2 false) = Some (s', 0)
        /\ _sweep_valid s' = true
        /\ sweep s' !! 0 = Some 5
        /\ _last_sample s' = 122
        /\ (_start_flags s', _stop_flags s', _sweep_idx s', _byte_idx s') = (0, 0, 0, 0)).
Proof.
  split; [reflexivity|]. split; [reflexivity|].
  split; eexists; (split; [run|]); conjs; run.
Qed.

(** C3 (the code departs from it): the nominal chunk is one valid frame
    and publishes when fed whole.  In every configuration, a start run
    that arrives as a chunk of its own is followed by no publication,
    whatever chunks come after it.  The nominal frame cut before its stop
    run publishes nothing and leaves a state that no chunk changes; fed
    one byte at a time it publishes nothing either.  Two frames in one
    chunk publish one sweep only: the rest of the chunk is not parsed. *)
Theorem chunk_split_changes_result :
  frame (start None 8 2 false) [5; 122] = nominal_chunk
  /\ (exists s1, feed [nominal_chunk] (start None 8 2 false) = Some s1
                 /\ _sweep_valid s1 = true)
  /\ (forall sample_bits sweep_len fft rest, exists s2,
        feed (replicate (Z.to_nat (num_flags fft sample_bits)) START_FLAG :: rest)
          (start None sample_bits sweep_len fft) = Some s2
        /\ _sweep_valid s2 = false /\ sweep s2 = ∅)
  /\ (exists s2,
        feed [[0xFF; 0xFF; 0x05; 0x7A]; [0x8F; 0x8F]] (start None 8 2 false) = Some s2
        /\ _sweep_valid s2 = false
        /\ forall rest, feed rest s2 = Some s2)
  /\ (exists s3, feed (map (λ b, [b]) nominal_chunk) (start None 8 2 false) = Some s3
                 /\ _sweep_valid s3 = false /\ sweep s3 = ∅)
  /\ (exists s4 s5 arr,
        feed [nominal_chunk ++ second_chunk] (start None 8 2 false) = Some s4
        /\ fmcw_read_sweep ∅ s4 = Some (s5, arr, TRUE)
        /\ framing s5 = (0, 0, 0, 0, 0, 122)
        /\ fmcw_read_sweep arr s5 = Some (s5, arr, FALSE)).
Proof.
  split; [run|]. split; [eexists; split; run|]. split; [|split; [|split]].
  - intros sample_bits sweep_len fft rest. eexists.
    split; [apply start_run_chunk_stalls|]. split; reflexivity.
  - eexists. split; [run|]. split; [run|].
    intros rest. apply feed_samples_complete; try run; vm_compute; congruence.
  - eexists. split; [run|]. split; run.
  - do 3 eexists. split; [run|]. split; [run|]. split; run.
Qed.

(** C5 (the code departs from it): with a log file open, the six-byte
    nominal chunk leaves five bytes in the log, and a chunk that arrives
    while a sweep is waiting leaves none. *)
Theorem log_misses_bytes :
  exists s1,
    callback nominal_chunk (start (Some 1%N) 8 2 false) = Some (s1, 0)
    /\ log_written s1 = take 5 nominal_chunk
    /\ log_written s1 <> nominal_chunk
    /\ exists s2,
         callback second_chunk s1 = Some (s2, 0)
         /\ log_written s2 = take 5 nominal_chunk.
Proof.
  eexists. split; [run|].
  split; [run|]. split; [vm_compute; discriminate|].
  eexists. split; run.
Qed.

(** C7 (the code departs from it): after the start run and the first byte
    of a two-byte sample the counters are [stop = 0], [sweep_idx = 0],
    [byte_idx = 1].  The triple names the sample phase, the callback takes
    the start-flag branch; the rest of the frame is then dropped with the
    state unchanged, although the same frame fed whole is published. *)
Theorem split_first_sample_resumes_in_start :
  frame (start None 12 2 false) [0x123; 0x456] = wide_head ++ wide_tail
  /\ (exists s, feed [wide_head ++ wide_tail] (start None 12 2 false) = Some s
                /\ _sweep_valid s = true)
  /\ exists s1,
       feed [wide_head] (start None 12 2 false) = Some s1
       /\ (_stop_flags s1, _sweep_idx s1, _byte_idx s1) = (0, 0, 1)
       /\ spec_phase s1 = ReadSamples
       /\ callback_phase s1 = AwaitStart
       /\ callback wide_tail s1 = Some (s1, 0)
       /\ _sweep_valid s1 = false.
Proof.
  split; [run|]. split; [eexists; split; run|].
  eexists. split; [run|]. conjs; run.
Qed.

(** * The parser on arbitrary frames *)

(** Closes the side conditions of a general theorem at a concrete input by
    evaluation. *)
Ltac concrete :=
  repeat match goal with
         | |- _ /\ _ => split
         | |- Forall _ [] => apply Forall_nil
         | |- Forall _ (_ :: _) => apply Forall_cons
         end;
  first [ lia | vm_compute; first [reflexivity | discriminate | lia | easy] ].

(** ** The write queue *)

Lemma add_write_loop_bytes (val nbytes : Z) (fuel : nat) :
  forall (i : Z) (buf : list Z),
    (Z.to_nat (nbytes - i) < fuel)%nat ->
    add_write_loop fuel i val nbytes buf
    = Some (buf ++ map (write_byte val) (seqZ i (nbytes - i))).
Proof.
  induction fuel as [|fuel IH]; intros i buf Hfuel; [lia|].
  cbn [add_write_loop]. destruct (Z.ltb_spec i nbytes).
  - rewrite IH by lia. rewrite (seqZ_cons i (nbytes - i)) by lia.
    cbn [map]. rewrite <- app_assoc. cbn [app].
    replace (Z.succ i) with (i + 1) by lia.
    replace (Z.pred (nbytes - i)) with (nbytes - (i + 1)) by lia.
    reflexivity.
  - rewrite seqZ_nil by lia. cbn. now rewrite app_nil_r.
Qed.

Lemma le_value_write_bytes (val : Z) (k : nat) :
  forall i, 0 <= i ->
    le_value (map (write_byte val) (seqZ i (Z.of_nat k)))
    = Z.shiftr val (8 * i) mod 2 ^ (8 * Z.of_nat k).
Proof.
  induction k as [|k IH]; intros i Hi.
  - cbn. now rewrite Z.mod_1_r.
  - rewrite seqZ_cons by lia. cbn [map le_value].
    replace (Z.pred (Z.of_nat (S k))) with (Z.of_nat k) by lia.
    rewrite IH by lia. unfold write_byte, BYTE_BITS.
    change 255 with (Z.ones 8). rewrite Z.land_ones by lia.
    replace (8 * Z.of_nat (S k)) with (8 + 8 * Z.of_nat k) by lia.
    rewrite Z.pow_add_r by lia.
    rewrite (Z.rem_mul_r _ (2 ^ 8) (2 ^ (8 * Z.of_nat k)))
      by (try apply Z.pow_pos_nonneg; lia).
    replace (8 * Z.succ i) with (8 * i + 8) by lia.
    rewrite <- Z.shiftr_shiftr, (Z.shiftr_div_pow2 _ 8) by lia.
    reflexivity.
Qed.

(** X17: for [1 <= nbytes <= 4], [fmcw_add_write] hands [vector_push]
    exactly [nbytes] bytes, each in [0 .. 255], which are the low [nbytes]
    bytes of [val], least significant first; it returns TRUE exactly when
    [vector_push] reports [nbytes]. *)
Theorem fmcw_add_write_little_endian
    (vector_push : list Z -> list Z -> Z -> list Z * Z)
    (val nbytes : Z) (write_data : list Z) :
  1 <= nbytes <= 4 ->
  exists buf,
    fmcw_add_write vector_push val nbytes write_data
    = Some ((vector_push write_data buf nbytes).1,
            if (vector_push write_data buf nbytes).2 =? nbytes then TRUE else FALSE)
    /\ Z.of_nat (List.length buf) = nbytes
    /\ Forall (λ b, 0 <= b < 256) buf
    /\ le_value buf = val mod 2 ^ (8 * nbytes).
Proof.
  intros Hn. unfold fmcw_add_write.
  rewrite add_write_loop_bytes by lia. cbn [mbind option_bind app].
  rewrite Z.sub_0_r.
  exists (map (write_byte val) (seqZ 0 nbytes)).
  destruct (vector_push _ _ _) as [wd pushed]. cbn [fst snd].
  conjs.
  - destruct (pushed =? nbytes); reflexivity.
  - rewrite length_map, length_seqZ. lia.
  - apply Forall_forall. intros b Hb. apply list_elem_of_fmap in Hb as (i & -> & _).
    unfold write_byte. change 255 with (Z.ones 8). rewrite Z.land_ones by lia.
    apply Z.mod_pos_bound. reflexivity.
  - rewrite <- (Z2Nat.id nbytes) at 1 by lia.
    rewrite le_value_write_bytes by lia.
    rewrite Z.shiftr_0_r, Z2Nat.id by lia. reflexivity.
Qed.

Lemma fmcw_add_write_little_endian_witness :
  exists buf,
    fmcw_add_write push_all 0x12345 2 [7]
    = Some ((push_all [7] buf 2).1, if (push_all [7] buf 2).2 =? 2 then TRUE else FALSE)
    /\ Z.of_nat (List.length buf) = 2
    /\ Forall (λ b, 0 <= b < 256) buf
    /\ le_value buf = 0x12345 mod 2 ^ (8 * 2).
Proof. apply (fmcw_add_write_little_endian push_all 0x12345 2 [7]). lia. Defined.

(** ** Closing and restarting *)

(** X16: [fmcw_close] followed by [fmcw_start_acquisition] leaves the
    counters, the accumulator, the held-back sample and [_sweep_valid] as
    they were, from every state: a frame interrupted by the close is taken
    up in the middle by the new acquisition.  In particular, if a sweep was
    waiting at the close, the first [fmcw_read_sweep] after the restart
    returns TRUE and copies cells of the fresh buffer, to none of which
    anything has been stored. *)
Theorem restart_keeps_parser_state
    (log_path : option N) (sample_bits sweep_len : Z) (fft : bool)
    (arr : gmap Z Z) (s : state) :
  let s' := (fmcw_start_acquisition log_path sample_bits sweep_len fft (fmcw_close s)).1 in
  framing s' = framing s
  /\ _sweep_valid s' = _sweep_valid s
  /\ (_sweep_valid s = true -> 0 <= sweep_len ->
      exists s'' arr',
        fmcw_read_sweep arr s' = Some (s'', arr', TRUE)
        /\ forall i, 0 <= i < sweep_len -> arr' !! i = None).
Proof.
  intros s'.
  assert (Hfields : framing s' = framing s /\ _sweep_valid s' = _sweep_valid s
                    /\ sweep s' = ∅ /\ _sweep_len s' = sweep_len).
  { subst s'. unfold fmcw_start_acquisition. destruct log_path as [fp|]; cbn.
    - destruct (N.ltb_spec fp 0); [lia|]. cbn. now conjs.
    - now conjs. }
  destruct Hfields as (Hf & Hv' & Hsw & Hl).
  split; [exact Hf|]. split; [exact Hv'|].
  intros Hv Hlen.
  destruct (read_sweep_loop_copies (S (Z.to_nat (_sweep_len s'))) 0 s' arr)
    as (arr' & Hcopy & Hget); [lia|].
  exists (set_sweep_valid false s'), arr'. unfold fmcw_read_sweep.
  rewrite Hv', Hv, Hcopy.
  split; [reflexivity|].
  intros i Hi. rewrite Hget, Hl, bool_decide_eq_true_2, Hsw by lia.
  apply lookup_empty.
Qed.

Lemma restart_keeps_parser_state_witness :
  exists s1 s2,
    feed [[0xFF; 0xFF; 0x01; 0x23; 0x0F]] wide_start = Some s1
    /\ framing s1 = (2, 0, 1, 1, 0x0F00, 0)
    /\ framing (fmcw_start_acquisition None 12 3 false (fmcw_close s1)).1 = framing s1
    /\ feed [frame wide_start [0x123; 0xFFD; 0x456]] wide_start = Some s2
    /\ _sweep_valid s2 = true
    /\ exists s'' arr',
         fmcw_read_sweep ∅ (fmcw_start_acquisition None 12 3 false (fmcw_close s2)).1
         = Some (s'', arr', TRUE)
         /\ forall i, 0 <= i < 3 -> arr' !! i = None.
Proof.
  eexists. eexists.
  split; [vm_compute; reflexivity|].
  split; [vm_compute; reflexivity|].
  split; [apply (restart_keeps_parser_state None 12 3 false ∅)|].
  split; [vm_compute; reflexivity|].
  split; [reflexivity|].
  apply (restart_keeps_parser_state None 12 3 false ∅); [reflexivity | lia].
Defined.

(** ** Segments of a chunk *)

Lemma occurs_at_cons (buffer : list Z) (r x : Z) (xs : list Z) :
  0 <= r -> occurs_at buffer r (x :: xs) ->
  byte_at buffer r = x /\ occurs_at buffer (r + 1) xs.
Proof.
  intros Hr H. split.
  - unfold byte_at. specialize (H 0%nat x eq_refl).
    rewrite Nat.add_0_r in H. now rewrite H.
  - intros j y Hy. specialize (H (S j) y Hy).
    replace (Z.to_nat (r + 1) + j)%nat with (Z.to_nat r + S j)%nat by lia. exact H.
Qed.

Lemma occurs_at_app (buffer : list Z) (r : Z) (xs ys : list Z) :
  0 <= r -> occurs_at buffer r (xs ++ ys) ->
  occurs_at buffer r xs /\ occurs_at buffer (r + Z.of_nat (List.length xs)) ys.
Proof.
  intros Hr H. split.
  - intros j x Hx. apply H. now apply lookup_app_l_Some.
  - intros j y Hy.
    replace (Z.to_nat (r + Z.of_nat (List.length xs)) + j)%nat
      with (Z.to_nat r + (List.length xs + j))%nat by lia.
    apply H. rewrite lookup_app_r by lia.
    now replace (List.length xs + j - List.length xs)%nat with j by lia.
Qed.

Lemma occurs_at_middle (pre xs post : list Z) :
  occurs_at (pre ++ xs ++ post) (Z.of_nat (List.length pre)) xs.
Proof.
  intros j x Hx. rewrite Nat2Z.id, lookup_app_r by lia.
  replace (List.length pre + j - List.length pre)%nat with j by lia.
  now apply lookup_app_l_Some.
Qed.

(** ** Assembling and placing a word *)

Lemma accumulate_byte (w k : Z) :
  0 <= k <= 7 ->
  Z.lor (Z.shiftl (Z.shiftr w (8 * (k + 1))) (8 * (k + 1)))
        (wrap_u64 (Z.shiftl (Z.land (Z.shiftr w (8 * k)) 255) (8 * k)))
  = Z.shiftl (Z.shiftr w (8 * k)) (8 * k).
Proof.
  intros Hk.
  assert (Hbyte : 0 <= Z.land (Z.shiftr w (8 * k)) 255 < 2 ^ 8).
  { change 255 with (Z.ones 8). rewrite Z.land_ones by lia. apply Z.mod_pos_bound. reflexivity. }
  assert (Hsmall : 0 <= Z.shiftl (Z.land (Z.shiftr w (8 * k)) 255) (8 * k) < 2 ^ 64).
  { rewrite Z.shiftl_mul_pow2 by lia.
    assert (0 < 2 ^ (8 * k)) by (apply Z.pow_pos_nonneg; lia).
    assert (2 ^ 8 * 2 ^ (8 * k) <= 2 ^ 64).
    { rewrite <- Z.pow_add_r by lia. apply Z.pow_le_mono_r; lia. }
    nia. }
  unfold wrap_u64. rewrite Z.mod_small by exact Hsmall.
  apply Z.bits_inj'. intros n Hn.
  rewrite Z.lor_spec, !Z.shiftl_spec by lia.
  destruct (Z.lt_ge_cases n (8 * k)) as [Hlow|Hhigh].
  - rewrite !Z.testbit_neg_r by lia. reflexivity.
  - rewrite Z.land_spec, (Z.shiftr_spec w (8 * k)) by lia.
    replace (n - 8 * k + 8 * k) with n by lia.
    change 255 with (Z.ones 8). rewrite Z.testbit_ones_nonneg by lia.
    destruct (Z.lt_ge_cases n (8 * (k + 1))) as [Hin|Hout].
    + rewrite (Z.testbit_neg_r _ (n - 8 * (k + 1))) by lia.
      destruct (Z.ltb_spec (n - 8 * k) 8); [|lia].
      now rewrite andb_true_r.
    + rewrite Z.shiftr_spec by lia.
      replace (n - 8 * (k + 1) + 8 * (k + 1)) with n by lia.
      destruct (Z.ltb_spec (n - 8 * k) 8); [lia|].
      now rewrite andb_false_r, orb_false_r.
Qed.

Lemma be_bytes_length (n : nat) (w : Z) : List.length (be_bytes n w) = n.
Proof. induction n as [|n IH]; cbn; [reflexivity | now rewrite IH]. Qed.

Lemma place_word_rel (s : state) (w : Z) :
  0 <= _sweep_idx s < _sweep_len s ->
  samples_rel s (place_word s w)
  /\ _sweep_idx (place_word s w) = _sweep_idx s + 1
  /\ _byte_idx (place_word s w) = 0
  /\ _uval (place_word s w) = 0
  /\ (_sweep_idx s < _sweep_len s - 1 ->
      sweep (place_word s w) !! _sweep_idx s
      = Some (sample_val (_sample_bits s) (_fft s) w))
  /\ (_sweep_len s - 1 <= _sweep_idx s ->
      _last_sample (place_word s w) = sample_val (_sample_bits s) (_fft s) w).
Proof.
  intros Hidx. unfold place_word.
  destruct (read_sample_seq_place_rel (set_uval w (set_byte_idx (_sample_bytes s) s)))
    as [Hrel Hnext]; [exact Hidx|].
  split; [exact Hrel|]. split; [exact Hnext|].
  unfold read_sample_seq_place. cbn.
  destruct (Z.ltb_spec (_sweep_idx s) (_sweep_len s - 1)); cbn.
  - conjs; try reflexivity; [|lia]. intros _. apply lookup_insert_eq.
  - conjs; try reflexivity. lia.
Qed.

(** The state after a run of samples. *)
Lemma place_words_rel (ws : list Z) :
  forall s : state,
    0 <= _sweep_idx s ->
    _sweep_idx s + Z.of_nat (List.length ws) <= _sweep_len s ->
    let s' := fold_left place_word ws s in
    samples_rel s s'
    /\ _sweep_idx s' = _sweep_idx s + Z.of_nat (List.length ws)
    /\ (ws <> [] -> _byte_idx s' = 0 /\ _uval s' = 0)
    /\ (forall (i : nat) (w : Z),
          ws !! i = Some w -> _sweep_idx s + Z.of_nat i < _sweep_len s - 1 ->
          sweep s' !! (_sweep_idx s + Z.of_nat i)
          = Some (sample_val (_sample_bits s) (_fft s) w))
    /\ (forall w, last ws = Some w ->
          _sweep_idx s + Z.of_nat (List.length ws) = _sweep_len s ->
          _last_sample s' = sample_val (_sample_bits s) (_fft s) w).
Proof.
  induction ws as [|w ws IH]; intros s Hidx Hlen; cbn zeta.
  - cbn. conjs; try lia; try discriminate; try contradiction.
    apply samples_rel_refl.
  - cbn [fold_left List.length] in *.
    destruct (place_word_rel s w) as (Hrel & Hnext & Hb & Hu & Hcell & Hlast); [lia|].
    pose proof Hrel as (Hc & _ & _ & _ & _ & _ & Hout).
    assert (Hcfg : _sweep_len (place_word s w) = _sweep_len s
                   /\ _sample_bits (place_word s w) = _sample_bits s
                   /\ _fft (place_word s w) = _fft s).
    { unfold config_of in Hc. conjs; congruence. }
    destruct Hcfg as (Hl1 & Hsb1 & Hfft1).
    destruct (IH (place_word s w)) as (Hrel' & Hidx' & Hzero' & Hcells' & Hlast');
      [lia | lia |].
    rewrite Hsb1, Hfft1, Hl1, Hnext in *.
    conjs.
    + apply (samples_rel_trans s (place_word s w)); [lia | exact Hrel | exact Hrel'].
    + lia.
    + intros _. destruct ws as [|w' ws']; [cbn; now split|].
      apply Hzero'. discriminate.
    + intros [|i] x Hx Hi.
      * cbn in Hx. injection Hx as <-. rewrite Z.add_0_r in *.
        destruct Hrel' as (_ & _ & _ & _ & _ & _ & Hout').
        unfold stores_within in Hout'. rewrite Hout' by (rewrite Hnext; lia).
        apply Hcell. lia.
      * cbn in Hx. specialize (Hcells' i x Hx).
        replace (_sweep_idx s + Z.of_nat (S i)) with (_sweep_idx s + 1 + Z.of_nat i) by lia.
        apply Hcells'. lia.
    + intros x Hx Hfull. destruct ws as [|w' ws'].
      * cbn in Hx. injection Hx as <-. cbn. apply Hlast. cbn in Hfull. lia.
      * apply Hlast'; [exact Hx | lia].
Qed.

(** ** Runs of the three loops inside a chunk *)

Section Runs.

Variable buffer : list Z.
Variable length : Z.

Lemma inc_check_idx_inside (r : Z) :
  r + 1 < length -> inc_check_idx r length = r + 1.
Proof.
  intros H. unfold inc_check_idx.
  destruct (Z.eqb_spec (r + 1) length); [lia | reflexivity].
Qed.

Lemma read_start_seq_loop_S (fuel : nat) (r : Z) (s : state) :
  read_start_seq_loop (S fuel) buffer length r s
  = if _start_flags s <? _nflags s then
      let s := if byte_at buffer r =? START_FLAG
               then set_start_flags (_start_flags s + 1) s
               else set_start_flags 0 s in
      let read_idx := inc_check_idx r length in
      if read_idx =? 0 then Some (s, FALSE)
      else read_start_seq_loop fuel buffer length read_idx s
    else Some (s, r).
Proof. reflexivity. Qed.

(** Bytes other than the start flag keep the start counter at zero. *)
Lemma read_start_seq_loop_noise (xs : list Z) :
  forall (fuel : nat) (r : Z) (s : state),
    Forall (λ b, b <> START_FLAG) xs ->
    _start_flags s = 0 -> 0 < _nflags s ->
    0 <= r -> r + Z.of_nat (List.length xs) < length ->
    occurs_at buffer r xs ->
    read_start_seq_loop (List.length xs + fuel) buffer length r s
    = read_start_seq_loop fuel buffer length (r + Z.of_nat (List.length xs)) s.
Proof.
  induction xs as [|x xs IH]; intros fuel r s Hxs Hs Hn Hr Hlen Hocc.
  - cbn. now rewrite Z.add_0_r.
  - apply Forall_cons in Hxs as [Hx Hxs].
    apply occurs_at_cons in Hocc as [Hb Hocc]; [|exact Hr].
    cbn [List.length Nat.add]. rewrite read_start_seq_loop_S.
    rewrite Hs. destruct (Z.ltb_spec 0 (_nflags s)); [|lia].
    rewrite Hb. destruct (Z.eqb_spec x START_FLAG); [contradiction|]. cbv zeta.
    rewrite inc_check_idx_inside by (cbn [List.length] in Hlen; lia).
    destruct (Z.eqb_spec (r + 1) 0); [lia|].
    replace (set_start_flags 0 s) with s by (destruct s; cbn in Hs; subst; reflexivity).
    rewrite IH; try assumption; try (cbn [List.length] in Hlen; lia).
    f_equal. cbn [List.length]. lia.
Qed.

(** A run of start flags that completes the count. *)
Lemma read_start_seq_loop_flags (k : nat) :
  forall (fuel : nat) (r : Z) (s : state),
    0 <= _start_flags s -> _start_flags s + Z.of_nat k = _nflags s ->
    0 <= r -> r + Z.of_nat k < length ->
    occurs_at buffer r (replicate k START_FLAG) ->
    read_start_seq_loop (S (k + fuel)) buffer length r s
    = Some (set_start_flags (_nflags s) s, r + Z.of_nat k).
Proof.
  induction k as [|k IH]; intros fuel r s Hs Hn Hr Hlen Hocc.
  - rewrite read_start_seq_loop_S.
    destruct (Z.ltb_spec (_start_flags s) (_nflags s)); [lia|].
    rewrite Z.add_0_r. f_equal. f_equal.
    assert (Heq : _start_flags s = _nflags s) by lia. clear - Heq.
    destruct s; cbn in Heq; subst; reflexivity.
  - cbn [replicate] in Hocc. apply occurs_at_cons in Hocc as [Hb Hocc]; [|exact Hr].
    cbn [Nat.add]. rewrite read_start_seq_loop_S.
    destruct (Z.ltb_spec (_start_flags s) (_nflags s)); [|lia].
    rewrite Hb, Z.eqb_refl. cbv zeta.
    rewrite inc_check_idx_inside by lia.
    destruct (Z.eqb_spec (r + 1) 0); [lia|].
    rewrite IH; try assumption; cbn; try lia.
    f_equal. f_equal. lia.
Qed.

Lemma read_sample_bytes_loop_S (fuel : nat) (r : Z) (s : state) :
  read_sample_bytes_loop (S fuel) buffer length r s
  = if _byte_idx s <? _sample_bytes s then
      let sh := BYTE_BITS * (_sample_bytes s - 1 - _byte_idx s) in
      let s := set_byte_idx (_byte_idx s + 1) s in
      let s := set_uval (Z.lor (_uval s) (wrap_u64 (Z.shiftl (byte_at buffer r) sh))) s in
      let read_idx := inc_check_idx r length in
      if read_idx =? 0 then Some (Return s FALSE)
      else read_sample_bytes_loop fuel buffer length read_idx s
    else Some (Next s r).
Proof. reflexivity. Qed.

(** The bytes of one word, most significant first, assemble the word. *)
Lemma read_sample_bytes_loop_word (k : nat) :
  forall (fuel : nat) (r : Z) (s : state) (w : Z),
    0 <= _byte_idx s ->
    _byte_idx s + Z.of_nat k = _sample_bytes s -> _sample_bytes s <= 8 ->
    _uval s = Z.shiftl (Z.shiftr w (8 * Z.of_nat k)) (8 * Z.of_nat k) ->
    0 <= r -> r + Z.of_nat k < length ->
    occurs_at buffer r (be_bytes k w) ->
    read_sample_bytes_loop (S (k + fuel)) buffer length r s
    = Some (Next (set_uval w (set_byte_idx (_sample_bytes s) s)) (r + Z.of_nat k)).
Proof.
  induction k as [|k IH]; intros fuel r s w Hb0 Hb HB Hu Hr Hlen Hocc.
  - rewrite read_sample_bytes_loop_S.
    destruct (Z.ltb_spec (_byte_idx s) (_sample_bytes s)); [lia|].
    rewrite Z.add_0_r. do 2 f_equal.
    assert (Hb' : _byte_idx s = _sample_bytes s) by lia.
    cbn in Hu. rewrite Z.shiftr_0_r, Z.shiftl_0_r in Hu. clear - Hb' Hu.
    destruct s; cbn in *; subst; reflexivity.
  - cbn [be_bytes] in Hocc. apply occurs_at_cons in Hocc as [Hbyte Hocc]; [|exact Hr].
    cbn [Nat.add]. rewrite read_sample_bytes_loop_S.
    destruct (Z.ltb_spec (_byte_idx s) (_sample_bytes s)); [|lia].
    cbv zeta. rewrite inc_check_idx_inside by lia.
    destruct (Z.eqb_spec (r + 1) 0); [lia|].
    rewrite (IH _ _ _ w); cbn; try assumption; try lia.
    + do 2 f_equal. lia.
    + rewrite Hbyte, Hu. unfold BYTE_BITS.
      replace (_sample_bytes s - 1 - _byte_idx s) with (Z.of_nat k) by lia.
      replace (8 * Z.of_nat (S k)) with (8 * (Z.of_nat k + 1)) by lia.
      apply accumulate_byte. lia.
Qed.

Lemma read_sample_seq_loop_S (fuel : nat) (r : Z) (s : state) :
  read_sample_seq_loop (S fuel) buffer length r s
  = if _sweep_idx s <? _sweep_len s then
      match read_sample_bytes_loop (S (List.length buffer)) buffer length r s with
      | None => None
      | Some (Return s ret) => Some (s, ret)
      | Some (Next s read_idx) =>
          read_sample_seq_loop fuel buffer length read_idx (read_sample_seq_place s)
      end
    else Some (s, r).
Proof. reflexivity. Qed.

Lemma read_stop_seq_loop_S (fuel : nat) (r : Z) (s : state) :
  read_stop_seq_loop (S fuel) buffer length r s
  = if _stop_flags s <? _nflags s then
      if byte_at buffer r =? STOP_FLAG then
        let s := set_stop_flags (_stop_flags s + 1) s in
        if _stop_flags s <? _nflags s then
          let read_idx := inc_check_idx r length in
          if read_idx =? 0 then Some (s, FALSE)
          else read_stop_seq_loop fuel buffer length read_idx s
        else read_stop_seq_loop fuel buffer length r s
      else
        let read_idx := inc_check_idx r length in
        Some (read_stop_seq_cleanup s read_idx)
    else Some (read_stop_seq_commit s r).
Proof. reflexivity. Qed.

(** A run of stop flags that completes the count: the commit, with the
    read index left on the last flag. *)
Lemma read_stop_seq_loop_flags (k : nat) :
  forall (fuel : nat) (r : Z) (s : state),
    0 <= _stop_flags s -> _stop_flags s + Z.of_nat (S k) = _nflags s ->
    0 <= r -> r + Z.of_nat (S k) <= length ->
    occurs_at buffer r (replicate (S k) STOP_FLAG) ->
    read_stop_seq_loop (S (S (k + fuel))) buffer length r s
    = Some (read_stop_seq_commit s (r + Z.of_nat k)).
Proof.
  induction k as [|k IH]; intros fuel r s Hs Hn Hr Hlen Hocc;
    cbn [replicate] in Hocc; apply occurs_at_cons in Hocc as [Hb Hocc]; try exact Hr;
    cbn [Nat.add]; rewrite read_stop_seq_loop_S;
    (destruct (Z.ltb_spec (_stop_flags s) (_nflags s)); [|lia]);
    rewrite Hb, Z.eqb_refl; cbv zeta; cbn [_stop_flags _nflags set_stop_flags].
  - destruct (Z.ltb_spec (_stop_flags s + 1) (_nflags s)); [lia|].
    rewrite read_stop_seq_loop_S. cbn [_stop_flags _nflags set_stop_flags].
    destruct (Z.ltb_spec (_stop_flags s + 1) (_nflags s)); [lia|].
    rewrite Z.add_0_r. reflexivity.
  - destruct (Z.ltb_spec (_stop_flags s + 1) (_nflags s)); [|lia].
    rewrite inc_check_idx_inside by lia.
    destruct (Z.eqb_spec (r + 1) 0); [lia|].
    rewrite IH; cbn [_stop_flags _nflags set_stop_flags]; try assumption; try lia.
    replace (r + 1 + Z.of_nat k) with (r + Z.of_nat (S k)) by lia. reflexivity.
Qed.

(** Stop flags short of the count, then another byte: the sweep is
    dropped and the read index moves past that byte. *)
Lemma read_stop_seq_loop_bad (k : nat) :
  forall (fuel : nat) (r : Z) (s : state) (b : Z),
    0 <= _stop_flags s -> _stop_flags s + Z.of_nat k < _nflags s ->
    b <> STOP_FLAG ->
    0 <= r -> r + Z.of_nat k < length ->
    occurs_at buffer r (replicate k STOP_FLAG ++ [b]) ->
    read_stop_seq_loop (S (k + fuel)) buffer length r s
    = Some (read_stop_seq_cleanup s (inc_check_idx (r + Z.of_nat k) length)).
Proof.
  induction k as [|k IH]; intros fuel r s b Hs Hn Hbad Hr Hlen Hocc;
    cbn [replicate app] in Hocc; apply occurs_at_cons in Hocc as [Hb Hocc]; try exact Hr;
    cbn [Nat.add]; rewrite read_stop_seq_loop_S;
    (destruct (Z.ltb_spec (_stop_flags s) (_nflags s)); [|lia]);
    rewrite Hb.
  - destruct (Z.eqb_spec b STOP_FLAG); [contradiction|].
    cbv zeta. rewrite Z.add_0_r. reflexivity.
  - rewrite Z.eqb_refl. cbv zeta. cbn [_stop_flags _nflags set_stop_flags].
    destruct (Z.ltb_spec (_stop_flags s + 1) (_nflags s)); [|lia].
    rewrite inc_check_idx_inside by lia.
    destruct (Z.eqb_spec (r + 1) 0); [lia|].
    rewrite (IH _ _ _ b); cbn [_stop_flags _nflags set_stop_flags]; try assumption; try lia.
    replace (r + 1 + Z.of_nat k) with (r + Z.of_nat (S k)) by lia. reflexivity.
Qed.

Hypothesis length_buffer : length = Z.of_nat (List.length buffer).

(** A run of whole samples that fills the sweep. *)
Lemma read_sample_seq_loop_words (ws : list Z) :
  forall (fuel : nat) (r : Z) (s : state),
    _byte_idx s = 0 -> _uval s = 0 -> 1 <= _sample_bytes s <= 8 ->
    0 <= _sweep_idx s ->
    _sweep_idx s + Z.of_nat (List.length ws) = _sweep_len s ->
    Forall (λ w, 0 <= w < 2 ^ (8 * _sample_bytes s)) ws ->
    0 <= r -> r + _sample_bytes s * Z.of_nat (List.length ws) < length ->
    occurs_at buffer r (concat (map (be_bytes (Z.to_nat (_sample_bytes s))) ws)) ->
    read_sample_seq_loop (S (List.length ws + fuel)) buffer length r s
    = Some (fold_left place_word ws s,
            r + _sample_bytes s * Z.of_nat (List.length ws)).
Proof.
  induction ws as [|w ws IH]; intros fuel r s Hb Hu HB Hidx Hfull Hws Hr Hlen Hocc.
  - rewrite read_sample_seq_loop_S. cbn [List.length] in *.
    destruct (Z.ltb_spec (_sweep_idx s) (_sweep_len s)); [lia|].
    cbn. do 2 f_equal. lia.
  - cbn [List.length map concat] in *.
    apply Forall_cons in Hws as [Hw Hws].
    apply occurs_at_app in Hocc as [Hocc1 Hocc2]; [|exact Hr].
    rewrite be_bytes_length in Hocc2.
    cbn [Nat.add]. rewrite read_sample_seq_loop_S.
    destruct (Z.ltb_spec (_sweep_idx s) (_sweep_len s)); [|lia].
    set (k := Z.to_nat (_sample_bytes s)) in *.
    replace (S (List.length buffer))
      with (S (k + (List.length buffer - k)))%nat by (subst k; nia).
    assert (Hinner : read_sample_bytes_loop (S (k + (List.length buffer - k)))
                       buffer length r s
                     = Some (Next (set_uval w (set_byte_idx (_sample_bytes s) s))
                               (r + Z.of_nat k))).
    { apply read_sample_bytes_loop_word; try lia; try assumption.
      rewrite Hu. subst k. rewrite Z2Nat.id by lia.
      rewrite Z.shiftr_div_pow2, Z.div_small by lia. now rewrite Z.shiftl_0_l. }
    rewrite Hinner. fold (place_word s w).
    destruct (place_word_rel s w) as (Hrel & Hnext & Hb1 & Hu1 & _); [lia|].
    pose proof Hrel as (Hc & _).
    assert (Hcfg : _sweep_len (place_word s w) = _sweep_len s
                   /\ _sample_bytes (place_word s w) = _sample_bytes s).
    { unfold config_of in Hc. conjs; congruence. }
    destruct Hcfg as (Hl1 & HB1).
    rewrite IH; rewrite ?HB1, ?Hl1, ?Hnext; try assumption; try lia.
    cbn [fold_left]. do 2 f_equal. subst k. nia.
Qed.

End Runs.

(** ** One whole frame in a chunk *)

Lemma concat_be_bytes_length (k : nat) (ws : list Z) :
  List.length (concat (map (be_bytes k) ws)) = (k * List.length ws)%nat.
Proof.
  induction ws as [|w ws IH]; cbn [map concat List.length]; [lia|].
  rewrite length_app, be_bytes_length, IH. lia.
Qed.

(** A chunk that holds noise, a start run and a sweep of samples, with
    more bytes behind: the parser reaches the stop test on the first byte
    after the samples. *)
Lemma callback_parse_samples (s : state) (pre ws tail : list Z) :
  _start_flags s = 0 -> _stop_flags s = 0 -> _sweep_idx s = 0 ->
  _byte_idx s = 0 -> _uval s = 0 ->
  1 <= _nflags s -> 1 <= _sample_bytes s <= 8 ->
  Z.of_nat (List.length ws) = _sweep_len s ->
  Forall (λ b, b <> START_FLAG) pre ->
  Forall (λ w, 0 <= w < 2 ^ (8 * _sample_bytes s)) ws ->
  tail <> [] ->
  let buffer := pre ++ replicate (Z.to_nat (_nflags s)) START_FLAG
                ++ concat (map (be_bytes (Z.to_nat (_sample_bytes s))) ws) ++ tail in
  let r := Z.of_nat (List.length pre) + _nflags s + _sample_bytes s * _sweep_len s in
  callback_parse buffer (Z.of_nat (List.length buffer)) s
  = read_stop_seq buffer (Z.of_nat (List.length buffer)) r
      (fold_left place_word ws (set_start_flags (_nflags s) s))
  /\ occurs_at buffer r tail.
Proof.
  intros Hstart Hstop Hidx Hbyte Huval Hn HB Hlen Hpre Hws Htail buffer r.
  set (n := Z.to_nat (_nflags s)) in *.
  set (k := Z.to_nat (_sample_bytes s)) in *.
  set (F := replicate n START_FLAG) in *.
  set (W := concat (map (be_bytes k) ws)) in *.
  assert (HlenF : List.length F = n) by apply length_replicate.
  assert (HlenW : List.length W = (k * List.length ws)%nat) by apply concat_be_bytes_length.
  assert (Htl : (1 <= List.length tail)%nat) by (destruct tail; [contradiction | cbn; lia]).
  assert (Hlenb : List.length buffer
                  = (List.length pre + n + k * List.length ws + List.length tail)%nat).
  { subst buffer. rewrite !length_app, HlenF, HlenW. lia. }
  assert (O1 : occurs_at buffer 0 pre).
  { subst buffer. apply (occurs_at_middle [] pre). }
  assert (O2 : occurs_at buffer (Z.of_nat (List.length pre)) F).
  { subst buffer. apply occurs_at_middle. }
  assert (O3 : occurs_at buffer (Z.of_nat (List.length pre) + Z.of_nat n) W).
  { subst buffer. rewrite (app_assoc pre F), <- Nat2Z.inj_add, <- HlenF, <- length_app.
    apply occurs_at_middle. }
  assert (Hnz : Z.of_nat n = _nflags s) by (subst n; lia).
  assert (Hkz : Z.of_nat k = _sample_bytes s) by (subst k; lia).
  assert (O4 : occurs_at buffer r tail).
  { subst buffer r. rewrite (app_assoc pre F), (app_assoc (pre ++ F) W).
    replace (Z.of_nat (List.length pre) + _nflags s + _sample_bytes s * _sweep_len s)
      with (Z.of_nat (List.length ((pre ++ F) ++ W)))
      by (rewrite !length_app, HlenF, HlenW; nia).
    rewrite <- (app_nil_r tail) at 1. apply occurs_at_middle. }
  split; [|exact O4].
  clearbody buffer.
  set (length := Z.of_nat (List.length buffer)).
  unfold callback_parse, callback_phase. rewrite Hstop, Hidx. cbn [Z.eqb negb].
  (* the start run *)
  unfold read_start_seq.
  replace (S (List.length buffer))
    with (List.length pre + S (n + (k * List.length ws + List.length tail)))%nat by lia.
  rewrite (read_start_seq_loop_noise buffer length pre); try assumption; try lia.
  rewrite (read_start_seq_loop_flags buffer length n); try assumption; try lia.
  cbn [mbind option_bind].
  destruct (Z.eqb_spec (0 + Z.of_nat (List.length pre) + Z.of_nat n) 0); [lia|].
  (* the samples *)
  set (s1 := set_start_flags (_nflags s) s).
  unfold read_sample_seq.
  replace (S (Z.to_nat (_sweep_len s1 - _sweep_idx s1)))
    with (S (List.length ws + 0)) by (subst s1; cbn; lia).
  rewrite (read_sample_seq_loop_words buffer length eq_refl ws);
    try assumption; subst s1; cbn [_byte_idx _uval _sample_bytes _sweep_idx _sweep_len
                                     set_start_flags]; try lia; try assumption.
  cbn [mbind option_bind].
  destruct (Z.eqb_spec (0 + Z.of_nat (List.length pre) + Z.of_nat n
                        + _sample_bytes s * Z.of_nat (List.length ws)) 0); [nia|].
  f_equal. subst r. nia.
Qed.

Lemma callback_parse_frame (s : state) (pre ws post : list Z) :
  _start_flags s = 0 -> _stop_flags s = 0 -> _sweep_idx s = 0 ->
  _byte_idx s = 0 -> _uval s = 0 ->
  1 <= _nflags s -> 1 <= _sample_bytes s <= 8 ->
  Z.of_nat (List.length ws) = _sweep_len s ->
  Forall (λ b, b <> START_FLAG) pre ->
  Forall (λ w, 0 <= w < 2 ^ (8 * _sample_bytes s)) ws ->
  let buffer := pre ++ frame s ws ++ post in
  callback_parse buffer (Z.of_nat (List.length buffer)) s
  = Some (after_frame s ws,
          Z.of_nat (List.length pre) + 2 * _nflags s
          + _sample_bytes s * _sweep_len s - 1).
Proof.
  intros Hstart Hstop Hidx Hbyte Huval Hn HB Hlen Hpre Hws buffer.
  set (n := Z.to_nat (_nflags s)).
  assert (Hbuf : buffer
                 = pre ++ replicate n START_FLAG
                   ++ concat (map (be_bytes (Z.to_nat (_sample_bytes s))) ws)
                   ++ (replicate n STOP_FLAG ++ post)).
  { subst buffer. unfold frame. fold n. now rewrite <- !app_assoc. }
  destruct (callback_parse_samples s pre ws (replicate n STOP_FLAG ++ post))
    as [Hrun Hocc]; try assumption.
  { replace n with (S (n - 1)) by lia. discriminate. }
  fold n in Hrun, Hocc. rewrite <- Hbuf in Hrun, Hocc. rewrite Hrun.
  set (s1 := set_start_flags (_nflags s) s).
  set (s2 := fold_left place_word ws s1).
  destruct (place_words_rel ws s1) as (Hrel & Hidx2 & _); [cbn; lia | cbn; lia |].
  fold s2 in Hrel, Hidx2.
  destruct Hrel as (Hc & _ & Hstop2 & _).
  assert (Hn2 : _nflags s2 = _nflags s) by (unfold config_of in Hc; cbn in Hc; congruence).
  cbn in Hstop2.
  apply occurs_at_app in Hocc as [Hocc _]; [|nia].
  assert (Hlenb : Z.of_nat (List.length buffer)
                  = Z.of_nat (List.length pre) + 2 * _nflags s
                    + _sample_bytes s * _sweep_len s + Z.of_nat (List.length post)).
  { rewrite Hbuf, !length_app, !length_replicate, concat_be_bytes_length. nia. }
  assert (Hge : (n <= List.length buffer)%nat).
  { rewrite Hbuf, !length_app, !length_replicate. lia. }
  unfold read_stop_seq.
  replace (S (S (List.length buffer)))
    with (S (S ((n - 1) + (List.length buffer - (n - 1)))))%nat by lia.
  rewrite (read_stop_seq_loop_flags buffer _ (n - 1)); try lia.
  - unfold after_frame. fold s1 s2. unfold read_stop_seq_commit, read_stop_seq_cleanup.
    cbn [fst]. f_equal. f_equal. nia.
  - nia.
  - replace (S (n - 1)) with n by lia. exact Hocc.
Qed.

Lemma after_frame_spec (s : state) (ws : list Z) :
  _sweep_idx s = 0 -> _byte_idx s = 0 -> _uval s = 0 ->
  Z.of_nat (List.length ws) = _sweep_len s ->
  let s' := after_frame s ws in
  _sweep_valid s' = true
  /\ config_of s' = config_of s
  /\ log_written s' = log_written s
  /\ (_start_flags s', _stop_flags s', _sweep_idx s', _byte_idx s', _uval s') = (0, 0, 0, 0, 0)
  /\ (forall (i : nat) (w : Z),
        ws !! i = Some w -> Z.of_nat i < _sweep_len s - 1 ->
        sweep s' !! Z.of_nat i = Some (sample_val (_sample_bits s) (_fft s) w))
  /\ (forall w, last ws = Some w ->
        _last_sample s' = sample_val (_sample_bits s) (_fft s) w
        /\ sweep s' !! _sweep_len s = Some (sample_val (_sample_bits s) (_fft s) w))
  /\ (forall i, ~ (0 <= i < _sweep_len s - 1) -> i <> _sweep_len s ->
        sweep s' !! i = sweep s !! i).
Proof.
  intros Hidx Hbyte Huval Hlen s'.
  set (s1 := set_start_flags (_nflags s) s).
  destruct (place_words_rel ws s1) as (Hrel & Hidx2 & Hzero & Hcells & Hlast);
    [cbn; lia | cbn; lia |].
  set (s2 := fold_left place_word ws s1) in *.
  destruct Hrel as (Hc & _ & _ & _ & Hlog & _ & Hout).
  cbn [_sweep_idx _sweep_len _sample_bits _fft set_start_flags s1] in *.
  rewrite Hidx in *.
  assert (Hzero2 : _byte_idx s2 = 0 /\ _uval s2 = 0).
  { destruct ws as [|w ws']; [subst s2; cbn; now split|]. apply Hzero. discriminate. }
  destruct Hzero2 as [Hb2 Hu2].
  subst s'. unfold after_frame. fold s1 s2.
  unfold read_stop_seq_commit, read_stop_seq_cleanup. cbn.
  conjs.
  - reflexivity.
  - exact Hc.
  - exact Hlog.
  - rewrite Hb2, Hu2. reflexivity.
  - intros i w Hw Hi. rewrite Hidx2, lookup_insert_ne by lia.
    specialize (Hcells i w Hw). rewrite Z.add_0_l in Hcells. apply Hcells. lia.
  - intros w Hw. rewrite (Hlast w) by (assumption || lia). split; [reflexivity|].
    rewrite Hidx2, Z.add_0_l, Hlen. apply lookup_insert_eq.
  - intros i Hi Hne. rewrite Hidx2, lookup_insert_ne by lia.
    unfold stores_within in Hout. cbn in Hout. apply Hout. lia.
Qed.

Lemma frame_length (s : state) (ws : list Z) :
  1 <= _nflags s -> 1 <= _sample_bytes s ->
  Z.of_nat (List.length (frame s ws))
  = 2 * _nflags s + _sample_bytes s * Z.of_nat (List.length ws).
Proof.
  intros Hn HB. unfold frame.
  rewrite !length_app, !length_replicate, concat_be_bytes_length. nia.
Qed.

Lemma callback_frame_result (s : state) (pre ws post : list Z) :
  at_rest s ->
  1 <= _nflags s -> 1 <= _sample_bytes s <= 8 ->
  Z.of_nat (List.length ws) = _sweep_len s ->
  Forall (λ b, b <> START_FLAG) pre ->
  Forall (λ w, 0 <= w < 2 ^ (8 * _sample_bytes s)) ws ->
  let buffer := pre ++ frame s ws ++ post in
  callback buffer s
  = Some (callback_log buffer (Z.of_nat (List.length buffer))
            (Z.of_nat (List.length pre) + 2 * _nflags s
             + _sample_bytes s * _sweep_len s - 1)
            (after_frame s ws), 0).
Proof.
  intros (Hc & Hv & Hstart & Hstop & Hidx & Hbyte & Huval) Hn HB Hlen Hpre Hws buffer.
  unfold callback. rewrite Hc, Hv.
  assert (Hpos : 0 < Z.of_nat (List.length buffer)).
  { subst buffer. rewrite !length_app, !Nat2Z.inj_add, frame_length by lia. nia. }
  destruct (Z.eqb_spec (Z.of_nat (List.length buffer)) 0); [lia|]. cbn [orb].
  subst buffer. rewrite callback_parse_frame by assumption. reflexivity.
Qed.

Lemma after_frame_published (s : state) (ws : list Z) (m : list Z) :
  _sweep_idx s = 0 -> _byte_idx s = 0 -> _uval s = 0 ->
  Z.of_nat (List.length ws) = _sweep_len s ->
  published s ws (set_log_written m (after_frame s ws)).
Proof.
  intros Hidx Hbyte Huval Hlen.
  destruct (after_frame_spec s ws Hidx Hbyte Huval Hlen)
    as (Hv & Hc & _ & Hcnt & Hcells & Hlast & Hout).
  unfold published. conjs; assumption.
Qed.

(** X5: a chunk that holds one whole frame is parsed into one published
    sweep.  From a parser at rest, at a width where [sample_val] stands for
    the source ([decoder_exact]), for any bytes before the frame that are
    not start flags and any bytes after it, [callback] returns 0 with
    [_sweep_valid] set, the counters back at zero, the decoded samples but
    the last in cells [0 .. sweep_len-2], the last one in [_last_sample]
    and in cell [sweep_len], and every other cell as before. *)
Theorem callback_whole_frame (s : state) (pre ws post : list Z) :
  at_rest s ->
  decoder_exact (_fft s) (_sample_bits s) ->
  1 <= _nflags s -> 1 <= _sample_bytes s <= 8 ->
  Z.of_nat (List.length ws) = _sweep_len s ->
  Forall (λ b, b <> START_FLAG) pre ->
  Forall (λ w, 0 <= w < 2 ^ (8 * _sample_bytes s)) ws ->
  exists s',
    callback (pre ++ frame s ws ++ post) s = Some (s', 0)
    /\ published s ws s'.
Proof.
  intros Hrest _ Hn HB Hlen Hpre Hws.
  pose proof (callback_frame_result s pre ws post Hrest Hn HB Hlen Hpre Hws) as Hrun.
  cbv zeta in Hrun.
  destruct Hrest as (_ & _ & _ & _ & Hidx & Hbyte & Huval).
  match type of Hrun with
  | context [callback_log ?b ?l ?r ?x] =>
      destruct (callback_log_frame b l r x) as [m Hlog]
  end.
  rewrite Hlog in Hrun.
  eexists. split; [exact Hrun|].
  now apply after_frame_published.
Qed.

Lemma callback_whole_frame_witness :
  exists s',
    callback ([0x00; 0x8F] ++ frame wide_start [0x123; 0xFFD; 0x456] ++ [0xFF]) wide_start
    = Some (s', 0)
    /\ published wide_start [0x123; 0xFFD; 0x456] s'.
Proof.
  apply (callback_whole_frame wide_start [0x00; 0x8F] [0x123; 0xFFD; 0x456] [0xFF]);
    concrete.
Defined.

(** X6: with a log file open, the same call appends to the log the bytes
    of the chunk up to, and without, the last stop flag of the frame; the
    last stop flag and the bytes after the frame are not logged. *)
Theorem callback_whole_frame_log (s : state) (pre ws post : list Z) :
  at_rest s ->
  1 <= _nflags s -> 1 <= _sample_bytes s <= 8 ->
  Z.of_nat (List.length ws) = _sweep_len s ->
  Forall (λ b, b <> START_FLAG) pre ->
  Forall (λ w, 0 <= w < 2 ^ (8 * _sample_bytes s)) ws ->
  _log_file s <> 0%N ->
  exists s' logged,
    callback (pre ++ frame s ws ++ post) s = Some (s', 0)
    /\ log_written s' = log_written s ++ logged
    /\ logged ++ STOP_FLAG :: post = pre ++ frame s ws ++ post.
Proof.
  intros Hrest Hn HB Hlen Hpre Hws Hfile.
  pose proof (callback_frame_result s pre ws post Hrest Hn HB Hlen Hpre Hws) as Hrun.
  cbv zeta in Hrun.
  destruct Hrest as (_ & _ & _ & _ & Hidx & Hbyte & Huval).
  destruct (after_frame_spec s ws Hidx Hbyte Huval Hlen) as (_ & Hc & Hlogw & _).
  set (n := Z.to_nat (_nflags s)) in *.
  set (head := pre ++ replicate n START_FLAG
               ++ concat (map (be_bytes (Z.to_nat (_sample_bytes s))) ws)
               ++ replicate (n - 1) STOP_FLAG).
  assert (Hsplit : pre ++ frame s ws ++ post = head ++ STOP_FLAG :: post).
  { subst head. unfold frame. fold n.
    replace (replicate n STOP_FLAG) with (replicate (n - 1) STOP_FLAG ++ [STOP_FLAG]).
    - rewrite <- !app_assoc. reflexivity.
    - replace n with (S (n - 1)) at 2 by lia. now rewrite replicate_S_end. }
  assert (Hhead : Z.of_nat (List.length head)
                  = Z.of_nat (List.length pre) + 2 * _nflags s
                    + _sample_bytes s * _sweep_len s - 1).
  { subst head. rewrite !length_app, !length_replicate, concat_be_bytes_length. nia. }
  exists (callback_log (pre ++ frame s ws ++ post)
            (Z.of_nat (List.length (pre ++ frame s ws ++ post)))
            (Z.of_nat (List.length pre) + 2 * _nflags s
             + _sample_bytes s * _sweep_len s - 1) (after_frame s ws)), head.
  split; [exact Hrun|]. split; [|now rewrite Hsplit].
  unfold callback_log.
  assert (Hf : _log_file (after_frame s ws) = _log_file s)
    by (unfold config_of in Hc; congruence).
  rewrite Hf. destruct (N.eqb_spec (_log_file s) 0); [contradiction|]. cbn [negb].
  rewrite <- Hhead.
  destruct (Z.eqb_spec (Z.of_nat (List.length head)) 0) as [Hz|Hz].
  { exfalso. lia. }
  cbn [log_written set_log_written].
  rewrite Hlogw, Nat2Z.id, Hsplit, take_app_length. reflexivity.
Qed.

Lemma callback_whole_frame_log_witness :
  exists s' logged,
    callback ([0x00] ++ frame wide_logged [0x123; 0xFFD; 0x456] ++ [0x01; 0x02]) wide_logged
    = Some (s', 0)
    /\ log_written s' = log_written wide_logged ++ logged
    /\ logged ++ STOP_FLAG :: [0x01; 0x02]
       = [0x00] ++ frame wide_logged [0x123; 0xFFD; 0x456] ++ [0x01; 0x02].
Proof.
  apply (callback_whole_frame_log wide_logged [0x00] [0x123; 0xFFD; 0x456] [0x01; 0x02]);
    concrete.
Defined.

(** ** A broken stop run *)

Lemma at_rest_after_log (buffer : list Z) (length r : Z) (s : state) :
  at_rest s -> at_rest (callback_log buffer length r s).
Proof.
  intros H. destruct (callback_log_frame buffer length r s) as [m ->]. exact H.
Qed.

(** X7: a frame whose stop run is broken is dropped.  When fewer than
    [nflags] stop flags follow the samples and the next byte is not a stop
    flag, [callback] returns 0 with the counters reset and no sweep
    published; the configuration is unchanged. *)
Theorem callback_bad_stop (s : state) (pre ws post : list Z) (j : nat) (b : Z) :
  at_rest s ->
  1 <= _nflags s -> 1 <= _sample_bytes s <= 8 ->
  Z.of_nat (List.length ws) = _sweep_len s ->
  Forall (λ b, b <> START_FLAG) pre ->
  Forall (λ w, 0 <= w < 2 ^ (8 * _sample_bytes s)) ws ->
  Z.of_nat j < _nflags s -> b <> STOP_FLAG ->
  exists s',
    callback (pre ++ replicate (Z.to_nat (_nflags s)) START_FLAG
              ++ concat (map (be_bytes (Z.to_nat (_sample_bytes s))) ws)
              ++ replicate j STOP_FLAG ++ b :: post) s = Some (s', 0)
    /\ at_rest s'
    /\ config_of s' = config_of s.
Proof.
  intros Hrest Hn HB Hlen Hpre Hws Hj Hb.
  pose proof Hrest as (Hc & Hv & Hstart & Hstop & Hidx & Hbyte & Huval).
  set (tail := replicate j STOP_FLAG ++ b :: post).
  destruct (callback_parse_samples s pre ws tail) as [Hrun Hocc]; try assumption.
  { subst tail. destruct j; discriminate. }
  set (buffer := pre ++ _) in *.
  set (r := Z.of_nat (List.length pre) + _nflags s + _sample_bytes s * _sweep_len s) in *.
  set (s1 := set_start_flags (_nflags s) s) in *.
  set (s2 := fold_left place_word ws s1) in *.
  destruct (place_words_rel ws s1) as (Hrel & Hidx2 & Hzero & _); [cbn; lia | cbn; lia |].
  fold s2 in Hrel, Hidx2, Hzero.
  destruct Hrel as (Hc2 & _ & Hstop2 & Hv2 & _).
  assert (Hn2 : _nflags s2 = _nflags s) by (unfold config_of in Hc2; cbn in Hc2; congruence).
  cbn in Hstop2, Hv2, Hc2.
  assert (Hzero2 : _byte_idx s2 = 0 /\ _uval s2 = 0).
  { destruct ws as [|w ws']; [subst s2; cbn; now split|]. apply Hzero. discriminate. }
  assert (Hlenb : (List.length pre + j + 1 <= List.length buffer)%nat
                  /\ r + Z.of_nat j < Z.of_nat (List.length buffer)).
  { subst buffer tail r. rewrite !length_app, !length_replicate, concat_be_bytes_length.
    cbn [List.length]. split; nia. }
  destruct Hlenb as [Hge Hlt].
  assert (Hstoprun : read_stop_seq buffer (Z.of_nat (List.length buffer)) r s2
                     = Some (read_stop_seq_cleanup s2
                               (inc_check_idx (r + Z.of_nat j)
                                  (Z.of_nat (List.length buffer))))).
  { unfold read_stop_seq.
    replace (S (S (List.length buffer)))
      with (S (j + (S (List.length buffer) - j)))%nat by lia.
    apply (read_stop_seq_loop_bad buffer _ j _ r s2 b); try lia; try assumption;
      try (subst r; nia).
    subst tail. change (b :: post) with ([b] ++ post) in Hocc.
    rewrite app_assoc in Hocc. apply occurs_at_app in Hocc as [Hocc _]; [exact Hocc|].
    subst r. nia. }
  unfold callback. rewrite Hc, Hv.
  destruct (Z.eqb_spec (Z.of_nat (List.length buffer)) 0); [lia|]. cbn [orb].
  rewrite Hrun, Hstoprun. cbn [mbind option_bind read_stop_seq_cleanup].
  eexists. split; [reflexivity|]. split.
  - apply at_rest_after_log. unfold at_rest. cbn.
    destruct Hzero2 as [-> ->]. rewrite Hv2, Hv.
    assert (Hcancel : _cancel s2 = _cancel s)
      by (unfold config_of in Hc2; cbn in Hc2; congruence).
    rewrite Hcancel, Hc. conjs; reflexivity.
  - destruct (callback_log_frame buffer (Z.of_nat (List.length buffer))
                (inc_check_idx (r + Z.of_nat j) (Z.of_nat (List.length buffer)))
                (set_stop_flags 0 (set_start_flags 0 (set_sweep_idx 0 s2)))) as [m ->].
    exact Hc2.
Qed.

Lemma callback_bad_stop_witness :
  exists s',
    callback ([] ++ replicate (Z.to_nat (_nflags wide_start)) START_FLAG
              ++ concat (map (be_bytes (Z.to_nat (_sample_bytes wide_start)))
                           [0x123; 0xFFD; 0x456])
              ++ replicate 1 STOP_FLAG ++ 0x00 :: [0x8F]) wide_start = Some (s', 0)
    /\ at_rest s'
    /\ config_of s' = config_of wide_start.
Proof.
  apply (callback_bad_stop wide_start [] [0x123; 0xFFD; 0x456] [0x8F] 1 0x00); concrete.
Defined.

(** ** Codec: decoding a word in real mode *)

Lemma signed_of_word (sb u : Z) :
  1 <= sb <= 32 -> 0 <= u < 2 ^ sb ->
  signed_of (sign_mask sb) u = if u <? 2 ^ (sb - 1) then u else u - 2 ^ sb.
Proof.
  intros Hsb Hu. unfold signed_of, sign_mask.
  assert (Hpow : 2 ^ sb = 2 * 2 ^ (sb - 1)).
  { rewrite <- Z.pow_succ_r by lia. f_equal. lia. }
  assert (Hp : 0 < 2 ^ (sb - 1) <= 2 ^ 31).
  { split; [apply Z.pow_pos_nonneg; lia | apply Z.pow_le_mono_r; lia]. }
  assert (Hle : 2 ^ sb <= 2 ^ 32) by (apply Z.pow_le_mono_r; lia).
  rewrite land_not_u64 by lia.
  rewrite sign_mask_land by assumption.
  rewrite wrap_u64_add_l, wrap_int_u64.
  destruct (Z.ltb_spec u (2 ^ (sb - 1))).
  - replace (- 0 + (u - 0)) with u by lia. apply wrap_int_small. lia.
  - replace (- 2 ^ (sb - 1) + (u - 2 ^ (sb - 1))) with (u - 2 ^ sb) by lia.
    apply wrap_int_small. lia.
Qed.

Lemma sample_val_twos_complement (sb v : Z) :
  1 <= sb <= 32 -> - 2 ^ (sb - 1) <= v < 2 ^ (sb - 1) ->
  sample_val sb false (twos_complement sb v) = v.
Proof.
  intros Hsb Hv. unfold sample_val, twos_complement. cbn [negb].
  assert (Hpow : 2 ^ sb = 2 * 2 ^ (sb - 1)).
  { rewrite <- Z.pow_succ_r by lia. f_equal. lia. }
  assert (Hp : 0 < 2 ^ (sb - 1)) by (apply Z.pow_pos_nonneg; lia).
  assert (Hu : 0 <= v mod 2 ^ sb < 2 ^ sb) by (apply Z.mod_pos_bound; lia).
  fold (sign_mask sb). rewrite signed_of_word by assumption.
  destruct (Z.lt_ge_cases v 0).
  - assert (Hm : v mod 2 ^ sb = v + 2 ^ sb).
    { symmetry. apply (Z.mod_unique v (2 ^ sb) (-1)); lia. }
    rewrite Hm. destruct (Z.ltb_spec (v + 2 ^ sb) (2 ^ (sb - 1))); lia.
  - rewrite Z.mod_small by lia. destruct (Z.ltb_spec v (2 ^ (sb - 1))); lia.
Qed.

(** X3: in real mode [sample_val] reads an unsigned word of [sample_bits]
    bits as a two's-complement number: the result lies in
    [-2^(sample_bits-1) .. 2^(sample_bits-1) - 1], it is negative exactly
    when the top bit of the word is set, and encoding it gives the word
    back. *)
Theorem twos_complement_sample_val (sb u : Z) :
  1 <= sb <= 32 -> 0 <= u < 2 ^ sb ->
  - 2 ^ (sb - 1) <= sample_val sb false u < 2 ^ (sb - 1)
  /\ (sample_val sb false u < 0 <-> Z.testbit u (sb - 1) = true)
  /\ twos_complement sb (sample_val sb false u) = u.
Proof.
  intros Hsb Hu. unfold sample_val, twos_complement. cbn [negb].
  assert (Hpow : 2 ^ sb = 2 * 2 ^ (sb - 1)).
  { rewrite <- Z.pow_succ_r by lia. f_equal. lia. }
  assert (Hp : 0 < 2 ^ (sb - 1)) by (apply Z.pow_pos_nonneg; lia).
  fold (sign_mask sb). rewrite signed_of_word by assumption.
  rewrite (testbit_top u (sb - 1)) by (rewrite ?Z.sub_add; lia).
  destruct (Z.ltb_spec u (2 ^ (sb - 1))); cbn [negb].
  - split; [lia|]. split; [split; [lia | discriminate]|]. apply Z.mod_small. lia.
  - split; [lia|]. split; [split; [reflexivity | lia]|].
    symmetry. apply (Z.mod_unique _ (2 ^ sb) (-1)); lia.
Qed.

Lemma twos_complement_sample_val_witness :
  1 <= 12 <= 32 /\ 0 <= 0xFFD < 2 ^ 12
  /\ sample_val 12 false 0xFFD = -3
  /\ twos_complement 12 (sample_val 12 false 0xFFD) = 0xFFD.
Proof.
  split; [lia|]. split; [lia|]. split; [reflexivity|].
  apply (twos_complement_sample_val 12 0xFFD); lia.
Defined.

(** ** Codec: bounds on the derived widths *)

Lemma codec_ok_all (fft : bool) :
  forallb (codec_ok fft) (map Z.of_nat (seq 1 32)) = true.
Proof. destruct fft; vm_compute; reflexivity. Qed.

Lemma codec_bounds (fft : bool) (sb : Z) :
  1 <= sb <= 32 ->
  1 <= sample_bytes fft sb <= 8
  /\ payload_width fft sb <= 8 * sample_bytes fft sb < 2 * payload_width fft sb + 8
  /\ 1 <= num_flags fft sb <= 16
  /\ payload_width fft sb < 8 * num_flags fft sb.
Proof.
  intros Hsb.
  pose proof (proj1 (forallb_forall _ _) (codec_ok_all fft) sb
                (sample_bits_cases sb Hsb)) as Hok.
  unfold codec_ok in Hok.
  repeat (apply andb_true_iff in Hok as [Hok ?]).
  repeat match goal with
         | H : (_ <=? _) = true |- _ => apply Z.leb_le in H
         | H : (_ <? _) = true |- _ => apply Z.ltb_lt in H
         end.
  lia.
Qed.

(** X2: for every sample width in [1..32] and both modes, a sample is
    padded to between 1 and 8 bytes, so that the accumulator [_uval] holds
    it, the padded sample has room for the whole payload, and the flag run
    is between 1 and 16 bytes and wider than the payload. *)
Theorem sample_bytes_holds_payload (fft : bool) (sb : Z) :
  1 <= sb <= 32 ->
  1 <= sample_bytes fft sb <= 8
  /\ payload_width fft sb <= 8 * sample_bytes fft sb
  /\ 1 <= num_flags fft sb <= 16
  /\ payload_width fft sb < 8 * num_flags fft sb.
Proof.
  intros Hsb.
  pose proof (proj1 (forallb_forall _ _) (codec_ok_all fft) sb
                (sample_bits_cases sb Hsb)) as Hok.
  unfold codec_ok in Hok.
  repeat (apply andb_true_iff in Hok as [Hok ?]).
  repeat match goal with
         | H : (_ <=? _) = true |- _ => apply Z.leb_le in H
         | H : (_ <? _) = true |- _ => apply Z.ltb_lt in H
         end.
  lia.
Qed.

Lemma sample_bytes_holds_payload_witness :
  1 <= sample_bytes true 12 <= 8
  /\ payload_width true 12 <= 8 * sample_bytes true 12
  /\ 1 <= num_flags true 12 <= 16
  /\ payload_width true 12 < 8 * num_flags true 12.
Proof. apply (sample_bytes_holds_payload true 12). concrete. Defined.

(** ** Producer and consumer *)

Lemma frame_ext (s s' : state) (ws : list Z) :
  config_of s' = config_of s -> frame s' ws = frame s ws.
Proof.
  intros Hc. unfold config_of in Hc. unfold frame.
  assert (_nflags s' = _nflags s) as -> by congruence.
  assert (_sample_bytes s' = _sample_bytes s) as -> by congruence.
  reflexivity.
Qed.

Lemma words_of_values_range (s : state) (vs : list Z) :
  configured s -> _fft s = false -> 1 <= _sample_bits s <= 32 ->
  Forall (λ w, 0 <= w < 2 ^ (8 * _sample_bytes s))
         (map (twos_complement (_sample_bits s)) vs).
Proof.
  intros [HB _] Hfft Hsb. rewrite Hfft in HB.
  destruct (codec_bounds false (_sample_bits s) Hsb) as (_ & [Hw _] & _).
  unfold payload_width in Hw. rewrite <- HB in Hw.
  apply Forall_forall. intros w Hin. apply list_elem_of_fmap in Hin as (v & -> & _).
  unfold twos_complement.
  assert (0 <= v mod 2 ^ _sample_bits s < 2 ^ _sample_bits s)
    by (apply Z.mod_pos_bound, Z.pow_pos_nonneg; lia).
  assert (2 ^ _sample_bits s <= 2 ^ (8 * _sample_bytes s))
    by (apply Z.pow_le_mono_r; lia).
  lia.
Qed.

(** One whole frame of signed values, then one read. *)
Lemma frame_then_read (s : state) (pre vs post : list Z) (arr : gmap Z Z) :
  at_rest s -> configured s -> _fft s = false -> 1 <= _sample_bits s <= 32 ->
  Z.of_nat (List.length vs) = _sweep_len s -> 1 <= _sweep_len s ->
  Forall (λ b, b <> START_FLAG) pre ->
  Forall (in_range (_sample_bits s)) vs ->
  exists s1 s2 arr',
    callback (pre ++ frame_of_values s vs ++ post) s = Some (s1, 0)
    /\ fmcw_read_sweep arr s1 = Some (s2, arr', TRUE)
    /\ at_rest s2 /\ config_of s2 = config_of s
    /\ holds_but_last vs arr'
    /\ arr' !! (_sweep_len s - 1) = sweep s !! (_sweep_len s - 1)
    /\ (forall i, ~ (0 <= i < _sweep_len s) -> arr' !! i = arr !! i).
Proof.
  intros Hrest Hcfg Hfft Hsb Hlen Hpos Hpre Hvs.
  pose proof Hcfg as [HB HN]. rewrite Hfft in HB, HN.
  destruct (codec_bounds false (_sample_bits s) Hsb) as (HB8 & _ & HN16 & _).
  rewrite <- HB in HB8. rewrite <- HN in HN16.
  set (ws := map (twos_complement (_sample_bits s)) vs).
  assert (Hlenw : Z.of_nat (List.length ws) = _sweep_len s)
    by (subst ws; now rewrite length_map).
  pose proof (callback_frame_result s pre ws post Hrest (proj1 HN16) HB8 Hlenw Hpre
                (words_of_values_range s vs Hcfg Hfft Hsb)) as Hrun.
  cbv zeta in Hrun.
  match type of Hrun with
  | context [callback_log ?b ?l ?r ?x] =>
      destruct (callback_log_frame b l r x) as [m Hlog]
  end.
  rewrite Hlog in Hrun.
  set (s1 := set_log_written _ (after_frame s ws)) in Hrun.
  assert (Hpub : published s ws s1).
  { destruct Hrest as (_ & _ & _ & _ & Hidx & Hbyte & Huval).
    now apply after_frame_published. }
  destruct Hpub as (Hv1 & Hc1 & Hcnt & Hcells & Hlast & Hout).
  clearbody s1.
  assert (Hl1 : _sweep_len s1 = _sweep_len s) by (unfold config_of in Hc1; congruence).
  destruct (read_sweep_loop_copies (S (Z.to_nat (_sweep_len s1))) 0 s1 arr)
    as (arr' & Hcopy & Hget); [lia|].
  exists s1, (set_sweep_valid false s1), arr'.
  split; [exact Hrun|].
  split; [unfold fmcw_read_sweep; rewrite Hv1, Hcopy; reflexivity|].
  assert (Hz : _start_flags s1 = 0 /\ _stop_flags s1 = 0 /\ _sweep_idx s1 = 0
               /\ _byte_idx s1 = 0 /\ _uval s1 = 0) by (conjs; congruence).
  destruct Hz as (Hc_start & Hc_stop & Hc_idx & Hc_byte & Hc_uval).
  conjs.
  - unfold at_rest. cbn. destruct Hrest as (Hc0 & _).
    assert (_cancel s1 = _cancel s) as -> by (unfold config_of in Hc1; congruence).
    conjs; assumption || reflexivity.
  - exact Hc1.
  - intros i v Hv Hi. rewrite Hget, Hl1, <- Hlen.
    rewrite bool_decide_eq_true_2 by lia.
    rewrite (Hcells i (twos_complement (_sample_bits s) v)).
    + rewrite Hfft. f_equal. apply sample_val_twos_complement; [exact Hsb|].
      apply (proj1 (Forall_forall _ _) Hvs). now apply list_elem_of_lookup_2 in Hv.
    + subst ws. now rewrite list_lookup_fmap, Hv.
    + lia.
  - rewrite Hget, Hl1, bool_decide_eq_true_2 by lia. apply Hout; lia.
  - intros i Hi. rewrite Hget, Hl1, bool_decide_eq_false_2 by lia. reflexivity.
Qed.

(** X8: producer and consumer together, in real mode with [sample_bits]
    in [1..32]: when every chunk is one frame of [sweep_len] signed values
    in range and the consumer calls [fmcw_read_sweep] after every chunk,
    every read returns TRUE, the arrays come in the order of the frames,
    and each holds the values of its frame in cells [0 .. sweep_len-2];
    the parser is at rest again at the end. *)
Theorem acquire_frames (vss : list (list Z)) :
  forall s : state,
    at_rest s -> configured s -> _fft s = false -> 1 <= _sample_bits s <= 32 ->
    1 <= _sweep_len s ->
    Forall (λ vs, Z.of_nat (List.length vs) = _sweep_len s
                  /\ Forall (in_range (_sample_bits s)) vs) vss ->
    exists s' sweeps,
      acquire (map (frame_of_values s) vss) s = Some (s', sweeps)
      /\ at_rest s' /\ config_of s' = config_of s
      /\ Forall2 holds_but_last vss sweeps.
Proof.
  induction vss as [|vs vss IH]; intros s Hrest Hcfg Hfft Hsb Hpos Hall.
  - exists s, []. cbn. conjs; [reflexivity | assumption | reflexivity | constructor].
  - apply Forall_cons in Hall as [[Hlen Hvs] Hall].
    destruct (frame_then_read s [] vs [] ∅) as
      (s1 & s2 & arr & Hrun & Hread & Hrest2 & Hc2 & Hhold & _);
      try assumption; [constructor|].
    cbn [app] in Hrun. rewrite app_nil_r in Hrun.
    assert (Hsame : _sample_bits s2 = _sample_bits s /\ _fft s2 = _fft s
                    /\ _sweep_len s2 = _sweep_len s /\ _sample_bytes s2 = _sample_bytes s
                    /\ _nflags s2 = _nflags s).
    { unfold config_of in Hc2. conjs; congruence. }
    destruct Hsame as (Hsb2 & Hfft2 & Hl2 & HB2 & HN2).
    destruct (IH s2) as (s' & sweeps & Hacq & Hrest' & Hc' & Hholds);
      try assumption; rewrite ?Hsb2, ?Hfft2, ?Hl2; try assumption.
    { unfold configured. rewrite HB2, HN2, Hfft2, Hsb2. exact Hcfg. }
    exists s', (arr :: sweeps).
    cbn [map acquire]. rewrite Hrun. cbn [mbind option_bind]. rewrite Hread.
    cbn [mbind option_bind].
    replace (map (frame_of_values s) vss) with (map (frame_of_values s2) vss).
    + rewrite Hacq. cbn. conjs; [reflexivity | assumption | congruence |].
      constructor; assumption.
    + apply map_ext. intros ws. unfold frame_of_values. rewrite Hsb2.
      now apply frame_ext.
Qed.

Lemma acquire_frames_witness :
  exists s' sweeps,
    acquire (map (frame_of_values wide_start) [[1; -3; 5]; [-2048; 2047; 0]]) wide_start
    = Some (s', sweeps)
    /\ at_rest s' /\ config_of s' = config_of wide_start
    /\ Forall2 holds_but_last [[1; -3; 5]; [-2048; 2047; 0]] sweeps.
Proof.
  apply (acquire_frames [[1; -3; 5]; [-2048; 2047; 0]] wide_start);
    unfold in_range, configured; concrete.
Defined.

(** ** States the parser does not leave, in general *)

Lemma dead_log (m : list Z) (s : state) : dead s -> dead (set_log_written m s).
Proof. exact (fun H => H). Qed.

Lemma callback_dead (buffer : list Z) (s : state) :
  dead s ->
  exists s' r,
    callback buffer s = Some (s', r)
    /\ dead s' /\ sweep s' = sweep s /\ config_of s' = config_of s.
Proof.
  intros (Hv & Hstop & Hcase). unfold callback.
  assert (Hself : dead s) by (unfold dead; conjs; assumption).
  destruct (_cancel s); [exists s, 1; now conjs|].
  rewrite Hv, orb_false_r.
  destruct (Z.eqb_spec (Z.of_nat (List.length buffer)) 0); [exists s, 0; now conjs|].
  unfold callback_parse, callback_phase. rewrite Hstop. cbn [Z.eqb negb].
  destruct Hcase as [[Hidx Hrun]|[[Hidx Hfull]|(Hidx & Hlast & Hbytes)]].
  - rewrite Hidx. cbn [Z.eqb negb].
    rewrite read_start_seq_run_complete by exact Hrun. cbn [mbind option_bind Z.eqb].
    destruct (callback_log_frame buffer (Z.of_nat (List.length buffer)) 0 s) as [m ->].
    eexists _, 0. split; [reflexivity|]. now conjs.
  - destruct (Z.eqb_spec (_sweep_idx s) 0); [contradiction|]. cbn [negb].
    unfold read_sample_seq. cbn [read_sample_seq_loop].
    destruct (Z.ltb_spec (_sweep_idx s) (_sweep_len s)); [lia|].
    cbn [mbind option_bind Z.eqb].
    destruct (callback_log_frame buffer (Z.of_nat (List.length buffer)) 0 s) as [m ->].
    eexists _, 0. split; [reflexivity|]. now conjs.
  - destruct (Z.eqb_spec (_sweep_idx s) 0); [lia|]. cbn [negb].
    unfold read_sample_seq.
    replace (Z.to_nat (_sweep_len s - _sweep_idx s)) with 1%nat by lia.
    cbn [read_sample_seq_loop read_sample_bytes_loop].
    destruct (Z.ltb_spec (_sweep_idx s) (_sweep_len s)); [|lia].
    destruct (Z.ltb_spec (_byte_idx s) (_sample_bytes s)); [lia|].
    assert (Hplace : read_sample_seq_place s
                     = set_uval 0 (set_sweep_idx (_sweep_idx s + 1)
                         (set_last_sample (sample_val (_sample_bits s) (_fft s) (_uval s))
                            (set_byte_idx 0 s)))).
    { unfold read_sample_seq_place. cbn.
      destruct (Z.ltb_spec (_sweep_idx s) (_sweep_len s - 1)); [lia | reflexivity]. }
    rewrite Hplace. cbn [_sweep_idx _sweep_len set_uval set_sweep_idx set_last_sample
                          set_byte_idx].
    destruct (Z.ltb_spec (_sweep_idx s + 1) (_sweep_len s)); [lia|].
    cbn [mbind option_bind Z.eqb].
    match goal with
    | |- context [callback_log ?b ?l ?r ?x] =>
        destruct (callback_log_frame b l r x) as [m ->]
    end.
    eexists _, 0. split; [reflexivity|].
    split; [|split; reflexivity].
    apply dead_log. unfold dead. cbn. conjs; try assumption.
    right. left. split; lia.
Qed.

(** X13: the states the parser does not leave.  With no sweep waiting and
    no stop flag counted, if the start run is complete and no sample is
    placed, or every sample is placed, or only the last sample is missing
    and all its bytes are read, then for every sequence of chunks
    [callback] returns, publishes no sweep, stores no sample and stays in
    such a state. *)
Theorem dead_states_never_publish (chunks : list (list Z)) :
  forall s : state,
    dead s ->
    exists s',
      feed chunks s = Some s'
      /\ dead s' /\ _sweep_valid s' = false
      /\ sweep s' = sweep s /\ config_of s' = config_of s.
Proof.
  induction chunks as [|c rest IH]; intros s Hs.
  - exists s. destruct Hs as (Hv & ?). conjs; try reflexivity; try assumption.
    unfold dead; now conjs.
  - destruct (callback_dead c s Hs) as (s1 & r & Hrun & Hs1 & Hsw1 & Hc1).
    destruct (IH s1 Hs1) as (s' & Hfeed & Hs' & Hv' & Hsw' & Hc').
    exists s'. cbn [feed]. rewrite Hrun. cbn [mbind option_bind].
    conjs; try assumption; congruence.
Qed.

Lemma dead_states_never_publish_witness :
  exists s',
    feed [[0xFF; 0xFF; 0x01; 0x23; 0x8F; 0x8F]; [0x8F]] (set_start_flags 2 wide_start)
    = Some s'
    /\ dead s' /\ _sweep_valid s' = false
    /\ sweep s' = sweep (set_start_flags 2 wide_start)
    /\ config_of s' = config_of (set_start_flags 2 wide_start).
Proof.
  apply (dead_states_never_publish [[0xFF; 0xFF; 0x01; 0x23; 0x8F; 0x8F]; [0x8F]]
           (set_start_flags 2 wide_start)).
  unfold dead. conjs; try reflexivity. left. concrete.
Defined.

(** ** Bytes up to the end of a chunk *)

Section RunsToTheEnd.

Variable buffer : list Z.
Variable length : Z.

Lemma inc_check_idx_end (r : Z) : r + 1 = length -> inc_check_idx r length = 0.
Proof.
  intros H. unfold inc_check_idx, FALSE.
  destruct (Z.eqb_spec (r + 1) length); [reflexivity | lia].
Qed.

(** Sample bytes up to the last byte of the chunk, whatever they are. *)
Lemma read_sample_bytes_loop_end (m : nat) :
  forall (fuel : nat) (r : Z) (s : state),
    _byte_idx s + Z.of_nat (S m) <= _sample_bytes s ->
    0 <= r -> r + Z.of_nat (S m) = length ->
    exists u,
      read_sample_bytes_loop (S (m + fuel)) buffer length r s
      = Some (Return (set_uval u (set_byte_idx (_byte_idx s + Z.of_nat (S m)) s)) 0).
Proof.
  induction m as [|m IH]; intros fuel r s Hb Hr Hlen;
    cbn [Nat.add]; rewrite read_sample_bytes_loop_S;
    (destruct (Z.ltb_spec (_byte_idx s) (_sample_bytes s)); [|lia]); cbv zeta.
  - rewrite inc_check_idx_end by lia. cbn [Z.eqb FALSE]. eexists. reflexivity.
  - rewrite inc_check_idx_inside by lia.
    destruct (Z.eqb_spec (r + 1) 0); [lia|].
    edestruct (IH fuel (r + 1)) as [u Hu]; [| | | rewrite Hu].
    + cbn [_byte_idx _sample_bytes set_byte_idx set_uval]. lia.
    + lia.
    + lia.
    + exists u. cbn [_byte_idx set_byte_idx set_uval].
      replace (_byte_idx s + 1 + Z.of_nat (S m)) with (_byte_idx s + Z.of_nat (S (S m)))
        by lia.
      reflexivity.
Qed.

End RunsToTheEnd.

Lemma feed_dead (chunks : list (list Z)) :
  forall s : state,
    dead s ->
    exists s',
      feed chunks s = Some s'
      /\ dead s' /\ sweep s' = sweep s /\ config_of s' = config_of s.
Proof.
  induction chunks as [|c rest IH]; intros s Hs.
  - exists s. now conjs.
  - destruct (callback_dead c s Hs) as (s1 & r & Hrun & Hs1 & Hsw1 & Hc1).
    destruct (IH s1 Hs1) as (s' & Hfeed & Hs' & Hsw' & Hc').
    exists s'. cbn [feed]. rewrite Hrun. cbn [mbind option_bind].
    conjs; try assumption; congruence.
Qed.

(** ** Whole samples inside a chunk *)

(** Whole samples with more of the chunk behind them. *)
Lemma read_sample_seq_loop_words_more (buffer : list Z) (ws : list Z) :
  forall (fuel : nat) (r : Z) (s : state),
    _byte_idx s = 0 -> _uval s = 0 -> 1 <= _sample_bytes s <= 8 ->
    0 <= _sweep_idx s ->
    _sweep_idx s + Z.of_nat (List.length ws) <= _sweep_len s ->
    Forall (λ w, 0 <= w < 2 ^ (8 * _sample_bytes s)) ws ->
    0 <= r ->
    r + _sample_bytes s * Z.of_nat (List.length ws) < Z.of_nat (List.length buffer) ->
    occurs_at buffer r (concat (map (be_bytes (Z.to_nat (_sample_bytes s))) ws)) ->
    read_sample_seq_loop (List.length ws + fuel) buffer (Z.of_nat (List.length buffer)) r s
    = read_sample_seq_loop fuel buffer (Z.of_nat (List.length buffer))
        (r + _sample_bytes s * Z.of_nat (List.length ws)) (fold_left place_word ws s).
Proof.
  induction ws as [|w ws IH]; intros fuel r s Hb Hu HB Hidx Hfull Hws Hr Hlen Hocc.
  - cbn. f_equal. lia.
  - cbn [List.length map concat] in *.
    apply Forall_cons in Hws as [Hw Hws].
    apply occurs_at_app in Hocc as [Hocc1 Hocc2]; [|exact Hr].
    rewrite be_bytes_length in Hocc2.
    cbn [Nat.add]. rewrite read_sample_seq_loop_S.
    destruct (Z.ltb_spec (_sweep_idx s) (_sweep_len s)); [|lia].
    set (k := Z.to_nat (_sample_bytes s)) in *.
    replace (S (List.length buffer))
      with (S (k + (List.length buffer - k)))%nat by (subst k; nia).
    assert (Hinner : read_sample_bytes_loop (S (k + (List.length buffer - k)))
                       buffer (Z.of_nat (List.length buffer)) r s
                     = Some (Next (set_uval w (set_byte_idx (_sample_bytes s) s))
                               (r + Z.of_nat k))).
    { apply read_sample_bytes_loop_word; try lia; try assumption.
      rewrite Hu. subst k. rewrite Z2Nat.id by lia.
      rewrite Z.shiftr_div_pow2, Z.div_small by lia. now rewrite Z.shiftl_0_l. }
    rewrite Hinner. fold (place_word s w).
    destruct (place_word_rel s w) as (Hrel & Hnext & Hb1 & Hu1 & _); [lia|].
    pose proof Hrel as (Hc & _).
    assert (Hcfg : _sweep_len (place_word s w) = _sweep_len s
                   /\ _sample_bytes (place_word s w) = _sample_bytes s).
    { unfold config_of in Hc. conjs; congruence. }
    destruct Hcfg as (Hl1 & HB1).
    rewrite IH; rewrite ?HB1, ?Hl1, ?Hnext; try assumption; try lia.
    cbn [fold_left]. f_equal. subst k. nia.
Qed.

(** ** Chunk boundaries that do no harm *)

(** Stop flags short of the count that end the chunk: the count is kept. *)
Lemma read_stop_seq_loop_flags_end (buffer : list Z) (length : Z) (k : nat) :
  forall (fuel : nat) (r : Z) (s : state),
    0 <= _stop_flags s -> _stop_flags s + Z.of_nat (S k) < _nflags s ->
    0 <= r -> r + Z.of_nat (S k) = length ->
    occurs_at buffer r (replicate (S k) STOP_FLAG) ->
    read_stop_seq_loop (S (k + fuel)) buffer length r s
    = Some (set_stop_flags (_stop_flags s + Z.of_nat (S k)) s, 0).
Proof.
  induction k as [|k IH]; intros fuel r s Hs Hn Hr Hlen Hocc;
    cbn [replicate] in Hocc; apply occurs_at_cons in Hocc as [Hb Hocc]; try exact Hr;
    cbn [Nat.add]; rewrite read_stop_seq_loop_S;
    (destruct (Z.ltb_spec (_stop_flags s) (_nflags s)); [|lia]);
    rewrite Hb, Z.eqb_refl; cbv zeta; cbn [_stop_flags _nflags set_stop_flags];
    (destruct (Z.ltb_spec (_stop_flags s + 1) (_nflags s)); [|lia]).
  - rewrite inc_check_idx_end by lia. reflexivity.
  - rewrite inc_check_idx_inside by lia.
    destruct (Z.eqb_spec (r + 1) 0); [lia|].
    rewrite IH; cbn [_stop_flags _nflags set_stop_flags]; try assumption; try lia.
    replace (_stop_flags s + 1 + Z.of_nat (S k)) with (_stop_flags s + Z.of_nat (S (S k)))
      by lia.
    reflexivity.
Qed.

(** X9: a chunk boundary inside the stop run does no harm.  From a parser
    at rest, at a width where [sample_val] stands for the source
    ([decoder_exact]): when the first chunk holds bytes that are not start
    flags, the start run, the samples of a full sweep and [j] stop flags,
    [1 <= j < nflags], and ends there, and the second chunk starts with
    the remaining [nflags - j] stop flags, the sweep is published after
    the second call as from a whole frame. *)
Theorem split_inside_stop_run (s : state) (pre ws post : list Z) (j : nat) :
  at_rest s ->
  decoder_exact (_fft s) (_sample_bits s) ->
  1 <= _nflags s -> 1 <= _sample_bytes s <= 8 ->
  Z.of_nat (List.length ws) = _sweep_len s ->
  Forall (λ b, b <> START_FLAG) pre ->
  Forall (λ w, 0 <= w < 2 ^ (8 * _sample_bytes s)) ws ->
  (1 <= j)%nat -> Z.of_nat j < _nflags s ->
  exists s',
    feed [pre ++ replicate (Z.to_nat (_nflags s)) START_FLAG
            ++ concat (map (be_bytes (Z.to_nat (_sample_bytes s))) ws)
            ++ replicate j STOP_FLAG;
          replicate (Z.to_nat (_nflags s) - j) STOP_FLAG ++ post] s = Some s'
    /\ published s ws s'.
Proof.
  intros Hrest _ Hn HB Hlen Hpre Hws Hj1 Hj.
  pose proof Hrest as (Hc & Hv & Hstart & Hstop & Hidx & Hbyte & Huval).
  set (n := Z.to_nat (_nflags s)).
  destruct (callback_parse_samples s pre ws (replicate j STOP_FLAG)) as [Hrun Hocc];
    try assumption.
  { destruct j; [lia | discriminate]. }
  fold n in Hrun, Hocc.
  set (c1 := pre ++ _) in *.
  set (r := Z.of_nat (List.length pre) + _nflags s + _sample_bytes s * _sweep_len s) in *.
  set (s1 := set_start_flags (_nflags s) s) in *.
  set (s2 := fold_left place_word ws s1) in *.
  destruct (place_words_rel ws s1) as (Hrel & Hidx2 & _); [cbn; lia | cbn; lia |].
  fold s2 in Hrel, Hidx2.
  destruct Hrel as (Hc2 & _ & Hstop2 & Hv2 & _).
  assert (Hcfg2 : _nflags s2 = _nflags s /\ _cancel s2 = _cancel s).
  { unfold config_of in Hc2. cbn in Hc2. conjs; congruence. }
  destruct Hcfg2 as (Hn2 & Hcan2).
  cbn in Hstop2, Hv2.
  assert (Hlen1 : Z.of_nat (List.length c1) = r + Z.of_nat j).
  { subst c1 r. rewrite !length_app, !length_replicate, concat_be_bytes_length. nia. }
  assert (Hr0 : 0 <= r) by (subst r; nia).
  clearbody r.
  (* the first chunk stops inside the stop run *)
  assert (Hcb1 : exists m1,
             callback c1 s = Some (set_log_written m1 (set_stop_flags (Z.of_nat j) s2), 0)).
  { unfold callback. rewrite Hc, Hv.
    destruct (Z.eqb_spec (Z.of_nat (List.length c1)) 0); [lia|]. cbn [orb].
    rewrite Hrun. unfold read_stop_seq.
    replace (S (S (List.length c1)))
      with (S ((j - 1) + (S (List.length c1) - (j - 1))))%nat by lia.
    rewrite (read_stop_seq_loop_flags_end c1 _ (j - 1)); try lia.
    - cbn [mbind option_bind].
      match goal with
      | |- context [callback_log ?b ?l ?r ?x] =>
          destruct (callback_log_frame b l r x) as [m1 ->]
      end.
      exists (log_written (set_stop_flags (_stop_flags s2 + Z.of_nat (S (j - 1))) s2)
              ++ take m1 c1).
      replace (_stop_flags s2 + Z.of_nat (S (j - 1))) with (Z.of_nat j) by lia.
      reflexivity.
    - replace (S (j - 1)) with j by lia. exact Hocc. }
  destruct Hcb1 as [m1 Hcb1].
  (* the second chunk completes it *)
  set (c2 := replicate (n - j) STOP_FLAG ++ post).
  set (s3 := set_log_written m1 (set_stop_flags (Z.of_nat j) s2)).
  assert (Hlen2 : (n - j <= List.length c2)%nat /\ (1 <= n - j)%nat).
  { subst c2. rewrite length_app, length_replicate. lia. }
  assert (Hcb2 : exists m2,
             callback c2 s3 = Some (set_log_written m2 (after_frame s ws), 0)).
  { unfold callback. subst s3.
    cbn [_cancel _sweep_valid set_log_written set_stop_flags].
    rewrite Hcan2, Hc, Hv2, Hv.
    destruct (Z.eqb_spec (Z.of_nat (List.length c2)) 0); [lia|]. cbn [orb].
    unfold callback_parse, callback_phase.
    cbn [_stop_flags set_log_written set_stop_flags].
    destruct (Z.eqb_spec (Z.of_nat j) 0); [lia|]. cbn [negb].
    unfold read_stop_seq.
    replace (S (S (List.length c2)))
      with (S (S ((n - j - 1) + (List.length c2 - (n - j - 1)))))%nat by lia.
    rewrite (read_stop_seq_loop_flags c2 _ (n - j - 1));
      cbn [_stop_flags _nflags set_log_written set_stop_flags]; try lia.
    - unfold read_stop_seq_commit, read_stop_seq_cleanup. cbn [mbind option_bind].
      match goal with
      | |- context [callback_log ?b ?l ?r ?x] =>
          destruct (callback_log_frame b l r x) as [m2 ->]
      end.
      exists (m1 ++ take m2 c2). reflexivity.
    - replace (S (n - j - 1)) with (n - j)%nat by lia.
      subst c2. apply (occurs_at_middle [] (replicate (n - j) STOP_FLAG) post). }
  destruct Hcb2 as [m2 Hcb2].
  exists (set_log_written m2 (after_frame s ws)).
  split.
  - cbn [feed]. rewrite Hcb1. cbn [mbind option_bind]. fold s3 c2.
    rewrite Hcb2. reflexivity.
  - now apply after_frame_published.
Qed.

Lemma split_inside_stop_run_witness :
  exists s',
    feed [[0x00] ++ replicate (Z.to_nat (_nflags wide_start)) START_FLAG
            ++ concat (map (be_bytes (Z.to_nat (_sample_bytes wide_start)))
                         [0x123; 0xFFD; 0x456])
            ++ replicate 1 STOP_FLAG;
          replicate (Z.to_nat (_nflags wide_start) - 1) STOP_FLAG ++ [0x07]] wide_start
    = Some s'
    /\ published wide_start [0x123; 0xFFD; 0x456] s'.
Proof.
  apply (split_inside_stop_run wide_start [0x00] [0x123; 0xFFD; 0x456] [0x07] 1); concrete.
Defined.

Lemma drop_be_bytes (j n : nat) (w : Z) :
  (j <= n)%nat -> drop j (be_bytes n w) = be_bytes (n - j) w.
Proof.
  revert j. induction n as [|n IH]; intros j Hj.
  - replace j with 0%nat by lia. reflexivity.
  - destruct j as [|j]; [reflexivity|].
    cbn [be_bytes drop]. rewrite IH by lia. reflexivity.
Qed.

(** The first bytes of a word, up to the last byte of the chunk. *)
Lemma read_sample_bytes_loop_prefix_end (buffer : list Z) (length : Z) (m : nat) :
  forall (k fuel : nat) (r : Z) (s : state) (w : Z),
    0 <= _byte_idx s ->
    _byte_idx s + Z.of_nat k = _sample_bytes s -> _sample_bytes s <= 8 ->
    (S m <= k)%nat ->
    _uval s = partial_word w k ->
    0 <= r -> r + Z.of_nat (S m) = length ->
    occurs_at buffer r (take (S m) (be_bytes k w)) ->
    read_sample_bytes_loop (S (m + fuel)) buffer length r s
    = Some (Return (set_uval (partial_word w (k - S m))
                      (set_byte_idx (_byte_idx s + Z.of_nat (S m)) s)) 0).
Proof.
  induction m as [|m IH]; intros k fuel r s w Hb0 Hb HB Hk Hu Hr Hlen Hocc;
    (destruct k as [|k]; [lia|]);
    cbn [be_bytes take] in Hocc; apply occurs_at_cons in Hocc as [Hbyte Hocc];
    try exact Hr;
    cbn [Nat.add]; rewrite read_sample_bytes_loop_S;
    (destruct (Z.ltb_spec (_byte_idx s) (_sample_bytes s)); [|lia]); cbv zeta;
    cbn [_byte_idx _uval _sample_bytes set_byte_idx set_uval];
    assert (Hacc : Z.lor (_uval s)
                     (wrap_u64 (Z.shiftl (byte_at buffer r)
                                  (BYTE_BITS * (_sample_bytes s - 1 - _byte_idx s))))
                   = partial_word w k)
      by (rewrite Hbyte, Hu; unfold BYTE_BITS, partial_word;
          replace (_sample_bytes s - 1 - _byte_idx s) with (Z.of_nat k) by lia;
          replace (8 * Z.of_nat (S k)) with (8 * (Z.of_nat k + 1)) by lia;
          apply accumulate_byte; lia);
    rewrite Hacc.
  - rewrite inc_check_idx_end by lia. cbn [Z.eqb FALSE].
    replace (S k - 1)%nat with k by lia. reflexivity.
  - rewrite inc_check_idx_inside by lia.
    destruct (Z.eqb_spec (r + 1) 0); [lia|].
    rewrite (IH k fuel (r + 1) _ w);
      cbn [_byte_idx _uval _sample_bytes set_byte_idx set_uval];
      try assumption; try lia; try reflexivity.
    replace (_byte_idx s + 1 + Z.of_nat (S m)) with (_byte_idx s + Z.of_nat (S (S m)))
      by lia.
    replace (S k - S (S m))%nat with (k - S m)%nat by lia.
    reflexivity.
Qed.

Lemma place_word_log (m : list Z) (s : state) (w : Z) :
  place_word (set_log_written m s) w = set_log_written m (place_word s w).
Proof.
  unfold place_word, read_sample_seq_place. cbn.
  destruct (_sweep_idx s <? _sweep_len s - 1); reflexivity.
Qed.

Lemma place_words_log (m : list Z) (ws : list Z) :
  forall s, fold_left place_word ws (set_log_written m s)
            = set_log_written m (fold_left place_word ws s).
Proof.
  induction ws as [|w ws IH]; intros s; [reflexivity|].
  cbn [fold_left]. now rewrite place_word_log, IH.
Qed.

(** A chunk that starts inside a sweep: the rest [be_bytes k w] of the
    word under assembly, the remaining words, the stop run. *)
Lemma callback_resume (s : state) (w : Z) (ws post : list Z) (k : nat) :
  _cancel s = false -> _sweep_valid s = false -> _stop_flags s = 0 ->
  1 <= _sweep_idx s -> 1 <= _nflags s -> 1 <= _sample_bytes s <= 8 ->
  0 <= _byte_idx s -> _byte_idx s + Z.of_nat k = _sample_bytes s ->
  _uval s = partial_word w k ->
  _sweep_idx s + 1 + Z.of_nat (List.length ws) = _sweep_len s ->
  Forall (λ w, 0 <= w < 2 ^ (8 * _sample_bytes s)) ws ->
  (1 <= k)%nat \/ ws <> [] ->
  exists m,
    callback (be_bytes k w ++ concat (map (be_bytes (Z.to_nat (_sample_bytes s))) ws)
              ++ replicate (Z.to_nat (_nflags s)) STOP_FLAG ++ post) s
    = Some (set_log_written m
              (read_stop_seq_commit (fold_left place_word (w :: ws) s) 0).1, 0).
Proof.
  intros Hc Hv Hstop Hidx Hn HB Hb0 Hb Hu Hfull Hws Hne.
  set (n := Z.to_nat (_nflags s)).
  set (B := Z.to_nat (_sample_bytes s)).
  set (W := concat (map (be_bytes B) ws)).
  set (F := replicate n STOP_FLAG).
  set (buffer := be_bytes k w ++ W ++ F ++ post).
  assert (HlenF : List.length F = n) by apply length_replicate.
  assert (HlenW : List.length W = (B * List.length ws)%nat) by apply concat_be_bytes_length.
  assert (Hlenb : List.length buffer
                  = (k + B * List.length ws + n + List.length post)%nat).
  { subst buffer. rewrite !length_app, HlenF, HlenW, be_bytes_length. lia. }
  assert (O1 : occurs_at buffer 0 (be_bytes k w)).
  { apply (occurs_at_middle [] (be_bytes k w)). }
  assert (Hk : Z.of_nat k = Z.of_nat (List.length (be_bytes k w)))
    by now rewrite be_bytes_length.
  assert (O2 : occurs_at buffer (Z.of_nat k) W).
  { subst buffer. rewrite Hk. apply occurs_at_middle. }
  assert (O3 : occurs_at buffer (Z.of_nat k + Z.of_nat (B * List.length ws)) F).
  { subst buffer. rewrite (app_assoc _ W), Hk, <- HlenW, <- Nat2Z.inj_add, <- length_app.
    apply occurs_at_middle. }
  clear Hk.
  assert (Hnz : Z.of_nat n = _nflags s) by (subst n; lia).
  assert (HBz : Z.of_nat B = _sample_bytes s) by (subst B; lia).
  assert (Hlenne : (1 <= k + B * List.length ws)%nat).
  { destruct Hne as [|Hne]; [lia|]. destruct ws; [contradiction|]. cbn [List.length]. nia. }
  clearbody buffer.
  unfold callback. rewrite Hc, Hv.
  destruct (Z.eqb_spec (Z.of_nat (List.length buffer)) 0); [lia|]. cbn [orb].
  unfold callback_parse, callback_phase. rewrite Hstop.
  destruct (Z.eqb_spec (_sweep_idx s) 0); [lia|]. cbn [Z.eqb negb].
  unfold read_sample_seq.
  replace (S (Z.to_nat (_sweep_len s - _sweep_idx s)))
    with (S (S (List.length ws + 0))) by lia.
  rewrite read_sample_seq_loop_S.
  destruct (Z.ltb_spec (_sweep_idx s) (_sweep_len s)); [|lia].
  replace (S (List.length buffer))
    with (S (k + (List.length buffer - k)))%nat by lia.
  rewrite (read_sample_bytes_loop_word buffer _ k _ 0 s w); try assumption; try lia.
  fold (place_word s w).
  destruct (place_word_rel s w) as (Hrel & Hnext & Hb1 & Hu1 & _); [lia|].
  pose proof Hrel as (Hc1 & _ & Hstop1 & _).
  assert (Hcfg : _sweep_len (place_word s w) = _sweep_len s
                 /\ _sample_bytes (place_word s w) = _sample_bytes s).
  { unfold config_of in Hc1. conjs; congruence. }
  destruct Hcfg as (Hl1 & HB1).
  rewrite (read_sample_seq_loop_words buffer _ eq_refl ws);
    rewrite ?HB1, ?Hl1, ?Hnext; try assumption; try lia.
  - cbn [mbind option_bind].
    destruct (Z.eqb_spec (0 + Z.of_nat k + _sample_bytes s * Z.of_nat (List.length ws)) 0);
      [nia|].
    set (s2 := fold_left place_word ws (place_word s w)).
    destruct (place_words_rel ws (place_word s w)) as (Hrel2 & _); [lia | lia |].
    fold s2 in Hrel2. destruct Hrel2 as (Hc2 & _ & Hstop2 & _).
    assert (Hn2 : _nflags s2 = _nflags s).
    { unfold config_of in Hc1, Hc2. congruence. }
    unfold read_stop_seq.
    replace (S (S (List.length buffer)))
      with (S (S ((n - 1) + (List.length buffer - (n - 1)))))%nat by lia.
    rewrite (read_stop_seq_loop_flags buffer _ (n - 1)); try lia.
    + unfold read_stop_seq_commit, read_stop_seq_cleanup. cbn [mbind option_bind].
      match goal with
      | |- context [callback_log ?b ?l ?r ?x] =>
          destruct (callback_log_frame b l r x) as [m ->]
      end.
      eexists. reflexivity.
    + replace (S (n - 1)) with n by lia.
      replace (0 + Z.of_nat k + _sample_bytes s * Z.of_nat (List.length ws))
        with (Z.of_nat k + Z.of_nat (B * List.length ws)) by nia.
      exact O3.
Qed.

Lemma partial_word_whole (w : Z) (k : nat) :
  0 <= w < 2 ^ (8 * Z.of_nat k) -> partial_word w k = 0.
Proof.
  intros Hw. unfold partial_word.
  rewrite Z.shiftr_div_pow2, Z.div_small by lia. apply Z.shiftl_0_l.
Qed.

(** X10: a chunk boundary inside the samples, once the first sample is
    complete, does no harm.  From a parser at rest, at a width where
    [sample_val] stands for the source ([decoder_exact]): when the first
    chunk holds bytes that are not start flags, the start run, at least one
    whole sample and the first [j] bytes, [1 <= j <= sample_bytes], of the
    next one, and the second chunk starts with the rest of that sample,
    the remaining samples and the stop run, the sweep is published after
    the second call as from a whole frame.  (When the boundary falls after
    the last byte of the sample, [j = sample_bytes], another sample has to
    follow.) *)
Theorem split_inside_sweep (s : state) (pre ws1 ws2 post : list Z) (w : Z) (j : nat) :
  at_rest s ->
  decoder_exact (_fft s) (_sample_bits s) ->
  1 <= _nflags s -> 1 <= _sample_bytes s <= 8 ->
  (1 <= List.length ws1)%nat ->
  Z.of_nat (List.length ws1 + 1 + List.length ws2) = _sweep_len s ->
  Forall (λ b, b <> START_FLAG) pre ->
  Forall (λ w, 0 <= w < 2 ^ (8 * _sample_bytes s)) (ws1 ++ w :: ws2) ->
  (1 <= j)%nat -> Z.of_nat j <= _sample_bytes s ->
  Z.of_nat j < _sample_bytes s \/ ws2 <> [] ->
  exists s',
    feed [pre ++ replicate (Z.to_nat (_nflags s)) START_FLAG
            ++ concat (map (be_bytes (Z.to_nat (_sample_bytes s))) ws1)
            ++ take j (be_bytes (Z.to_nat (_sample_bytes s)) w);
          drop j (be_bytes (Z.to_nat (_sample_bytes s)) w)
            ++ concat (map (be_bytes (Z.to_nat (_sample_bytes s))) ws2)
            ++ replicate (Z.to_nat (_nflags s)) STOP_FLAG ++ post] s = Some s'
    /\ published s (ws1 ++ w :: ws2) s'.
Proof.
  intros Hrest _ Hn HB Hne1 HL Hpre Hall Hj1 Hj Hne.
  pose proof Hrest as (Hc & Hv & Hstart & Hstop & Hidx & Hbyte & Huval).
  apply Forall_app in Hall as [Hws1 Hall]. apply Forall_cons in Hall as [Hw Hws2].
  set (n := Z.to_nat (_nflags s)).
  set (k := Z.to_nat (_sample_bytes s)).
  set (F := replicate n START_FLAG).
  set (W := concat (map (be_bytes k) ws1)).
  set (T := take j (be_bytes k w)).
  set (c1 := pre ++ F ++ W ++ T).
  set (s1 := set_start_flags (_nflags s) s).
  set (s2 := fold_left place_word ws1 s1).
  assert (Hnz : Z.of_nat n = _nflags s) by (subst n; lia).
  assert (Hkz : Z.of_nat k = _sample_bytes s) by (subst k; lia).
  destruct (place_words_rel ws1 s1) as (Hrel & Hidx2 & Hzero & _); [cbn; lia | cbn; lia |].
  fold s2 in Hrel, Hidx2, Hzero.
  destruct Hrel as (Hc2 & Hstart2 & Hstop2 & Hv2 & _).
  assert (Hcfg : _sweep_len s2 = _sweep_len s /\ _sample_bytes s2 = _sample_bytes s
                 /\ _nflags s2 = _nflags s /\ _cancel s2 = _cancel s).
  { unfold config_of in Hc2. cbn in Hc2. conjs; congruence. }
  destruct Hcfg as (Hl2 & HB2 & Hn2 & Hcan2).
  cbn in Hidx2, Hstop2, Hv2, Hstart2.
  destruct Hzero as [Hb2 Hu2]; [destruct ws1; [cbn in Hne1; lia | discriminate]|].
  (* the first chunk ends inside the sample *)
  assert (Hcb1 : exists m1,
             callback c1 s
             = Some (set_log_written m1
                       (set_uval (partial_word w (k - j))
                          (set_byte_idx (Z.of_nat j) s2)), 0)).
  { assert (HlenF : List.length F = n) by apply length_replicate.
    assert (HlenW : List.length W = (k * List.length ws1)%nat)
      by apply concat_be_bytes_length.
    assert (HlenT : List.length T = j).
    { subst T. rewrite length_take, be_bytes_length. lia. }
    assert (Hlenb : List.length c1 = (List.length pre + n + k * List.length ws1 + j)%nat).
    { subst c1. rewrite !length_app, HlenF, HlenW, HlenT. lia. }
    assert (O1 : occurs_at c1 0 pre) by apply (occurs_at_middle [] pre).
    assert (O2 : occurs_at c1 (Z.of_nat (List.length pre)) F) by apply occurs_at_middle.
    assert (O3 : occurs_at c1 (Z.of_nat (List.length pre) + Z.of_nat n) W).
    { subst c1. rewrite (app_assoc pre F), <- Nat2Z.inj_add, <- HlenF, <- length_app.
      apply occurs_at_middle. }
    assert (O4 : occurs_at c1 (Z.of_nat (List.length pre) + Z.of_nat n
                               + Z.of_nat (k * List.length ws1)) T).
    { subst c1. rewrite (app_assoc pre F), (app_assoc _ W), <- !Nat2Z.inj_add,
        <- HlenF, <- HlenW, <- !length_app.
      rewrite <- (app_nil_r T) at 1. apply occurs_at_middle. }
    clearbody c1.
    unfold callback. rewrite Hc, Hv.
    destruct (Z.eqb_spec (Z.of_nat (List.length c1)) 0); [lia|]. cbn [orb].
    unfold callback_parse, callback_phase. rewrite Hstop, Hidx. cbn [Z.eqb negb].
    unfold read_start_seq.
    replace (S (List.length c1))
      with (List.length pre + S (n + (k * List.length ws1 + j)))%nat by lia.
    rewrite (read_start_seq_loop_noise c1 _ pre); try assumption; try lia.
    rewrite (read_start_seq_loop_flags c1 _ n); try assumption; try lia.
    cbn [mbind option_bind].
    destruct (Z.eqb_spec (0 + Z.of_nat (List.length pre) + Z.of_nat n) 0); [lia|].
    fold s1. unfold read_sample_seq.
    replace (S (Z.to_nat (_sweep_len s1 - _sweep_idx s1)))
      with (List.length ws1 + S (S (List.length ws2)))%nat by (subst s1; cbn; lia).
    rewrite (read_sample_seq_loop_words_more c1 ws1);
      try assumption; subst s1; cbn [_byte_idx _uval _sample_bytes _sweep_idx _sweep_len
                                       set_start_flags]; try lia; try assumption;
      try nia.
    fold s2.
    rewrite read_sample_seq_loop_S.
    destruct (Z.ltb_spec (_sweep_idx s2) (_sweep_len s2)); [|lia].
    replace (S (List.length c1))
      with (S ((j - 1) + (List.length c1 - (j - 1))))%nat by lia.
    rewrite (read_sample_bytes_loop_prefix_end c1 _ (j - 1) k _ _ s2 w); try lia.
    - cbn [mbind option_bind Z.eqb].
      match goal with
      | |- context [callback_log ?b ?l ?r ?x] =>
          destruct (callback_log_frame b l r x) as [m1 ->]
      end.
      eexists.
      replace (_byte_idx s2 + Z.of_nat (S (j - 1))) with (Z.of_nat j) by lia.
      replace (k - S (j - 1))%nat with (k - j)%nat by lia.
      reflexivity.
    - rewrite Hu2. symmetry. apply partial_word_whole. now rewrite Hkz.
    - replace (S (j - 1)) with j by lia.
      replace (0 + Z.of_nat (List.length pre) + Z.of_nat n
               + _sample_bytes s * Z.of_nat (List.length ws1))
        with (Z.of_nat (List.length pre) + Z.of_nat n + Z.of_nat (k * List.length ws1))
        by nia.
      exact O4. }
  destruct Hcb1 as [m1 Hcb1].
  set (s3 := set_log_written m1
               (set_uval (partial_word w (k - j)) (set_byte_idx (Z.of_nat j) s2))) in *.
  (* the second chunk takes up the sample *)
  destruct (callback_resume s3 w ws2 post (k - j)) as [m2 Hcb2];
    subst s3; cbn [_cancel _sweep_valid _stop_flags _sweep_idx _nflags _sample_bytes
                     _byte_idx _uval _sweep_len set_log_written set_uval set_byte_idx];
    try lia; try congruence; try reflexivity.
  { rewrite HB2. exact Hws2. }
  { destruct Hne as [|Hne]; [left; lia | right; exact Hne]. }
  set (s3 := set_log_written m1
               (set_uval (partial_word w (k - j)) (set_byte_idx (Z.of_nat j) s2))) in *.
  change (_sample_bytes s3) with (_sample_bytes s2) in Hcb2.
  change (_nflags s3) with (_nflags s2) in Hcb2.
  rewrite HB2, Hn2 in Hcb2. fold k n in Hcb2.
  rewrite <- drop_be_bytes in Hcb2 by lia.
  eexists. split.
  - cbn [feed]. fold n k F W T c1. rewrite Hcb1. cbn [mbind option_bind]. fold s3.
    rewrite Hcb2. reflexivity.
  - cbn [fold_left].
    change (place_word s3 w) with (place_word (set_log_written m1 s2) w).
    rewrite place_word_log, place_words_log.
    change (fold_left place_word ws2 (place_word s2 w))
      with (fold_left place_word (w :: ws2) s2).
    subst s2. rewrite <- fold_left_app.
    apply (after_frame_published s (ws1 ++ w :: ws2) m2); try assumption.
    rewrite length_app. cbn [List.length]. lia.
Qed.

Lemma split_inside_sweep_witness :
  exists s',
    feed [[] ++ replicate (Z.to_nat (_nflags wide_start)) START_FLAG
            ++ concat (map (be_bytes (Z.to_nat (_sample_bytes wide_start))) [0x123])
            ++ take 1 (be_bytes (Z.to_nat (_sample_bytes wide_start)) 0xFFD);
          drop 1 (be_bytes (Z.to_nat (_sample_bytes wide_start)) 0xFFD)
            ++ concat (map (be_bytes (Z.to_nat (_sample_bytes wide_start))) [0x456])
            ++ replicate (Z.to_nat (_nflags wide_start)) STOP_FLAG ++ []] wide_start
    = Some s'
    /\ published wide_start ([0x123] ++ 0xFFD :: [0x456]) s'.
Proof.
  apply (split_inside_sweep wide_start [] [0x123] [0x456] [] 0xFFD 1);
    cbn [app]; try (left; concrete); concrete.
Defined.

(** ** Chunks that end in the first sample or with the last one *)

Lemma start_scan_done (n k : Z) (xs : list Z) :
  n <= k -> start_scan n k xs = (k, xs).
Proof.
  intros H. destruct xs as [|b xs]; [reflexivity|].
  cbn [start_scan]. destruct (Z.leb_spec n k); [reflexivity | lia].
Qed.

Lemma start_scan_rest_shorter (n : Z) (xs : list Z) :
  forall k, k < n ->
    xs <> [] -> (List.length (start_scan n k xs).2 < List.length xs)%nat.
Proof.
  induction xs as [|b xs IH]; intros k Hk Hne; [contradiction|].
  cbn [start_scan]. destruct (Z.leb_spec n k); [lia|].
  set (k1 := if b =? START_FLAG then k + 1 else 0).
  destruct (Z.lt_ge_cases k1 n) as [Hlt|Hge].
  - destruct xs as [|b' xs']; [cbn; lia|].
    specialize (IH k1 Hlt ltac:(discriminate)). cbn [List.length] in *. lia.
  - rewrite start_scan_done by lia. cbn. lia.
Qed.

Lemma start_scan_count (n : Z) (xs : list Z) :
  forall k, 0 <= k < n -> 0 <= (start_scan n k xs).1 <= n.
Proof.
  induction xs as [|b xs IH]; intros k Hk; [cbn; lia|].
  cbn [start_scan]. destruct (Z.leb_spec n k); [lia|].
  set (k1 := if b =? START_FLAG then k + 1 else 0).
  assert (0 <= k1 <= n) by (subst k1; destruct (_ =? _); lia).
  destruct (Z.lt_ge_cases k1 n) as [Hlt|Hge].
  - apply IH. lia.
  - rewrite start_scan_done by lia. cbn. lia.
Qed.

(** [read_start_seq] computes the scan. *)
Lemma read_start_seq_loop_scan (buffer : list Z) (xs : list Z) :
  forall (pre : list Z) (s : state) (fuel : nat),
    buffer = pre ++ xs -> xs <> [] ->
    _start_flags s < _nflags s ->
    (List.length xs < fuel)%nat ->
    read_start_seq_loop fuel buffer (Z.of_nat (List.length buffer))
      (Z.of_nat (List.length pre)) s
    = Some (set_start_flags (start_scan (_nflags s) (_start_flags s) xs).1 s,
            index_of_rest (Z.of_nat (List.length buffer))
              (start_scan (_nflags s) (_start_flags s) xs).2).
Proof.
  induction xs as [|b xs IH]; intros pre s fuel Hbuf Hne Hk Hfuel; [contradiction|].
  destruct fuel as [|fuel]; [cbn in Hfuel; lia|].
  rewrite read_start_seq_loop_S.
  destruct (Z.ltb_spec (_start_flags s) (_nflags s)); [|lia].
  assert (Hb : byte_at buffer (Z.of_nat (List.length pre)) = b).
  { unfold byte_at. rewrite Nat2Z.id, Hbuf, lookup_app_r by lia.
    now rewrite Nat.sub_diag. }
  rewrite Hb. cbv zeta.
  cbn [start_scan]. destruct (Z.leb_spec (_nflags s) (_start_flags s)); [lia|].
  assert (Hlen : List.length buffer = (List.length pre + S (List.length xs))%nat).
  { rewrite Hbuf, length_app. reflexivity. }
  set (k1 := if b =? START_FLAG then _start_flags s + 1 else 0).
  assert (Hs1 : (if b =? START_FLAG
                 then set_start_flags (_start_flags s + 1) s
                 else set_start_flags 0 s) = set_start_flags k1 s).
  { subst k1. destruct (_ =? _); reflexivity. }
  rewrite Hs1.
  destruct xs as [|b' xs'].
  - rewrite inc_check_idx_end by (rewrite Hlen; cbn [List.length]; lia).
    cbn [Z.eqb FALSE start_scan fst snd index_of_rest]. reflexivity.
  - rewrite inc_check_idx_inside by (rewrite Hlen; cbn [List.length]; lia).
    destruct (Z.eqb_spec (Z.of_nat (List.length pre) + 1) 0); [lia|].
    destruct (Z.lt_ge_cases k1 (_nflags s)) as [Hlt|Hge].
    + replace (Z.of_nat (List.length pre) + 1)
        with (Z.of_nat (List.length (pre ++ [b]))) by (rewrite length_app; cbn; lia).
      rewrite (IH (pre ++ [b]) (set_start_flags k1 s) fuel);
        cbn [_start_flags _nflags set_start_flags];
        [reflexivity | rewrite Hbuf, <- app_assoc; reflexivity | discriminate
        | exact Hlt | cbn [List.length] in *; lia].
    + rewrite start_scan_done by lia. cbn [fst snd index_of_rest].
      destruct fuel as [|fuel]; [cbn [List.length] in Hfuel; lia|].
      rewrite read_start_seq_loop_S. cbn [_start_flags _nflags set_start_flags].
      destruct (Z.ltb_spec k1 (_nflags s)); [lia|].
      do 2 f_equal. rewrite Hlen. cbn [List.length]. lia.
Qed.

Lemma read_start_seq_scan (c : list Z) (s : state) :
  c <> [] -> _start_flags s < _nflags s ->
  read_start_seq c (Z.of_nat (List.length c)) 0 s
  = Some (set_start_flags (start_scan (_nflags s) (_start_flags s) c).1 s,
          index_of_rest (Z.of_nat (List.length c))
            (start_scan (_nflags s) (_start_flags s) c).2).
Proof.
  intros Hne Hk. unfold read_start_seq.
  apply (read_start_seq_loop_scan c c [] s (S (List.length c)) eq_refl Hne Hk). lia.
Qed.

Section Fill.

Variable buffer : list Z.
Variable length : Z.
Hypothesis length_buffer : length = Z.of_nat (List.length buffer).

(** The bytes still missing from a sample, whatever they are, with more
    of the chunk behind them. *)
Lemma read_sample_bytes_loop_skip (m : nat) :
  forall (fuel : nat) (r : Z) (s : state),
    0 <= _byte_idx s -> _byte_idx s + Z.of_nat (S m) = _sample_bytes s ->
    0 <= r -> r + Z.of_nat (S m) < length ->
    exists u,
      read_sample_bytes_loop (S (S m + fuel)) buffer length r s
      = Some (Next (set_uval u (set_byte_idx (_sample_bytes s) s)) (r + Z.of_nat (S m))).
Proof.
  induction m as [|m IH]; intros fuel r s Hb0 Hb Hr Hlen;
    cbn [Nat.add]; rewrite read_sample_bytes_loop_S;
    (destruct (Z.ltb_spec (_byte_idx s) (_sample_bytes s)); [|lia]); cbv zeta;
    rewrite inc_check_idx_inside by lia;
    (destruct (Z.eqb_spec (r + 1) 0); [lia|]).
  - rewrite read_sample_bytes_loop_S. cbn [_byte_idx _sample_bytes set_byte_idx set_uval].
    destruct (Z.ltb_spec (_byte_idx s + 1) (_sample_bytes s)); [lia|].
    eexists. replace (_byte_idx s + 1) with (_sample_bytes s) by lia.
    replace (r + Z.of_nat 1) with (r + 1) by lia. reflexivity.
  - edestruct (IH fuel (r + 1)) as [u Hu]; [| | | | cbn [Nat.add] in Hu; rewrite Hu].
    + cbn [_byte_idx set_byte_idx set_uval]. lia.
    + cbn [_byte_idx _sample_bytes set_byte_idx set_uval]. lia.
    + lia.
    + lia.
    + exists u. cbn [_sample_bytes set_byte_idx set_uval].
      replace (r + 1 + Z.of_nat (S m)) with (r + Z.of_nat (S (S m))) by lia.
      reflexivity.
Qed.

(** The bytes that complete a sweep, whatever they are, up to the last byte
    of the chunk: all samples but the last are placed, the last one is
    assembled and not placed. *)
Lemma read_sample_seq_loop_fill (m : nat) :
  forall (fuel : nat) (r : Z) (s : state),
    0 <= _sweep_idx s -> _sweep_idx s + Z.of_nat (S m) = _sweep_len s ->
    0 <= _byte_idx s < _sample_bytes s ->
    0 <= r -> r + (Z.of_nat (S m) * _sample_bytes s - _byte_idx s) = length ->
    exists s',
      read_sample_seq_loop (S (m + fuel)) buffer length r s = Some (s', 0)
      /\ samples_rel s s'
      /\ _sweep_idx s' = _sweep_len s - 1
      /\ _byte_idx s' = _sample_bytes s.
Proof.
  induction m as [|m IH]; intros fuel r s Hidx Hfull Hb Hr Hlen;
    cbn [Nat.add]; rewrite read_sample_seq_loop_S;
    (destruct (Z.ltb_spec (_sweep_idx s) (_sweep_len s)); [|lia]).
  - set (k := Z.to_nat (_sample_bytes s - _byte_idx s)).
    replace (S (List.length buffer)) with (S ((k - 1) + (List.length buffer - (k - 1))))%nat
      by (subst k; lia).
    destruct (read_sample_bytes_loop_end buffer length (k - 1)
                (List.length buffer - (k - 1))%nat r s) as [u Hu];
      [subst k; lia | lia | subst k; lia |].
    rewrite Hu. eexists. split; [reflexivity|].
    split; [apply (samples_rel_bytes (_byte_idx s + Z.of_nat (S (k - 1))) u), samples_rel_refl|].
    cbn [_sweep_idx _byte_idx set_uval set_byte_idx]. subst k. lia.
  - set (k := Z.to_nat (_sample_bytes s - _byte_idx s)).
    assert (Hk : (1 <= k)%nat) by (subst k; lia).
    replace (S (List.length buffer))
      with (S (S (k - 1) + (List.length buffer - k)))%nat by (subst k; nia).
    destruct (read_sample_bytes_loop_skip (k - 1) (List.length buffer - k)%nat r s)
      as [u Hu]; [lia | subst k; lia | lia | subst k; nia |].
    rewrite Hu.
    set (s1 := set_uval u (set_byte_idx (_sample_bytes s) s)).
    destruct (read_sample_seq_place_rel s1) as [Hrel1 Hnext]; [cbn; lia|].
    assert (Hcfg : _sweep_len (read_sample_seq_place s1) = _sweep_len s
                   /\ _sample_bytes (read_sample_seq_place s1) = _sample_bytes s).
    { destruct Hrel1 as (Hc & _). unfold config_of in Hc.
      split; [transitivity (_sweep_len s1) | transitivity (_sample_bytes s1)];
        [congruence | reflexivity | congruence | reflexivity]. }
    destruct Hcfg as (Hl1 & HB1).
    assert (Hb1 : _byte_idx (read_sample_seq_place s1) = 0).
    { unfold read_sample_seq_place. cbn. destruct (_ <? _); reflexivity. }
    change (_sweep_idx s1) with (_sweep_idx s) in Hnext.
    destruct (IH fuel (r + Z.of_nat (S (k - 1))) (read_sample_seq_place s1))
      as (s' & Hrun & Hrel & Hidx' & Hb');
      rewrite ?Hl1, ?HB1, ?Hb1, ?Hnext; try lia.
    exists s'. split; [exact Hrun|].
    split; [|rewrite Hl1, HB1 in *; split; assumption].
    apply (samples_rel_bytes (_sample_bytes s) u). fold s1.
    apply (samples_rel_trans s1 (read_sample_seq_place s1) s'); [cbn; lia | | ]; assumption.
Qed.

(** The same when the sample under assembly may have all its bytes
    already, as after a chunk that ended between two samples. *)
Lemma read_sample_seq_loop_fill_from (m : nat) (fuel : nat) (r : Z) (s : state) :
  0 <= _sweep_idx s -> _sweep_idx s + Z.of_nat (S m) = _sweep_len s ->
  0 <= _byte_idx s <= _sample_bytes s ->
  0 <= r -> 1 <= Z.of_nat (S m) * _sample_bytes s - _byte_idx s ->
  r + (Z.of_nat (S m) * _sample_bytes s - _byte_idx s) = length ->
  exists s',
    read_sample_seq_loop (S (m + fuel)) buffer length r s = Some (s', 0)
    /\ samples_rel s s'
    /\ _sweep_idx s' = _sweep_len s - 1
    /\ _byte_idx s' = _sample_bytes s.
Proof.
  intros Hidx Hfull Hb Hr Hpos Hlen.
  destruct (Z.lt_ge_cases (_byte_idx s) (_sample_bytes s)) as [Hlt|Hge].
  { apply read_sample_seq_loop_fill; assumption || lia. }
  destruct m as [|m]; [lia|].
  cbn [Nat.add]. rewrite read_sample_seq_loop_S.
  destruct (Z.ltb_spec (_sweep_idx s) (_sweep_len s)); [|lia].
  rewrite read_sample_bytes_loop_S.
  destruct (Z.ltb_spec (_byte_idx s) (_sample_bytes s)); [lia|].
  destruct (read_sample_seq_place_rel s) as [Hrel1 Hnext]; [lia|].
  assert (Hcfg : _sweep_len (read_sample_seq_place s) = _sweep_len s
                 /\ _sample_bytes (read_sample_seq_place s) = _sample_bytes s).
  { destruct Hrel1 as (Hc & _). unfold config_of in Hc. split; congruence. }
  destruct Hcfg as (Hl1 & HB1).
  assert (Hb1 : _byte_idx (read_sample_seq_place s) = 0).
  { unfold read_sample_seq_place. cbn. destruct (_ <? _); reflexivity. }
  destruct (read_sample_seq_loop_fill m fuel r (read_sample_seq_place s))
    as (s' & Hrun & Hrel & Hidx' & Hb');
    rewrite ?Hl1, ?HB1, ?Hb1, ?Hnext; try lia.
  exists s'. split; [exact Hrun|].
  split; [|rewrite Hl1, HB1 in *; split; assumption].
  apply (samples_rel_trans s (read_sample_seq_place s) s'); [lia | | ]; assumption.
Qed.

End Fill.

Lemma start_scan_nonempty (n k : Z) (c rest : list Z) :
  k < n -> start_scan n k c = (n, rest) -> c <> [].
Proof. intros Hk Hscan ->. cbn in Hscan. injection Hscan as Hn _. lia. Qed.

(** X11: a start run that is complete on the last byte of a chunk, or at
    most one sample before it, stalls the parser.  Let no sweep be waiting
    and the parser be looking for the start run ([_stop_flags = 0],
    [_sweep_idx = 0], [0 <= _start_flags < _nflags]), and let the scan of
    the chunk [c] from the current count ([start_scan]) bring the count to
    [_nflags] with the bytes [rest] left over, where [rest] is empty or no
    longer than what the sample under assembly still lacks,
    [_sample_bytes - _byte_idx].  Then for every sequence of later chunks
    [callback] returns, publishes no sweep and stores no sample: the call
    ends with [_start_flags = _nflags] and [_sweep_idx = 0], and every
    later call enters [read_start_seq], which returns the index zero at
    once. *)
Theorem boundary_in_first_sample_stalls
    (s : state) (c rest : list Z) (chunks : list (list Z)) :
  _cancel s = false -> _sweep_valid s = false ->
  _stop_flags s = 0 -> _sweep_idx s = 0 ->
  0 <= _start_flags s < _nflags s ->
  0 <= _byte_idx s -> 1 <= _sweep_len s ->
  start_scan (_nflags s) (_start_flags s) c = (_nflags s, rest) ->
  Z.of_nat (List.length rest) <= _sample_bytes s - _byte_idx s ->
  exists s',
    feed (c :: chunks) s = Some s' /\ _sweep_valid s' = false /\ sweep s' = sweep s.
Proof.
  intros Hc Hv Hstop Hidx Hk Hb HL Hscan Hrest.
  assert (Hne : c <> []) by (apply (start_scan_nonempty _ _ _ _ (proj2 Hk) Hscan)).
  assert (Hshort : (List.length rest < List.length c)%nat).
  { pose proof (start_scan_rest_shorter (_nflags s) c (_start_flags s) (proj2 Hk) Hne) as H.
    now rewrite Hscan in H. }
  assert (Hstep : exists s1,
             callback c s = Some (s1, 0) /\ dead s1 /\ sweep s1 = sweep s).
  { unfold callback. rewrite Hc, Hv.
    destruct (Z.eqb_spec (Z.of_nat (List.length c)) 0); [lia|]. cbn [orb].
    unfold callback_parse, callback_phase. rewrite Hstop, Hidx. cbn [Z.eqb negb].
    rewrite (read_start_seq_scan c s Hne (proj2 Hk)).
    rewrite Hscan. cbn [fst snd mbind option_bind].
    assert (Hdead : forall (b u : Z) (m : list Z),
               dead (set_log_written m (set_uval u (set_byte_idx b
                                         (set_start_flags (_nflags s) s))))).
    { intros b u m. unfold dead. cbn. conjs; try assumption. left. split; [assumption | lia]. }
    destruct rest as [|b0 rest'].
    - cbn [index_of_rest Z.eqb mbind option_bind].
      match goal with
      | |- context [callback_log ?b ?l ?r ?x] =>
          destruct (callback_log_frame b l r x) as [m ->]
      end.
      eexists. split; [reflexivity|]. split; [|reflexivity].
      exact (Hdead (_byte_idx s) (_uval s) (log_written s ++ take m c)).
    - cbn [index_of_rest]. cbn [List.length] in *.
      destruct (Z.eqb_spec (Z.of_nat (List.length c) - Z.of_nat (S (List.length rest'))) 0);
        [lia|].
      unfold read_sample_seq. cbn [read_sample_seq_loop].
      cbn [_sweep_idx _sweep_len set_start_flags].
      destruct (Z.ltb_spec (_sweep_idx s) (_sweep_len s)); [|lia].
      replace (S (List.length c))
        with (S (List.length rest' + (List.length c - List.length rest')))%nat by lia.
      edestruct (read_sample_bytes_loop_end c (Z.of_nat (List.length c))
                   (List.length rest') (List.length c - List.length rest')%nat
                   (Z.of_nat (List.length c) - Z.of_nat (S (List.length rest')))
                   (set_start_flags (_nflags s) s)) as [u Hu];
        [| | | rewrite Hu].
      + cbn [_byte_idx _sample_bytes set_start_flags]. lia.
      + lia.
      + lia.
      + cbn [mbind option_bind Z.eqb].
        match goal with
        | |- context [callback_log ?b ?l ?r ?x] =>
            destruct (callback_log_frame b l r x) as [m ->]
        end.
        eexists. split; [reflexivity|]. split; [|reflexivity].
        apply Hdead. }
  destruct Hstep as (s1 & Hrun & Hdead & Hsw).
  destruct (feed_dead chunks s1 Hdead) as (s' & Hfeed & (Hv' & _) & Hsw' & _).
  exists s'. cbn [feed]. rewrite Hrun. cbn [mbind option_bind].
  conjs; [exact Hfeed | exact Hv' | congruence].
Qed.

Lemma boundary_in_first_sample_stalls_witness :
  exists s1,
    feed [[0x00; 0xFF]] wide_start = Some s1
    /\ _start_flags s1 = 1
    /\ exists s',
         feed ([0xFF; 0x01] :: [wide_tail; frame wide_start [0x123; 0xFFD; 0x456]]) s1
         = Some s'
         /\ _sweep_valid s' = false /\ sweep s' = sweep s1.
Proof.
  eexists.
  split; [vm_compute; reflexivity|].
  split; [reflexivity|].
  apply (boundary_in_first_sample_stalls _ [0xFF; 0x01] [0x01]
           [wide_tail; frame wide_start [0x123; 0xFFD; 0x456]]); concrete.
Defined.

(** X12: a chunk that ends with the last byte of the last sample of a
    sweep stalls the parser, whether the sweep started in that chunk or
    before it.  Let no sweep be waiting, no stop flag be counted,
    [0 <= _sweep_idx < _sweep_len], [1 <= _sample_bytes] and
    [0 <= _byte_idx <= _sample_bytes]; let [samples] be the bytes of the
    chunk [c] that are read as sample bytes, that is all of [c] when a
    sample has been placed already ([_sweep_idx >= 1]), and the bytes
    after the start run when the parser is looking for it; and let their
    number be what the sweep still lacks,
    [(_sweep_len - _sweep_idx) * _sample_bytes - _byte_idx].  Then for
    every sequence of later chunks [callback] returns and publishes no
    sweep. *)
Theorem boundary_after_last_sample_stalls
    (s : state) (c samples : list Z) (chunks : list (list Z)) :
  _cancel s = false -> _sweep_valid s = false -> _stop_flags s = 0 ->
  0 <= _sweep_idx s < _sweep_len s ->
  1 <= _sample_bytes s -> 0 <= _byte_idx s <= _sample_bytes s ->
  (1 <= _sweep_idx s /\ c = samples)
  \/ (_sweep_idx s = 0 /\ 0 <= _start_flags s < _nflags s
      /\ start_scan (_nflags s) (_start_flags s) c = (_nflags s, samples)) ->
  Z.of_nat (List.length samples)
  = (_sweep_len s - _sweep_idx s) * _sample_bytes s - _byte_idx s ->
  exists s',
    feed (c :: chunks) s = Some s' /\ _sweep_valid s' = false.
Proof.
  intros Hc Hv Hstop Hidx HB Hb Hentry Hlen.
  set (m := Z.to_nat (_sweep_len s - _sweep_idx s - 1)).
  assert (Hm : Z.of_nat (S m) = _sweep_len s - _sweep_idx s) by (subst m; lia).
  assert (Hstep : exists s1, callback c s = Some (s1, 0) /\ dead s1).
  { unfold callback. rewrite Hc, Hv.
    destruct Hentry as [[Hin ->] | (Hzero & Hk & Hscan)].
    - (* the chunk starts inside the sweep *)
      destruct samples as [|b0 rest'].
      { (* nothing is missing: the state is one the parser does not leave *)
        cbn [List.length Z.of_nat Z.eqb orb]. exists s. split; [reflexivity|].
        cbn [List.length] in Hlen. unfold dead. conjs; try assumption.
        right. right. conjs; nia. }
      set (samples := b0 :: rest') in *.
      assert (Hpos : 1 <= Z.of_nat (List.length samples)) by (subst samples; cbn; lia).
      destruct (Z.eqb_spec (Z.of_nat (List.length samples)) 0); [lia|]. cbn [orb].
      unfold callback_parse, callback_phase. rewrite Hstop. cbn [Z.eqb negb].
      destruct (Z.eqb_spec (_sweep_idx s) 0); [lia|]. cbn [negb].
      unfold read_sample_seq.
      replace (S (Z.to_nat (_sweep_len s - _sweep_idx s))) with (S (m + 1))
        by (subst m; lia).
      destruct (read_sample_seq_loop_fill_from samples (Z.of_nat (List.length samples))
                  eq_refl m 1 0 s) as (s1 & Hrun & Hrel & Hidx1 & Hb1);
        rewrite ?Hm; try lia.
      rewrite Hrun. cbn [mbind option_bind Z.eqb].
      match goal with
      | |- context [callback_log ?b ?l ?r ?x] =>
          destruct (callback_log_frame b l r x) as [lg ->]
      end.
      eexists. split; [reflexivity|].
      destruct Hrel as (Hcfg & _ & Hstop1 & Hv1 & _).
      assert (Hsame : _sweep_len s1 = _sweep_len s /\ _sample_bytes s1 = _sample_bytes s)
        by (unfold config_of in Hcfg; conjs; congruence).
      destruct Hsame as (Hl1 & HB1).
      apply dead_log. unfold dead. conjs; [congruence | congruence |].
      right. right. conjs; lia.
    - (* the sweep starts in this chunk *)
      assert (Hne : c <> []) by (apply (start_scan_nonempty _ _ _ _ (proj2 Hk) Hscan)).
      assert (Hshort : (List.length samples < List.length c)%nat).
      { pose proof (start_scan_rest_shorter (_nflags s) c (_start_flags s) (proj2 Hk) Hne)
          as H.
        now rewrite Hscan in H. }
      destruct (Z.eqb_spec (Z.of_nat (List.length c)) 0); [lia|]. cbn [orb].
      unfold callback_parse, callback_phase. rewrite Hstop, Hzero. cbn [Z.eqb negb].
      rewrite (read_start_seq_scan c s Hne (proj2 Hk)).
      rewrite Hscan. cbn [fst snd mbind option_bind].
      destruct samples as [|b0 rest'].
      { (* the start run ends the chunk and the one sample has its bytes *)
        cbn [index_of_rest Z.eqb mbind option_bind].
        match goal with
        | |- context [callback_log ?b ?l ?r ?x] =>
            destruct (callback_log_frame b l r x) as [lg ->]
        end.
        eexists. split; [reflexivity|].
        apply dead_log. unfold dead. cbn. conjs; try assumption.
        left. split; [assumption | lia]. }
      cbn [index_of_rest].
      set (r := Z.of_nat (List.length c) - Z.of_nat (List.length (b0 :: rest'))) in *.
      assert (Hr : 0 < r) by (subst r; lia).
      assert (Hpos : 1 <= Z.of_nat (List.length (b0 :: rest'))) by (cbn; lia).
      destruct (Z.eqb_spec r 0); [lia|].
      set (s0 := set_start_flags (_nflags s) s).
      unfold read_sample_seq.
      replace (S (Z.to_nat (_sweep_len s0 - _sweep_idx s0))) with (S (m + 1))
        by (subst m s0; cbn; lia).
      destruct (read_sample_seq_loop_fill_from c (Z.of_nat (List.length c)) eq_refl
                  m 1 r s0) as (s1 & Hrun & Hrel & Hidx1 & Hb1);
        subst s0; cbn [_sweep_idx _sweep_len _byte_idx _sample_bytes set_start_flags];
        rewrite ?Hm; try lia.
      rewrite Hrun. cbn [mbind option_bind Z.eqb].
      match goal with
      | |- context [callback_log ?b ?l ?r ?x] =>
          destruct (callback_log_frame b l r x) as [lg ->]
      end.
      eexists. split; [reflexivity|].
      destruct Hrel as (Hcfg & Hstart1 & Hstop1 & Hv1 & _).
      cbn [_start_flags _stop_flags _sweep_valid set_start_flags] in Hstart1, Hstop1, Hv1.
      assert (Hsame : _sweep_len s1 = _sweep_len s /\ _sample_bytes s1 = _sample_bytes s
                      /\ _nflags s1 = _nflags s).
      { unfold config_of in Hcfg. cbn in Hcfg. conjs; congruence. }
      destruct Hsame as (Hl1 & HB1 & Hn1).
      cbn [_sweep_len _sample_bytes set_start_flags] in Hidx1, Hb1.
      apply dead_log. unfold dead. conjs; [congruence | congruence |].
      destruct (Z.eq_dec (_sweep_len s) 1).
      + left. split; lia.
      + right. right. conjs; lia. }
  destruct Hstep as (s1 & Hrun & Hdead).
  destruct (feed_dead chunks s1 Hdead) as (s' & Hfeed & (Hv' & _) & _).
  exists s'. cbn [feed]. rewrite Hrun. cbn [mbind option_bind].
  split; [exact Hfeed | exact Hv'].
Qed.

Lemma boundary_after_last_sample_stalls_witness :
  exists s1,
    feed [[0xFF; 0xFF; 0x01; 0x23; 0x0F]] wide_start = Some s1
    /\ (_sweep_idx s1, _byte_idx s1) = (1, 1)
    /\ exists s',
         feed ([0xFD; 0x04; 0x56] :: [[0x8F; 0x8F]]) s1 = Some s'
         /\ _sweep_valid s' = false.
Proof.
  eexists.
  split; [vm_compute; reflexivity|].
  split; [reflexivity|].
  apply (boundary_after_last_sample_stalls _ [0xFD; 0x04; 0x56] [0xFD; 0x04; 0x56]
           [[0x8F; 0x8F]]); try concrete.
  left. concrete.
Defined.

(** ** Codec: FFT mode *)

Lemma signed_of_twos_complement (sb v : Z) :
  1 <= sb <= 32 -> - 2 ^ (sb - 1) <= v < 2 ^ (sb - 1) ->
  signed_of (sign_mask sb) (twos_complement sb v) = v.
Proof.
  intros Hsb Hv. unfold twos_complement.
  assert (Hpow : 2 ^ sb = 2 * 2 ^ (sb - 1)).
  { rewrite <- Z.pow_succ_r by lia. f_equal. lia. }
  assert (Hp : 0 < 2 ^ (sb - 1)) by (apply Z.pow_pos_nonneg; lia).
  assert (Hu : 0 <= v mod 2 ^ sb < 2 ^ sb) by (apply Z.mod_pos_bound; lia).
  rewrite signed_of_word by assumption.
  destruct (Z.lt_ge_cases v 0).
  - assert (Hm : v mod 2 ^ sb = v + 2 ^ sb).
    { symmetry. apply (Z.mod_unique v (2 ^ sb) (-1)); lia. }
    rewrite Hm. destruct (Z.ltb_spec (v + 2 ^ sb) (2 ^ (sb - 1))); lia.
  - rewrite Z.mod_small by lia. destruct (Z.ltb_spec v (2 ^ (sb - 1))); lia.
Qed.

Lemma round_sqrt_nearest (x : Z) :
  0 <= x ->
  0 <= round_sqrt x
  /\ 4 * x < (2 * round_sqrt x + 1) * (2 * round_sqrt x + 1)
  /\ (round_sqrt x = 0 \/ (2 * round_sqrt x - 1) * (2 * round_sqrt x - 1) < 4 * x).
Proof.
  intros Hx. unfold round_sqrt.
  pose proof (Z.sqrt_spec x Hx) as [Hlo Hhi].
  pose proof (Z.sqrt_nonneg x) as Hr.
  set (r := Z.sqrt x) in *.
  destruct (Z.gtb_spec (x - r * r) r).
  - split; [lia|]. split; [nia|]. right. nia.
  - split; [lia|]. split; [nia|].
    destruct (Z.eq_dec r 0); [now left | right; nia].
Qed.

(** X4: in FFT mode, for [sample_bits] in [1..16], [sample_val] splits
    the word into two signed halves of [sample_bits] bits each, the low
    half and the one above it, and returns the magnitude
    [round (sqrt (lo^2 + hi^2))] of the pair.  ([round_sqrt] is the
    nearest integer to the real square root; the sum of squares is at most
    [2^31] here, where the [double] computation of the source is exact.) *)
Theorem sample_val_fft_magnitude (sb lo hi : Z) :
  1 <= sb <= 16 ->
  - 2 ^ (sb - 1) <= lo < 2 ^ (sb - 1) ->
  - 2 ^ (sb - 1) <= hi < 2 ^ (sb - 1) ->
  sample_val sb true (pack_pair sb lo hi) = round_sqrt (lo * lo + hi * hi).
Proof.
  intros Hsb Hlo Hhi. unfold sample_val, pack_pair. cbn [negb].
  assert (Hp : 0 < 2 ^ sb) by (apply Z.pow_pos_nonneg; lia).
  assert (Hp16 : 2 ^ sb <= 2 ^ 16) by (apply Z.pow_le_mono_r; lia).
  assert (Hh : 2 ^ (sb - 1) <= 2 ^ 15) by (apply Z.pow_le_mono_r; lia).
  assert (Hones : wrap_u64 (wrap_int (int_shl1 sb - 1)) = Z.ones sb).
  { unfold int_shl1. rewrite Z.shiftl_1_l, (wrap_int_small (2 ^ sb)) by lia.
    rewrite wrap_int_small by lia. unfold wrap_u64.
    rewrite Z.mod_small by lia. now rewrite Z.ones_equiv, Z.sub_1_r. }
  rewrite Hones.
  set (l := twos_complement sb lo). set (h := twos_complement sb hi).
  assert (Hl : 0 <= l < 2 ^ sb) by (apply Z.mod_pos_bound; lia).
  assert (Hhh : 0 <= h < 2 ^ sb) by (apply Z.mod_pos_bound; lia).
  assert (Hlow : Z.land (l + 2 ^ sb * h) (Z.ones sb) = l).
  { rewrite Z.land_ones by lia.
    rewrite (Z.mul_comm (2 ^ sb) h), Z.mod_add by lia. apply Z.mod_small. lia. }
  assert (Hhigh : Z.shiftr (Z.land (l + 2 ^ sb * h) (wrap_u64 (Z.shiftl (Z.ones sb) sb))) sb
                  = h).
  { unfold wrap_u64. rewrite Z.mod_small.
    - rewrite Z.shiftr_land, Z.shiftr_shiftl_l, Z.sub_diag, Z.shiftl_0_r by lia.
      rewrite Z.land_ones, Z.shiftr_div_pow2 by lia.
      rewrite (Z.mul_comm (2 ^ sb) h), Z.div_add by lia.
      rewrite Z.div_small, Z.add_0_l by lia. apply Z.mod_small. lia.
    - rewrite Z.shiftl_mul_pow2, Z.ones_equiv by lia.
      assert (2 ^ 16 * 2 ^ 16 < 2 ^ 64) by reflexivity. nia. }
  rewrite Hlow, Hhigh. fold (sign_mask sb). subst l h.
  rewrite !signed_of_twos_complement by lia.
  apply wrap_int_small.
  destruct (round_sqrt_nearest (lo * lo + hi * hi)) as (H0 & Hup & Hdown); [nia|].
  split; [lia|].
  destruct Hdown as [-> | Hdown]; [reflexivity|].
  assert (lo * lo + hi * hi <= 2 ^ 31) by nia.
  assert (2 ^ 31 * 4 < (2 * 2 ^ 31 - 1) * (2 * 2 ^ 31 - 1)) by reflexivity.
  nia.
Qed.

Lemma sample_val_fft_magnitude_witness :
  sample_val 12 true (pack_pair 12 3 (-4)) = round_sqrt (3 * 3 + -4 * -4).
Proof. apply (sample_val_fft_magnitude 12 3 (-4)); concrete. Defined.

(** ** Every sequence of chunks *)

(** X14: from every state that satisfies [parser_inv] (the sweep index is
    within [0 .. sweep_len], and a started stop run means a full sweep),
    [callback] returns on every sequence of chunks, keeps that invariant
    and the configuration, and appends to the log, for each chunk, a
    prefix of that chunk. *)
Theorem feed_never_fails (chunks : list (list Z)) :
  forall s : state,
    parser_inv s ->
    exists s' logged,
      feed chunks s = Some s'
      /\ parser_inv s'
      /\ config_of s' = config_of s
      /\ Forall2 (λ p c, p `prefix_of` c) logged chunks
      /\ log_written s' = log_written s ++ concat logged.
Proof.
  induction chunks as [|c rest IH]; intros s Hinv.
  - exists s, []. cbn. rewrite app_nil_r. conjs; try reflexivity; try assumption.
  - destruct (callback_step c s Hinv) as (s1 & r & Hrun & (Hc1 & Hinv1 & _) & n & Hlog1).
    destruct (IH s1 Hinv1) as (s' & logged & Hfeed & Hinv' & Hc' & Hpre & Hlog').
    exists s', (take n c :: logged).
    cbn [feed]. rewrite Hrun. cbn [mbind option_bind concat].
    conjs; try assumption.
    + congruence.
    + constructor; [apply prefix_take | exact Hpre].
    + rewrite Hlog', Hlog1, <- app_assoc. reflexivity.
Qed.

Lemma feed_never_fails_witness :
  exists s' logged,
    feed [wide_head; wide_tail] wide_logged = Some s'
    /\ parser_inv s'
    /\ config_of s' = config_of wide_logged
    /\ Forall2 (λ p c, p `prefix_of` c) logged [wide_head; wide_tail]
    /\ log_written s' = log_written wide_logged ++ concat logged.
Proof.
  apply (feed_never_fails [wide_head; wide_tail] wide_logged).
  unfold parser_inv. conjs; vm_compute; easy.
Defined.

(** ** Instances of the codec and store theorems *)

Lemma pow2ceil_least_witness :
  exists j, 0 <= j <= 30 /\ pow2ceil 5 = 2 ^ j
            /\ 5 <= 2 ^ j /\ (0 < j -> 2 ^ (j - 1) < 5).
Proof. apply (pow2ceil_least 5). concrete. Defined.

Lemma stores_skip_last_cell_witness :
  exists s',
    feed [nominal_chunk; second_chunk] (start None 8 2 false) = Some s'
    /\ _sweep_len s' = 2
    /\ (forall i, is_Some (sweep s' !! i) -> 0 <= i < 2 - 1 \/ i = 2)
    /\ sweep s' !! (2 - 1) = None
    /\ (_sweep_valid s' = true -> sweep s' !! 2 = Some (_last_sample s')).
Proof.
  apply (stores_skip_last_cell None 8 2 false [nominal_chunk; second_chunk]). lia.
Defined.
